(** * WealthAdvisor AI: the adaptive RAG serving core

    A shallow embedding of the fact-registry hallucination detector
    (hallucination_detector.py), the confidence gate (confidence_scorer.py),
    the sentiment router (sentiment_analysis.py), the session memory
    (memory.py), the weekly RLHF batch (rlhf_pipeline.py) and the LinUCB
    strategy selector (rl_recommender.py).

    Conventions of the embedding.
    - A Python [str] is a [string] holding the UTF-8 bytes of the text.
      Substring tests, [replace] and concatenation agree with Python on such
      bytes; a slice [s[:n]] counts characters, not bytes; case folding and
      whitespace are the ASCII ones.
    - A Python [float] is read as the exact number it denotes: a rational
      ([Q], or MathComp's [rat] for the matrices of the bandit), with
      [math.sqrt] taking its value in the reals.  Rounding errors of binary64
      arithmetic are not part of the model, except in [Float64], which
      computes one update of a design matrix of the bandit in binary64.
    - Mutable module state (the CA queue, the session tables, the bandit) is
      passed explicitly; an exception is an [option] or an error value. *)

From Stdlib Require Import ZArith QArith Qround Qminmax String Ascii List Bool.
From Stdlib Require Import Lia Lra Reals DecimalString.
From Stdlib Require Import Sorting.Sorted Sorting.Permutation.
From Stdlib Require Lqa.
From Corelib Require PrimFloat.
From mathcomp Require boot order algebra.
Import ListNotations.

Set Warnings "-notation-overridden,-ambiguous-paths,-deprecated".

(* ------------------------------------------------------------------ *)
(** ** Python string primitives                                        *)
(* ------------------------------------------------------------------ *)

Module PyStr.
Local Open Scope string_scope.

Definition is_upper (c : ascii) : bool :=
  let n := nat_of_ascii c in (65 <=? n)%nat && (n <=? 90)%nat.

Definition is_lower (c : ascii) : bool :=
  let n := nat_of_ascii c in (97 <=? n)%nat && (n <=? 122)%nat.

Definition is_digit (c : ascii) : bool :=
  let n := nat_of_ascii c in (48 <=? n)%nat && (n <=? 57)%nat.

(** [str.isspace] on the one-byte characters. *)
Definition is_space (c : ascii) : bool :=
  let n := nat_of_ascii c in
  ((9 <=? n)%nat && (n <=? 13)%nat) || ((28 <=? n)%nat && (n <=? 32)%nat).

Definition lower_char (c : ascii) : ascii :=
  if is_upper c then ascii_of_nat (nat_of_ascii c + 32) else c.

Definition upper_char (c : ascii) : ascii :=
  if is_lower c then ascii_of_nat (nat_of_ascii c - 32) else c.

Fixpoint map_chars (f : ascii -> ascii) (s : string) : string :=
  match s with
  | EmptyString => EmptyString
  | String c t => String (f c) (map_chars f t)
  end.

(** [s.lower()] and [s.upper()]. *)
Definition lower : string -> string := map_chars lower_char.
Definition upper : string -> string := map_chars upper_char.

(** [needle in hay]. *)
Fixpoint contains (needle hay : string) : bool :=
  String.prefix needle hay ||
  match hay with
  | EmptyString => false
  | String _ t => contains needle t
  end.

(** [any(tp in text for tp in phrases)]. *)
Definition any_in (phrases : list string) (text : string) : bool :=
  existsb (fun tp => contains tp text) phrases.

(** [s.replace(old, new)] for a non-empty [old]: leftmost, non-overlapping. *)
Fixpoint replace_go (old new : string) (skip : nat) (s : string) : string :=
  match s with
  | EmptyString => EmptyString
  | String c t =>
      match skip with
      | S k => replace_go old new k t
      | O => if String.prefix old s
             then new ++ replace_go old new (String.length old - 1) t
             else String c (replace_go old new 0 t)
      end
  end.

Fixpoint intersperse (new s : string) : string :=
  match s with
  | EmptyString => EmptyString
  | String c t => String c (new ++ intersperse new t)
  end.

Definition replace (old new s : string) : string :=
  match old with
  | EmptyString => new ++ intersperse new s
  | _ => replace_go old new 0 s
  end.

(** [s.split()]: the maximal runs of non-whitespace characters. *)
Fixpoint split_go (s : string) (cur : option string) : list string :=
  match s with
  | EmptyString => match cur with Some w => [w] | None => [] end
  | String c t =>
      if is_space c
      then match cur with
           | Some w => w :: split_go t None
           | None => split_go t None
           end
      else split_go t (Some (match cur with
                             | Some w => w ++ String c EmptyString
                             | None => String c EmptyString
                             end))
  end.

Definition split (s : string) : list string := split_go s None.

Fixpoint lstrip (s : string) : string :=
  match s with
  | EmptyString => EmptyString
  | String c t => if is_space c then lstrip t else s
  end.

Fixpoint rev_append (s acc : string) : string :=
  match s with
  | EmptyString => acc
  | String c t => rev_append t (String c acc)
  end.

Definition rev (s : string) : string := rev_append s EmptyString.

(** [s.strip()]. *)
Definition strip (s : string) : string := rev (lstrip (rev (lstrip s))).

(** A byte that continues a UTF-8 character (10xxxxxx). *)
Definition is_continuation (c : ascii) : bool :=
  let n := nat_of_ascii c in (128 <=? n)%nat && (n <? 192)%nat.

(** [s[:n]]: the first [n] characters of the text.  A character is a
    leading byte with the continuation bytes that follow it, so a character
    of several bytes counts once, as it does in Python. *)
Fixpoint take (n : nat) (s : string) : string :=
  match s with
  | EmptyString => EmptyString
  | String c t =>
      if is_continuation c then String c (take n t)
      else match n with
           | O => EmptyString
           | S k => String c (take k t)
           end
  end.

(** [sep.join(parts)]. *)
Fixpoint join (sep : string) (parts : list string) : string :=
  match parts with
  | [] => EmptyString
  | [p] => p
  | p :: rest => p ++ sep ++ join sep rest
  end.

(** [str(n)] for a non-negative integer. *)
Definition of_nat (n : nat) : string := NilZero.string_of_uint (Nat.to_uint n).

Definition nonempty (s : string) : bool :=
  match s with EmptyString => false | _ => true end.

Definition newline : string := String (ascii_of_nat 10) EmptyString.

(** Some character of [s] is not whitespace. *)
Fixpoint has_nonspace (s : string) : bool :=
  match s with
  | EmptyString => false
  | String c t => negb (is_space c) || has_nonspace t
  end.

End PyStr.

(* ------------------------------------------------------------------ *)
(** ** Python numeric primitives on exact rationals                    *)
(* ------------------------------------------------------------------ *)

Module PyNum.
Local Open Scope Q_scope.

Definition Qltb (a b : Q) : bool := negb (Qle_bool b a).

Definition qmin (a b : Q) : Q := if Qle_bool a b then a else b.
Definition qmax (a b : Q) : Q := if Qle_bool a b then b else a.

(** Nearest integer, ties to even. *)
Definition round_half_even (q : Q) : Z :=
  let f := Qfloor q in
  let r := q - inject_Z f in
  if Qltb r (1 # 2) then f
  else if Qltb (1 # 2) r then (f + 1)%Z
  else if Z.even f then f else (f + 1)%Z.

(** [round(q, ndigits)]. *)
Definition round (q : Q) (ndigits : nat) : Q :=
  let scale := (10 ^ Z.of_nat ndigits)%Z in
  Qred (inject_Z (round_half_even (q * inject_Z scale)) / inject_Z scale).

Definition of_nat (n : nat) : Q := inject_Z (Z.of_nat n).

End PyNum.

(* ------------------------------------------------------------------ *)
(** ** Facts about the string and numeric primitives                   *)
(* ------------------------------------------------------------------ *)

Module PyFacts.
Import PyStr PyNum.
Import Lqa.
Local Open Scope Q_scope.

(** Every byte is below 128: the text is ASCII. *)
Fixpoint is_ascii (s : string) : bool :=
  match s with
  | EmptyString => true
  | String c t => (nat_of_ascii c <? 128)%nat && is_ascii t
  end.

Lemma lower_char_idem (c : ascii) : lower_char (lower_char c) = lower_char c.
Proof. destruct c as [[] [] [] [] [] [] [] []]; reflexivity. Qed.

Lemma lower_upper_char (c : ascii) : lower_char (upper_char c) = lower_char c.
Proof. destruct c as [[] [] [] [] [] [] [] []]; reflexivity. Qed.

Lemma is_space_upper_char (c : ascii) : is_space (upper_char c) = is_space c.
Proof. destruct c as [[] [] [] [] [] [] [] []]; reflexivity. Qed.

Lemma is_space_lower_char (c : ascii) : is_space (lower_char c) = is_space c.
Proof. destruct c as [[] [] [] [] [] [] [] []]; reflexivity. Qed.

Lemma lower_idem (s : string) : lower (lower s) = lower s.
Proof.
  unfold lower. induction s as [| c t IH]; simpl; [reflexivity |].
  now rewrite lower_char_idem, IH.
Qed.

Lemma lower_upper (s : string) : lower (upper s) = lower s.
Proof.
  unfold lower, upper. induction s as [| c t IH]; simpl; [reflexivity |].
  now rewrite lower_upper_char, IH.
Qed.

Lemma has_nonspace_upper (s : string) : has_nonspace (upper s) = has_nonspace s.
Proof.
  unfold upper. induction s as [| c t IH]; simpl; [reflexivity |].
  now rewrite is_space_upper_char, IH.
Qed.

Lemma has_nonspace_lower (s : string) : has_nonspace (lower s) = has_nonspace s.
Proof.
  unfold lower. induction s as [| c t IH]; simpl; [reflexivity |].
  now rewrite is_space_lower_char, IH.
Qed.

Lemma Qltb_true (a b : Q) : Qltb a b = true <-> a < b.
Proof.
  unfold Qltb. rewrite negb_true_iff. split; intros H.
  - apply Qnot_le_lt. intros Hle. apply Qle_bool_iff in Hle. congruence.
  - destruct (Qle_bool b a) eqn:E; [| reflexivity].
    apply Qle_bool_iff in E. lra.
Qed.

Lemma Qltb_false (a b : Q) : Qltb a b = false <-> b <= a.
Proof.
  unfold Qltb. rewrite negb_false_iff. apply Qle_bool_iff.
Qed.

Lemma qmin_spec (a b : Q) : (a <= b /\ qmin a b = a) \/ (b < a /\ qmin a b = b).
Proof.
  unfold qmin. destruct (Qle_bool a b) eqn:E.
  - left. split; [now apply Qle_bool_iff | reflexivity].
  - right. split; [| reflexivity]. apply Qnot_le_lt. intros H.
    apply Qle_bool_iff in H. congruence.
Qed.

Lemma qmax_spec (a b : Q) : (a <= b /\ qmax a b = b) \/ (b < a /\ qmax a b = a).
Proof.
  unfold qmax. destruct (Qle_bool a b) eqn:E.
  - left. split; [now apply Qle_bool_iff | reflexivity].
  - right. split; [| reflexivity]. apply Qnot_le_lt. intros H.
    apply Qle_bool_iff in H. congruence.
Qed.

Ltac split_minmax :=
  repeat match goal with
         | |- context [qmin ?a ?b] =>
             let H := fresh in let E := fresh in
             destruct (qmin_spec a b) as [[H E] | [H E]]; rewrite E in *; clear E
         | |- context [qmax ?a ?b] =>
             let H := fresh in let E := fresh in
             destruct (qmax_spec a b) as [[H E] | [H E]]; rewrite E in *; clear E
         end.

Lemma of_nat_nonneg (n : nat) : 0 <= PyNum.of_nat n.
Proof.
  unfold PyNum.of_nat. change 0 with (inject_Z 0). rewrite <- Zle_Qle. lia.
Qed.

(** Rounding moves to the floor or to the integer above it. *)
Lemma round_half_even_floor (q : Q) :
  (Qfloor q <= round_half_even q <= Qfloor q + 1)%Z.
Proof.
  unfold round_half_even. cbv zeta.
  destruct (Qltb _ _); [lia |]. destruct (Qltb _ _); [lia |].
  destruct (Z.even _); lia.
Qed.

Lemma round_half_even_ge (q : Q) (n : Z) :
  inject_Z n <= q -> (n <= round_half_even q)%Z.
Proof.
  intros H. pose proof (round_half_even_floor q) as [Hf _].
  apply Qfloor_resp_le in H. rewrite Qfloor_Z in H. lia.
Qed.

Lemma round_half_even_le (q : Q) (n : Z) :
  q <= inject_Z n -> (round_half_even q <= n)%Z.
Proof.
  intros H. pose proof (round_half_even_floor q) as [_ Hc].
  pose proof (Qfloor_resp_le _ _ H) as Hfl. rewrite Qfloor_Z in Hfl.
  destruct (Z.eq_dec (Qfloor q) n) as [E | NE]; [| lia].
  unfold round_half_even. cbv zeta.
  assert (Hr : q - inject_Z (Qfloor q) <= 0).
  { rewrite E. lra. }
  assert (Hlt : Qltb (q - inject_Z (Qfloor q)) (1 # 2) = true).
  { apply Qltb_true. lra. }
  rewrite Hlt. lia.
Qed.

Lemma scale_pos (d : nat) : 0 < inject_Z (10 ^ Z.of_nat d).
Proof.
  change 0 with (inject_Z 0). rewrite <- Zlt_Qlt. apply Z.pow_pos_nonneg; lia.
Qed.

(** [round(q, d)] never crosses a number with [d] decimals. *)
Lemma round_ge (q : Q) (d : nat) (n : Z) :
  inject_Z n / inject_Z (10 ^ Z.of_nat d) <= q ->
  inject_Z n / inject_Z (10 ^ Z.of_nat d) <= round q d.
Proof.
  intros H. unfold round. cbv zeta. rewrite Qred_correct.
  pose proof (scale_pos d) as Hs.
  set (s := inject_Z (10 ^ Z.of_nat d)) in *.
  assert (Hn : (n <= round_half_even (q * s))%Z).
  { apply round_half_even_ge.
    setoid_replace (inject_Z n) with (inject_Z n / s * s) by (field; lra).
    apply Qmult_le_compat_r; [exact H | lra]. }
  apply Qle_shift_div_l; [exact Hs |].
  setoid_replace (inject_Z n / s * s) with (inject_Z n) by (field; lra).
  now rewrite <- Zle_Qle.
Qed.

Lemma round_le (q : Q) (d : nat) (n : Z) :
  q <= inject_Z n / inject_Z (10 ^ Z.of_nat d) ->
  round q d <= inject_Z n / inject_Z (10 ^ Z.of_nat d).
Proof.
  intros H. unfold round. cbv zeta. rewrite Qred_correct.
  pose proof (scale_pos d) as Hs.
  set (s := inject_Z (10 ^ Z.of_nat d)) in *.
  assert (Hn : (round_half_even (q * s) <= n)%Z).
  { apply round_half_even_le.
    setoid_replace (inject_Z n) with (inject_Z n / s * s) by (field; lra).
    apply Qmult_le_compat_r; [exact H | lra]. }
  apply Qle_shift_div_r; [exact Hs |].
  setoid_replace (inject_Z n / s * s) with (inject_Z n) by (field; lra).
  now rewrite <- Zle_Qle.
Qed.

(** Rounding keeps a value between two bounds that have [d] decimals. *)
Lemma round_between (q : Q) (d : nat) (lo hi : Z) :
  inject_Z lo / inject_Z (10 ^ Z.of_nat d) <= q <= inject_Z hi / inject_Z (10 ^ Z.of_nat d) ->
  inject_Z lo / inject_Z (10 ^ Z.of_nat d) <= round q d
  <= inject_Z hi / inject_Z (10 ^ Z.of_nat d).
Proof. intros [Hl Hh]. split; [now apply round_ge | now apply round_le]. Qed.

Lemma round_unit (q : Q) (d : nat) : 0 <= q <= 1 -> 0 <= round q d <= 1.
Proof.
  intros [H0 H1]. pose proof (scale_pos d) as Hs.
  assert (E0 : inject_Z 0 / inject_Z (10 ^ Z.of_nat d) == 0).
  { unfold Qdiv. change (inject_Z 0) with 0. lra. }
  assert (E1 : inject_Z (10 ^ Z.of_nat d) / inject_Z (10 ^ Z.of_nat d) == 1).
  { field. lra. }
  pose proof (round_ge q d 0) as Hg. pose proof (round_le q d (10 ^ Z.of_nat d)) as Hl.
  rewrite E0 in Hg. rewrite E1 in Hl. split; [apply Hg, H0 | apply Hl, H1].
Qed.

End PyFacts.

(* ------------------------------------------------------------------ *)
(** ** hallucination_detector.py                                       *)
(* ------------------------------------------------------------------ *)

Module HallucinationDetector.
Import PyStr.
Local Open Scope string_scope.

(** One entry of [FACT_REGISTRY].  A key the entry does not have is the
    empty list (the code reads these keys with [fact.get(key, [])]) or
    [None] ([fact.get("category")]). *)
Record Fact := mkFact {
  description      : string;
  expected_rates   : list string;
  wrong_rates      : list string;
  expected_amounts : list string;
  wrong_amounts    : list string;
  expected_limits  : list string;
  trigger_phrases  : list string;
  category         : option string
}.

Definition rate_fact (d : string) (exp wrong triggers : list string) (c : string) : Fact :=
  mkFact d exp wrong [] [] [] triggers (Some c).

(** [FACT_REGISTRY], in insertion order. *)
Definition FACT_REGISTRY : list (string * Fact) :=
  [ ("new_regime_slab_3l_5l",
     rate_fact "New regime: ₹3–7 lakh → 5%" ["5%"] []
               ["3 lakh to 7"; "3-7 lakh"; "3l to 7l"; "5% slab"] "regime");
    ("new_regime_slab_above_15l",
     rate_fact "New regime: above ₹15 lakh → 30%" ["30%"] []
               ["above 15 lakh"; "above ₹15"; "above rs 15"] "regime");
    ("87a_rebate_new_regime",
     mkFact "Sec 87A rebate new regime: ₹25,000 if income ≤ ₹7 lakh"
            [] [] ["25000"; "25,000"] [] ["7 lakh"; "₹7"] [] (Some "regime"));
    ("87a_rebate_old_regime",
     mkFact "Sec 87A rebate old regime: ₹12,500 if income ≤ ₹5 lakh"
            [] [] ["12500"; "12,500"] [] ["5 lakh"; "₹5"] [] (Some "regime"));
    ("stcg_111a_rate",
     rate_fact "STCG u/s 111A on equity: 20% (from 23 July 2024)" ["20%"] ["15%"]
               ["stcg"; "short term capital gain"; "section 111a"; "111a"] "capital_gains");
    ("ltcg_112a_rate",
     rate_fact "LTCG u/s 112A on equity: 12.5% (from 23 July 2024)" ["12.5%"] ["10%"]
               ["ltcg"; "long term capital gain"; "section 112a"; "112a"] "capital_gains");
    ("ltcg_112a_exemption",
     mkFact "LTCG 112A exemption: ₹1.25 lakh (was ₹1 lakh before Budget 2024)"
            [] [] ["1.25 lakh"; "1,25,000"; "125000"] ["1 lakh"; "100000"; "1,00,000"] []
            ["ltcg exemption"; "exempt ltcg"; "112a exempt"] (Some "capital_gains"));
    ("tds_194c_individual",
     rate_fact "TDS 194C individual/HUF contractor: 1%" ["1%"] []
               ["194c"; "contractor tds"; "section 194c individual"] "tds");
    ("tds_194c_company",
     rate_fact "TDS 194C company contractor: 2%" ["2%"] []
               ["194c company"; "contractor tds company"] "tds");
    ("tds_194ia",
     mkFact "TDS 194IA on property sale: 1% if > ₹50 lakh"
            ["1%"] [] [] [] ["50 lakh"; "₹50"]
            ["194ia"; "property tds"; "immovable property tds"] (Some "tds"));
    ("tds_194j_professional",
     rate_fact "TDS 194J professional services: 10%" ["10%"] []
               ["194j professional"; "professional fee tds"] "tds");
    ("tds_194j_technical",
     rate_fact "TDS 194J technical services: 2%" ["2%"] []
               ["194j technical"; "technical service tds"] "tds");
    ("gst_gold",
     rate_fact "GST on gold: 3%; making charges: 5%" ["3%"] []
               ["gold gst"; "gst on gold"; "gst jewellery"] "gst");
    ("gst_making_charges",
     rate_fact "GST on making charges (gold): 5%" ["5%"] []
               ["making charges gst"; "gst making"] "gst");
    ("gst_restaurant_ac",
     rate_fact "GST on restaurant in AC premises: 5% (no ITC)" ["5%"] []
               ["restaurant gst"; "gst restaurant ac"] "gst");
    ("epf_employee",
     rate_fact "EPF employee contribution: 12% of basic" ["12%"] []
               ["epf employee"; "pf employee"; "provident fund contribution"] "payroll");
    ("esic_employee",
     rate_fact "ESIC employee contribution: 0.75% of gross" ["0.75%"] []
               ["esic employee"; "esi employee contribution"] "payroll");
    ("esic_employer",
     rate_fact "ESIC employer contribution: 3.25% of gross" ["3.25%"] []
               ["esic employer"; "esi employer contribution"] "payroll");
    ("advance_tax_jun",
     rate_fact "Advance tax June installment: 15% of estimated liability" ["15%"] []
               ["june advance tax"; "15 june installment"; "advance tax june"] "advance_tax");
    ("advance_tax_sep",
     rate_fact "Advance tax September installment: 45% cumulative" ["45%"] []
               ["september advance tax"; "15 september"; "advance tax sep"] "advance_tax");
    ("advance_tax_dec",
     rate_fact "Advance tax December installment: 75% cumulative" ["75%"] []
               ["december advance tax"; "15 december"; "advance tax dec"] "advance_tax");
    ("advance_tax_mar",
     rate_fact "Advance tax March installment: 100% cumulative" ["100%"] []
               ["march advance tax"; "15 march"; "advance tax march"] "advance_tax") ].

Inductive HallucinationType :=
  WRONG_RATE | MISSING_FACT | OUTDATED_RATE | CONFLICTING | UNSUPPORTED.

(** [HallucinationType.value]. *)
Definition type_value (t : HallucinationType) : string :=
  match t with
  | WRONG_RATE => "wrong_rate"
  | MISSING_FACT => "missing_fact"
  | OUTDATED_RATE => "outdated_rate"
  | CONFLICTING => "conflicting"
  | UNSUPPORTED => "unsupported_claim"
  end.

Record HallucinationFinding := mkFinding {
  fact_key           : string;
  hallucination_type : HallucinationType;
  f_description      : string;
  found_in_text      : option string;
  expected           : option string;
  severity           : string
}.

Record HallucinationResult := mkResult {
  text             : string;
  r_category       : string;
  is_hallucination : bool;
  confidence       : Q;
  findings         : list HallucinationFinding;
  facts_checked    : nat;
  facts_passed     : nat;
  needs_ca_review  : bool;
  explanation      : string
}.

(** [_rate_present]. *)
Definition _rate_present (text_lower rate : string) : bool :=
  let rate_norm := replace " " "" (lower rate) in
  let text_norm := replace " " "" text_lower in
  contains rate_norm text_norm.

(** [_amount_present]. *)
Definition _amount_present (text_lower amount : string) : bool :=
  let norm s := replace " " "" (replace "₹" "" (replace "," "" s)) in
  contains (norm (lower amount)) (norm text_lower).

(** [_check_fact]: one finding per wrong rate, then one per wrong amount. *)
Definition _check_fact (text text_lower key : string) (fact : Fact)
  : list HallucinationFinding :=
  (map (fun wrong_rate =>
          mkFinding key OUTDATED_RATE (description fact) (Some wrong_rate)
                    (Some (join ", " (expected_rates fact))) "high")
       (filter (_rate_present text_lower) (wrong_rates fact)))
  ++
  (map (fun wrong_amount =>
          mkFinding key OUTDATED_RATE (description fact) (Some wrong_amount)
                    (Some (join ", " (expected_amounts fact))) "critical")
       (filter (_amount_present text_lower) (wrong_amounts fact))).

Definition show_opt (o : option string) : string :=
  match o with Some s => s | None => "None" end.

Definition truthy (o : option string) : bool :=
  match o with Some s => nonempty s | None => false end.

(** [_build_explanation]. *)
Definition finding_lines (f : HallucinationFinding) : list string :=
  ("  [" ++ upper (severity f) ++ "] " ++ type_value (hallucination_type f)
     ++ ": " ++ f_description f)
  :: (if truthy (found_in_text f)
      then ["    Found: " ++ show_opt (found_in_text f)
              ++ "  |  Expected: " ++ show_opt (expected f)]
      else []).

Definition _build_explanation (fs : list HallucinationFinding) (checked passed : nat)
  : string :=
  match fs with
  | [] => "All " ++ of_nat checked ++ " applicable facts passed. No hallucinations detected."
  | _ =>
      join newline
        ((of_nat (List.length fs) ++ " potential issue(s) in " ++ of_nat checked
            ++ " facts checked:")
         :: flat_map finding_lines (firstn 5 fs)
         ++ (if (5 <? List.length fs)%nat
             then ["  ... and " ++ of_nat (List.length fs - 5) ++ " more."]
             else []))
  end.

(** The loop variables of [check]. *)
Record Acc := mkAcc {
  a_findings : list HallucinationFinding;
  a_checked  : nat;
  a_passed   : nat;
  a_review   : bool
}.

Definition severe (f : HallucinationFinding) : bool :=
  String.eqb (severity f) "high" || String.eqb (severity f) "critical".

(** Whether the loop body reaches [facts_checked += 1] for this fact. *)
Definition applicable (text_lower : string) (query_category : option string)
           (fact : Fact) : bool :=
  let other_category :=
    truthy query_category && truthy (category fact)
    && negb (match category fact, query_category with
             | Some c, Some q => String.eqb c q
             | _, _ => false
             end) in
  if other_category && negb (any_in (trigger_phrases fact) text_lower) then false
  else match trigger_phrases fact with
       | [] => true
       | ts => any_in ts text_lower
       end.

(** One iteration of the loop over [FACT_REGISTRY.items()]. *)
Definition step (txt text_lower : string) (query_category : option string)
           (acc : Acc) (entry : string * Fact) : Acc :=
  let (key, fact) := entry in
  if applicable text_lower query_category fact then
    match _check_fact txt text_lower key fact with
    | [] => mkAcc (a_findings acc) (S (a_checked acc)) (S (a_passed acc)) (a_review acc)
    | ff => mkAcc (a_findings acc ++ ff) (S (a_checked acc)) (a_passed acc)
                  (if existsb severe ff then true else a_review acc)
    end
  else acc.

Definition run_registry (txt : string) (query_category : option string)
           (registry : list (string * Fact)) : Acc :=
  fold_left (step txt (lower txt) query_category) registry (mkAcc [] 0 0 false).

(** The proportion of checked facts that failed, before rounding. *)
Definition failed_ratio (checked passed : nat) : Q :=
  match checked with
  | O => 0
  | _ => (PyNum.of_nat checked - PyNum.of_nat passed) / PyNum.of_nat checked
  end.

(** The tail of [check], after the loop: confidence, flag and result. *)
Definition conclude (threshold : Q) (txt : string) (query_category : option string)
           (acc : Acc) : HallucinationResult :=
  let conf := failed_ratio (a_checked acc) (a_passed acc) in
  mkResult txt
           (if truthy query_category then show_opt query_category else "general")
           (Qle_bool threshold conf && (0 <? List.length (a_findings acc))%nat)
           (PyNum.round conf 4)
           (a_findings acc) (a_checked acc) (a_passed acc) (a_review acc)
           (_build_explanation (a_findings acc) (a_checked acc) (a_passed acc)).

(** [HallucinationDetector(threshold).check(text, query_category)]. *)
Definition check (threshold : Q) (txt : string) (query_category : option string)
  : HallucinationResult :=
  conclude threshold txt query_category
           (run_registry txt query_category FACT_REGISTRY).

Definition DEFAULT_THRESHOLD : Q := 3 # 10.

(** The module-level [check_answer]: the default detector's result. *)
Definition check_answer (answer_text : string) (query_category : option string)
  : HallucinationResult :=
  check DEFAULT_THRESHOLD answer_text query_category.

Definition smoke_text : string :=
  "Under Section 111A, STCG on equity shares is taxed at 15%. LTCG under 112A is 10% with ₹1 lakh exemption.".

(** One failed fact out of three checked. *)
Definition one_in_three : string := "stcg 15% ltcg 12.5% and 194c 1%".

(** *** Properties of [check] *)

Definition is_nil {A} (l : list A) : bool :=
  match l with [] => true | _ => false end.

(** What the loop of [check] maintains. *)
Record acc_ok (a : Acc) : Prop := mkAccOk {
  ok_le      : (a_passed a <= a_checked a)%nat;
  ok_clean   : a_findings a = [] -> a_passed a = a_checked a;
  ok_failed  : a_findings a <> [] -> (a_passed a < a_checked a)%nat;
  ok_review  : a_review a = negb (is_nil (a_findings a));
  ok_severe  : Forall (fun f => severe f = true) (a_findings a)
}.

Lemma check_fact_severe (t tl k : string) (fact : Fact) :
  Forall (fun f => severe f = true) (_check_fact t tl k fact).
Proof.
  unfold _check_fact. apply Forall_app. split; apply Forall_forall; intros f Hf;
    apply in_map_iff in Hf; destruct Hf as [w [<- _]]; reflexivity.
Qed.

Lemma step_ok (t tl : string) (qc : option string) (a : Acc) (e : string * Fact) :
  acc_ok a -> acc_ok (step t tl qc a e).
Proof.
  intros [Hle Hclean Hfailed Hrev Hsev]. unfold step. destruct e as [key fact].
  destruct (applicable tl qc fact); [| now constructor].
  pose proof (check_fact_severe t tl key fact) as Hs.
  destruct (_check_fact t tl key fact) as [| f ff] eqn:E.
  - constructor; simpl.
    + lia.
    + intros H. f_equal. auto.
    + intros H. apply Hfailed in H. lia.
    + assumption.
    + assumption.
  - constructor; simpl.
    + lia.
    + intros H. apply app_eq_nil in H. destruct H as [_ H]. discriminate.
    + intros _. lia.
    + inversion Hs as [| ? ? Hf _]; subst. rewrite Hf. simpl.
      destruct (a_findings a); reflexivity.
    + apply Forall_app. split; assumption.
Qed.

Lemma fold_step_ok (t tl : string) (qc : option string)
      (registry : list (string * Fact)) (a : Acc) :
  acc_ok a -> acc_ok (fold_left (step t tl qc) registry a).
Proof.
  revert a. induction registry as [| e rest IH]; intros a Ha; simpl; auto.
  apply IH. now apply step_ok.
Qed.

Lemma run_registry_ok (t : string) (qc : option string)
      (registry : list (string * Fact)) :
  acc_ok (run_registry t qc registry).
Proof.
  apply fold_step_ok. constructor; simpl; auto. congruence.
Qed.

Lemma step_checked_bound (t tl : string) (qc : option string) (a : Acc)
      (e : string * Fact) :
  (a_checked (step t tl qc a e) <= S (a_checked a))%nat.
Proof.
  unfold step. destruct e as [key fact].
  destruct (applicable tl qc fact); [| auto].
  destruct (_check_fact t tl key fact); simpl; auto.
Qed.

Lemma fold_checked_bound (t tl : string) (qc : option string)
      (registry : list (string * Fact)) (a : Acc) :
  (a_checked (fold_left (step t tl qc) registry a)
   <= a_checked a + List.length registry)%nat.
Proof.
  revert a. induction registry as [| e rest IH]; intros a; simpl; [lia |].
  specialize (IH (step t tl qc a e)).
  pose proof (step_checked_bound t tl qc a e). lia.
Qed.

Lemma checked_at_most_registry (t : string) (qc : option string) :
  (a_checked (run_registry t qc FACT_REGISTRY) <= 22)%nat.
Proof.
  exact (fold_checked_bound t (lower t) qc FACT_REGISTRY (mkAcc [] 0 0 false)).
Qed.

(** Rounding to four places never moves a ratio of at most 22 facts across
    the default threshold. *)
Definition round_agrees (c p : nat) : bool :=
  Bool.eqb (Qle_bool DEFAULT_THRESHOLD (PyNum.round (failed_ratio c p) 4))
           (Qle_bool DEFAULT_THRESHOLD (failed_ratio c p)).

Lemma round_agrees_table :
  forallb (fun c => forallb (round_agrees c) (seq 0 (S c))) (seq 0 23) = true.
Proof. vm_compute. reflexivity. Qed.

Lemma round_agrees_small (c p : nat) :
  (p <= c)%nat -> (c <= 22)%nat -> round_agrees c p = true.
Proof.
  intros Hp Hc.
  pose proof round_agrees_table as T.
  rewrite forallb_forall in T.
  assert (Hin : In c (seq 0 23)) by (apply in_seq; lia).
  specialize (T c Hin). rewrite forallb_forall in T.
  apply T. apply in_seq. lia.
Qed.

Lemma nonempty_length {A} (l : list A) :
  (0 <? List.length l)%nat = true <-> l <> [].
Proof.
  destruct l; simpl; split; intros H; try congruence; try reflexivity.
  discriminate.
Qed.

Lemma flag_iff (th ratio : Q) (fs : list HallucinationFinding) :
  Qle_bool th ratio && (0 <? List.length fs)%nat = true
  <-> (th <= ratio)%Q /\ fs <> [].
Proof.
  rewrite andb_true_iff, Qle_bool_iff, nonempty_length. tauto.
Qed.

Lemma conclude_spec (threshold : Q) (txt : string) (qc : option string) (acc : Acc) :
  acc_ok acc ->
  let r := conclude threshold txt qc acc in
  let c := facts_checked r in
  let p := facts_passed r in
  (p <= c)%nat
  /\ (c = 0%nat ->
      confidence r = 0%Q /\ is_hallucination r = false /\ findings r = [])
  /\ ((0 < c)%nat ->
      confidence r
      = PyNum.round ((PyNum.of_nat c - PyNum.of_nat p) / PyNum.of_nat c) 4
      /\ (is_hallucination r = true
          <-> (threshold <= (PyNum.of_nat c - PyNum.of_nat p) / PyNum.of_nat c)%Q
              /\ findings r <> [])).
Proof.
  intros [Hle Hclean Hfailed _ _]. unfold conclude. cbv zeta.
  cbn [facts_checked facts_passed confidence is_hallucination findings].
  split; [exact Hle |]. split.
  - intros Hc. rewrite Hc. cbn [failed_ratio].
    assert (Hfs : a_findings acc = []).
    { destruct (a_findings acc) as [| f fs] eqn:E; [reflexivity |].
      assert (Hne : f :: fs <> []) by discriminate.
      apply Hfailed in Hne. lia. }
    rewrite Hfs. split; [reflexivity |]. split; [| reflexivity].
    apply andb_false_r.
  - intros Hc. unfold failed_ratio.
    destruct (a_checked acc) as [| n] eqn:E; [lia |].
    split; [reflexivity |]. apply flag_iff.
Qed.

Lemma conclude_default (txt : string) (qc : option string) (acc : Acc) :
  acc_ok acc -> (a_checked acc <= 22)%nat ->
  let d := conclude DEFAULT_THRESHOLD txt qc acc in
  is_hallucination d = true
  <-> (DEFAULT_THRESHOLD <= confidence d)%Q /\ findings d <> [].
Proof.
  intros [Hle _ _ _ _] Hbound. unfold conclude. cbv zeta.
  cbn [confidence is_hallucination findings].
  pose proof (round_agrees_small _ _ Hle Hbound) as Hr.
  unfold round_agrees in Hr. apply eqb_prop in Hr.
  rewrite flag_iff. rewrite <- (Qle_bool_iff DEFAULT_THRESHOLD (PyNum.round _ _)).
  rewrite <- (Qle_bool_iff DEFAULT_THRESHOLD (failed_ratio _ _)).
  rewrite Hr. tauto.
Qed.

(** C3, as the code has it: [check] reports the failed proportion
    (facts_checked - facts_passed) / facts_checked rounded to four decimal
    places, and 0 when no registry fact applies; [is_hallucination] holds
    exactly when the unrounded proportion reaches the threshold and there is
    a finding, so never when no fact applies; for the default threshold 0.3
    the rounded value that is returned decides the same. *)
Theorem check_confidence_rounded_ratio
        (threshold : Q) (txt : string) (qc : option string) :
  let r := check threshold txt qc in
  let c := facts_checked r in
  let p := facts_passed r in
  (p <= c)%nat
  /\ (c = 0%nat ->
      confidence r = 0%Q /\ is_hallucination r = false /\ findings r = [])
  /\ ((0 < c)%nat ->
      confidence r
      = PyNum.round ((PyNum.of_nat c - PyNum.of_nat p) / PyNum.of_nat c) 4
      /\ (is_hallucination r = true
          <-> (threshold <= (PyNum.of_nat c - PyNum.of_nat p) / PyNum.of_nat c)%Q
              /\ findings r <> []))
  /\ (let d := check_answer txt qc in
      is_hallucination d = true
      <-> (DEFAULT_THRESHOLD <= confidence d)%Q /\ findings d <> []).
Proof.
  pose proof (run_registry_ok txt qc FACT_REGISTRY) as Hok.
  pose proof (conclude_spec threshold txt qc _ Hok) as [H1 [H2 H3]].
  pose proof (conclude_default txt qc _ Hok (checked_at_most_registry txt qc)) as H4.
  unfold check_answer, check. cbv zeta in *.
  split; [exact H1 |]. split; [exact H2 |]. split; [exact H3 | exact H4].
Qed.

(** C3 as stated fails: with one failed fact out of three the returned
    confidence is 0.3333, not 1/3. *)
Lemma check_confidence_not_exact_ratio :
  facts_checked (check_answer one_in_three (Some "capital_gains")) = 3%nat
  /\ facts_passed (check_answer one_in_three (Some "capital_gains")) = 2%nat
  /\ confidence (check_answer one_in_three (Some "capital_gains")) = (3333 # 10000)%Q
  /\ Qeq_bool (confidence (check_answer one_in_three (Some "capital_gains")))
              ((3 - 2) / 3)%Q = false.
Proof. vm_compute. repeat split; reflexivity. Qed.

(** *** What the registry can and cannot flag *)

(** A fact that lists a wrong rate or a wrong amount. *)
Definition can_fail (fact : Fact) : bool :=
  negb (is_nil (wrong_rates fact)) || negb (is_nil (wrong_amounts fact)).

(** The number of wrong values a fact lists. *)
Definition wrong_values (fact : Fact) : nat :=
  List.length (wrong_rates fact) + List.length (wrong_amounts fact).

Lemma check_fact_key (t tl k : string) (fact : Fact) :
  Forall (fun f => fact_key f = k) (_check_fact t tl k fact).
Proof.
  unfold _check_fact. apply Forall_app. split; apply Forall_forall; intros f Hf;
    apply in_map_iff in Hf; destruct Hf as [w [<- _]]; reflexivity.
Qed.

Lemma filter_length_le {A} (p : A -> bool) (l : list A) :
  (List.length (filter p l) <= List.length l)%nat.
Proof. induction l as [| x l IH]; simpl; [lia |]. destruct (p x); simpl; lia. Qed.

Lemma check_fact_length (t tl k : string) (fact : Fact) :
  (List.length (_check_fact t tl k fact) <= wrong_values fact)%nat.
Proof.
  unfold _check_fact, wrong_values. rewrite length_app, !length_map.
  pose proof (filter_length_le (_rate_present tl) (wrong_rates fact)).
  pose proof (filter_length_le (_amount_present tl) (wrong_amounts fact)).
  lia.
Qed.

Lemma check_fact_cannot_fail (t tl k : string) (fact : Fact) :
  can_fail fact = false -> _check_fact t tl k fact = [].
Proof.
  unfold can_fail, _check_fact. intros H. apply orb_false_elim in H.
  destruct H as [Hr Ha].
  destruct (wrong_rates fact); [| discriminate].
  destruct (wrong_amounts fact); [| discriminate]. reflexivity.
Qed.

(** The loop of [check] from any accumulator: findings come from facts
    that list wrong values, at most one per listed value, and a fact fails
    only if it lists one. *)
Lemma fold_step_budget (t tl : string) (qc : option string) (keys : list string)
      (registry : list (string * Fact)) (a : Acc) :
  (forall e, In e registry -> can_fail (snd e) = true -> In (fst e) keys) ->
  Forall (fun f => In (fact_key f) keys) (a_findings a) ->
  let a' := fold_left (step t tl qc) registry a in
  Forall (fun f => In (fact_key f) keys) (a_findings a')
  /\ (List.length (a_findings a')
      <= List.length (a_findings a) + list_sum (map (fun e => wrong_values (snd e)) registry))%nat
  /\ (a_checked a' + a_passed a
      <= a_passed a' + a_checked a
         + List.length (filter (fun e => can_fail (snd e)) registry))%nat
  /\ (a_checked a' + a_passed a <= a_passed a' + a_checked a
                                   + (List.length (a_findings a') - List.length (a_findings a)))%nat
  /\ (List.length (a_findings a) <= List.length (a_findings a'))%nat.
Proof.
  revert a. induction registry as [| [key fact] rest IH]; intros a Hkeys Hfor; cbv zeta.
  - simpl. repeat split; try lia. exact Hfor.
  - cbn [fold_left].
    assert (Hrest : forall e, In e rest -> can_fail (snd e) = true -> In (fst e) keys).
    { intros e He. apply Hkeys. now right. }
    set (a1 := step t tl qc a (key, fact)).
    assert (H1 : Forall (fun f => In (fact_key f) keys) (a_findings a1)
                 /\ (List.length (a_findings a1)
                     <= List.length (a_findings a) + wrong_values fact)%nat
                 /\ (a_checked a1 + a_passed a
                     <= a_passed a1 + a_checked a
                        + (if can_fail fact then 1 else 0))%nat
                 /\ (a_checked a1 + a_passed a
                     <= a_passed a1 + a_checked a
                        + (List.length (a_findings a1) - List.length (a_findings a)))%nat
                 /\ (List.length (a_findings a) <= List.length (a_findings a1))%nat).
    { unfold a1, step. destruct (applicable tl qc fact).
      2:{ repeat split; try lia. exact Hfor. }
      pose proof (check_fact_key t tl key fact) as Hk.
      pose proof (check_fact_length t tl key fact) as Hl.
      pose proof (check_fact_cannot_fail t tl key fact) as Hc.
      destruct (_check_fact t tl key fact) as [| f ff] eqn:E; cbn [a_findings a_checked a_passed].
      - repeat split; try lia. exact Hfor.
      - destruct (can_fail fact) eqn:Ec; [| now specialize (Hc eq_refl)].
        rewrite length_app. cbn [List.length] in *.
        repeat split; try lia.
        apply Forall_app. split; [exact Hfor |].
        eapply Forall_impl; [| exact Hk]. intros g ->.
        apply (Hkeys (key, fact)); [now left | exact Ec]. }
    destruct H1 as [F1 [L1 [C1 [D1 M1]]]].
    destruct (IH a1 Hrest F1) as [F2 [L2 [C2 [D2 M2]]]].
    cbn [map filter snd].
    change (list_sum (wrong_values fact :: ?l)) with (wrong_values fact + list_sum l)%nat.
    repeat split.
    + exact F2.
    + lia.
    + destruct (can_fail fact); cbn [List.length]; lia.
    + lia.
    + lia.
Qed.

(** The keys of the registry facts that list a wrong value. *)
Definition FALLIBLE_FACTS : list string :=
  ["stcg_111a_rate"; "ltcg_112a_rate"; "ltcg_112a_exemption"].

Lemma fallible_keys :
  forall e, In e FACT_REGISTRY -> can_fail (snd e) = true -> In (fst e) FALLIBLE_FACTS.
Proof.
  assert (H : forallb (fun e => implb (can_fail (snd e))
                                  (existsb (String.eqb (fst e)) FALLIBLE_FACTS))
                      FACT_REGISTRY = true) by (vm_compute; reflexivity).
  rewrite forallb_forall in H. intros e He Hc. specialize (H e He).
  rewrite Hc in H. cbn [implb] in H. apply existsb_exists in H.
  destruct H as [k [Hk Heq]]. apply String.eqb_eq in Heq. now subst.
Qed.

(** X10: Whatever the text, category and threshold, every finding of [check]
    comes from one of the three registry facts that list a wrong rate or a
    wrong amount; there are at most five findings, and at most three facts
    fail.  The other nineteen facts, which list expected values only, can
    never produce a finding. *)
Theorem only_three_facts_can_fail (threshold : Q) (txt : string) (qc : option string) :
  let r := check threshold txt qc in
  Forall (fun f => In (fact_key f) FALLIBLE_FACTS) (findings r)
  /\ (List.length (findings r) <= 5)%nat
  /\ (facts_checked r <= facts_passed r + 3)%nat.
Proof.
  pose proof (fold_step_budget txt (lower txt) qc FALLIBLE_FACTS FACT_REGISTRY
                (mkAcc [] 0 0 false) fallible_keys (Forall_nil _)) as H.
  cbv zeta in H. destruct H as [F [L [C _]]].
  assert (S5 : list_sum (map (fun e => wrong_values (snd e)) FACT_REGISTRY) = 5%nat)
    by (vm_compute; reflexivity).
  assert (C3 : List.length (filter (fun e => can_fail (snd e)) FACT_REGISTRY) = 3%nat)
    by (vm_compute; reflexivity).
  rewrite S5 in L. rewrite C3 in C.
  cbn [a_findings a_checked a_passed List.length] in L, C.
  unfold check, conclude. cbv zeta.
  cbn [findings facts_checked facts_passed].
  split; [exact F |]. split; [exact L |]. unfold run_registry. lia.
Qed.


Lemma run_registry_failed_le (t : string) (qc : option string)
      (registry : list (string * Fact)) :
  let acc := run_registry t qc registry in
  (a_checked acc <= a_passed acc + List.length (a_findings acc))%nat.
Proof.
  assert (Hkeys : forall e, In e registry -> can_fail (snd e) = true ->
                            In (fst e) (map fst registry)).
  { intros e He _. now apply in_map. }
  pose proof (fold_step_budget t (lower t) qc (map fst registry) registry
                (mkAcc [] 0 0 false) Hkeys (Forall_nil _)) as H.
  cbv zeta in H. destruct H as [_ [_ [_ [D _]]]].
  cbn [a_findings a_checked a_passed List.length] in D.
  unfold run_registry. cbv zeta. lia.
Qed.

Lemma conclude_review (threshold : Q) (txt : string) (qc : option string) (acc : Acc) :
  acc_ok acc ->
  (a_checked acc <= a_passed acc + List.length (a_findings acc))%nat ->
  let r := conclude threshold txt qc acc in
  (needs_ca_review r = true <-> findings r <> [])
  /\ Forall (fun f => severity f = "high" \/ severity f = "critical") (findings r)
  /\ (is_hallucination r = true -> needs_ca_review r = true)
  /\ (findings r = [] <-> facts_passed r = facts_checked r)
  /\ (facts_checked r <= facts_passed r + List.length (findings r))%nat.
Proof.
  intros [Hle Hclean Hfailed Hrev Hsev] D.
  unfold conclude. cbv zeta.
  cbn [findings facts_checked facts_passed needs_ca_review is_hallucination].
  assert (Hreview : a_review acc = true <-> a_findings acc <> []).
  { rewrite Hrev. destruct (a_findings acc); simpl; split; congruence. }
  split; [exact Hreview |]. split.
  - eapply Forall_impl; [| exact Hsev]. intros f Hf. unfold severe in Hf.
    apply orb_true_iff in Hf. destruct Hf as [Hf | Hf]; apply String.eqb_eq in Hf; auto.
  - split; [| split].
    + intros Hflag. apply andb_true_iff in Hflag. destruct Hflag as [_ Hlen].
      apply Hreview. now apply nonempty_length.
    + split; [exact Hclean |]. intros Heq.
      destruct (a_findings acc) as [| f fs] eqn:E; [reflexivity |].
      assert (Hne : f :: fs <> []) by discriminate.
      apply Hfailed in Hne. lia.
    + exact D.
Qed.

(** X11: [check] sets [needs_ca_review] exactly when it has a finding, every
    finding having severity high or critical; [is_hallucination] implies
    [needs_ca_review]; there is no finding exactly when every checked fact
    passed; and every failed fact contributes a finding. *)
Theorem review_flag_iff_any_finding (threshold : Q) (txt : string) (qc : option string) :
  let r := check threshold txt qc in
  (needs_ca_review r = true <-> findings r <> [])
  /\ Forall (fun f => severity f = "high" \/ severity f = "critical") (findings r)
  /\ (is_hallucination r = true -> needs_ca_review r = true)
  /\ (findings r = [] <-> facts_passed r = facts_checked r)
  /\ (facts_checked r <= facts_passed r + List.length (findings r))%nat.
Proof.
  exact (conclude_review threshold txt qc _ (run_registry_ok txt qc FACT_REGISTRY)
           (run_registry_failed_le txt qc FACT_REGISTRY)).
Qed.

(** *** The category argument *)

Definition triggerless (fact : Fact) : bool := is_nil (trigger_phrases fact).

Lemma applicable_with_triggers (tl : string) (qc : option string) (fact : Fact) :
  triggerless fact = false ->
  applicable tl qc fact = any_in (trigger_phrases fact) tl.
Proof.
  unfold triggerless, applicable. cbv zeta.
  destruct (trigger_phrases fact) as [| tp ts] eqn:E; [discriminate |]. intros _.
  destruct (any_in (tp :: ts) tl); [| now rewrite andb_true_r; destruct (_ && _)].
  now rewrite andb_false_r.
Qed.

Lemma applicable_unfiltered_triggerless (tl : string) (fact : Fact) :
  triggerless fact = true -> applicable tl None fact = true.
Proof.
  unfold triggerless, applicable. cbv zeta.
  destruct (trigger_phrases fact); [reflexivity | discriminate].
Qed.

(** The loop variables with a category, against those without one:
    the same findings, and [d] facts fewer checked, all of them passed. *)
Definition same_outcome (d : nat) (a a0 : Acc) : Prop :=
  a_findings a = a_findings a0 /\ a_review a = a_review a0
  /\ a_checked a0 = (a_checked a + d)%nat /\ a_passed a0 = (a_passed a + d)%nat.

Lemma fold_step_category (t tl : string) (qc : option string)
      (registry : list (string * Fact)) (a a0 : Acc) (d : nat) :
  (forall e, In e registry -> triggerless (snd e) = true -> can_fail (snd e) = false) ->
  same_outcome d a a0 ->
  exists d', (d <= d' <= d + List.length (filter (fun e => triggerless (snd e)) registry))%nat
             /\ same_outcome d' (fold_left (step t tl qc) registry a)
                             (fold_left (step t tl None) registry a0).
Proof.
  revert a a0 d. induction registry as [| [key fact] rest IH]; intros a a0 d Hreg Hsame.
  - exists d. simpl. split; [lia | exact Hsame].
  - cbn [fold_left filter snd].
    assert (Hrest : forall e, In e rest -> triggerless (snd e) = true -> can_fail (snd e) = false).
    { intros e He. apply Hreg. now right. }
    destruct Hsame as [Hf [Hr [Hc Hp]]].
    destruct (triggerless fact) eqn:Et.
    + pose proof (Hreg (key, fact) (or_introl eq_refl) Et) as Hcf. cbn [snd] in Hcf.
      pose proof (check_fact_cannot_fail t tl key fact Hcf) as Hnil.
      assert (Hstep0 : step t tl None a0 (key, fact)
                       = mkAcc (a_findings a0) (S (a_checked a0)) (S (a_passed a0))
                               (a_review a0)).
      { unfold step. now rewrite (applicable_unfiltered_triggerless tl fact Et), Hnil. }
      rewrite Hstep0.
      destruct (applicable tl qc fact) eqn:Ea.
      * assert (Hstep : step t tl qc a (key, fact)
                        = mkAcc (a_findings a) (S (a_checked a)) (S (a_passed a))
                                (a_review a)).
        { unfold step. now rewrite Ea, Hnil. }
        rewrite Hstep.
        assert (Hs1 : same_outcome d
                        (mkAcc (a_findings a) (S (a_checked a)) (S (a_passed a))
                               (a_review a))
                        (mkAcc (a_findings a0) (S (a_checked a0)) (S (a_passed a0))
                               (a_review a0))).
        { unfold same_outcome. cbn [a_findings a_review a_checked a_passed].
          repeat split; try assumption; lia. }
        destruct (IH _ _ d Hrest Hs1) as [d' [Hd' Hs']].
        exists d'. cbn [List.length]. split; [lia | exact Hs'].
      * assert (Hstep : step t tl qc a (key, fact) = a).
        { unfold step. now rewrite Ea. }
        rewrite Hstep.
        assert (Hs1 : same_outcome (S d) a
                        (mkAcc (a_findings a0) (S (a_checked a0)) (S (a_passed a0))
                               (a_review a0))).
        { unfold same_outcome. cbn [a_findings a_review a_checked a_passed].
          repeat split; try assumption; lia. }
        destruct (IH _ _ (S d) Hrest Hs1) as [d' [Hd' Hs']].
        exists d'. cbn [List.length]. split; [lia | exact Hs'].
    + assert (Hstep : same_outcome d (step t tl qc a (key, fact))
                                   (step t tl None a0 (key, fact))).
      { unfold step. rewrite !(applicable_with_triggers tl _ fact Et).
        destruct (any_in (trigger_phrases fact) tl); [| now repeat split].
        destruct (_check_fact t tl key fact); unfold same_outcome;
          cbn [a_findings a_review a_checked a_passed]; rewrite Hf, Hr, Hc, Hp;
          repeat split; lia. }
      destruct (IH _ _ d Hrest Hstep) as [d' [Hd' Hs']].
      exists d'. split; [lia | exact Hs'].
Qed.

Lemma fold_step_unfiltered (t tl : string) (registry : list (string * Fact)) (a0 : Acc) :
  (a_checked a0 + List.length (filter (fun e => triggerless (snd e)) registry)
   <= a_checked (fold_left (step t tl None) registry a0))%nat.
Proof.
  revert a0. induction registry as [| [key fact] rest IH]; intros a0.
  - simpl. lia.
  - cbn [fold_left filter snd]. specialize (IH (step t tl None a0 (key, fact))).
    assert (H : (a_checked a0 + (if triggerless fact then 1 else 0)
                 <= a_checked (step t tl None a0 (key, fact)))%nat).
    { unfold step. destruct (triggerless fact) eqn:Et.
      - rewrite (applicable_unfiltered_triggerless tl fact Et).
        destruct (_check_fact t tl key fact); simpl; lia.
      - destruct (applicable tl None fact); [| lia].
        destruct (_check_fact t tl key fact); simpl; lia. }
    destruct (triggerless fact); cbn [List.length]; lia.
Qed.

Lemma triggerless_cannot_fail :
  forall e, In e FACT_REGISTRY -> triggerless (snd e) = true -> can_fail (snd e) = false.
Proof.
  assert (H : forallb (fun e => implb (triggerless (snd e)) (negb (can_fail (snd e))))
                      FACT_REGISTRY = true) by (vm_compute; reflexivity).
  rewrite forallb_forall in H. intros e He Ht. specialize (H e He).
  rewrite Ht in H. cbn [implb] in H. now apply negb_true_iff in H.
Qed.

Lemma conclude_category (threshold : Q) (txt : string) (qc : option string)
      (registry : list (string * Fact)) (n : nat) :
  (forall e, In e registry -> triggerless (snd e) = true -> can_fail (snd e) = false) ->
  List.length (filter (fun e => triggerless (snd e)) registry) = n ->
  let r := conclude threshold txt qc (run_registry txt qc registry) in
  let r0 := conclude threshold txt None (run_registry txt None registry) in
  findings r = findings r0
  /\ needs_ca_review r = needs_ca_review r0
  /\ (facts_checked r <= facts_checked r0 <= facts_checked r + n)%nat
  /\ (facts_checked r0 - facts_passed r0 = facts_checked r - facts_passed r)%nat
  /\ (n <= facts_checked r0)%nat.
Proof.
  intros Hreg Hn.
  assert (Hinit : same_outcome 0 (mkAcc [] 0 0 false) (mkAcc [] 0 0 false))
    by (repeat split).
  destruct (fold_step_category txt (lower txt) qc registry _ _ 0 Hreg Hinit)
    as [d [Hd [Hf [Hr [Hc Hp]]]]].
  pose proof (fold_step_unfiltered txt (lower txt) registry (mkAcc [] 0 0 false)) as Hu.
  rewrite Hn in Hd, Hu. cbn [a_checked] in Hu.
  unfold conclude, run_registry. cbv zeta.
  cbn [findings facts_checked facts_passed needs_ca_review].
  split; [exact Hf |]. split; [exact Hr |]. lia.
Qed.

Lemma triggerless_count :
  List.length (filter (fun e => triggerless (snd e)) FACT_REGISTRY) = 2%nat.
Proof. vm_compute. reflexivity. Qed.

(** X12: The category argument of [check] never changes the findings or
    [needs_ca_review]: it can only leave out facts without trigger phrases,
    which cannot fail.  With a category at most two facts fewer are
    checked, the number of failed facts is the same, and without a category
    at least two facts are checked for every text. *)
Theorem category_does_not_change_findings
        (threshold : Q) (txt : string) (qc : option string) :
  let r := check threshold txt qc in
  let r0 := check threshold txt None in
  findings r = findings r0
  /\ needs_ca_review r = needs_ca_review r0
  /\ (facts_checked r <= facts_checked r0 <= facts_checked r + 2)%nat
  /\ (facts_checked r0 - facts_passed r0 = facts_checked r - facts_passed r)%nat
  /\ (2 <= facts_checked r0)%nat.
Proof.
  exact (conclude_category threshold txt qc FACT_REGISTRY 2
           triggerless_cannot_fail triggerless_count).
Qed.

End HallucinationDetector.

(* ------------------------------------------------------------------ *)
(** ** The regular expressions of [re], by derivatives                 *)
(* ------------------------------------------------------------------ *)

Module Regex.
Import PyStr.

Inductive re :=
| Null
| Eps
| Chr (p : ascii -> bool)
| Seq (a b : re)
| Alt (a b : re)
| Star (a : re).

Fixpoint nullable (r : re) : bool :=
  match r with
  | Null => false
  | Eps => true
  | Chr _ => false
  | Seq a b => nullable a && nullable b
  | Alt a b => nullable a || nullable b
  | Star _ => true
  end.

Definition seq (a b : re) : re :=
  match a, b with
  | Null, _ => Null
  | _, Null => Null
  | Eps, _ => b
  | _, Eps => a
  | _, _ => Seq a b
  end.

Definition alt (a b : re) : re :=
  match a, b with
  | Null, _ => b
  | _, Null => a
  | _, _ => Alt a b
  end.

Fixpoint deriv (c : ascii) (r : re) : re :=
  match r with
  | Null => Null
  | Eps => Null
  | Chr p => if p c then Eps else Null
  | Seq a b =>
      if nullable a then alt (seq (deriv c a) b) (deriv c b)
      else seq (deriv c a) b
  | Alt a b => alt (deriv c a) (deriv c b)
  | Star a => seq (deriv c a) (Star a)
  end.

(** Some prefix of [s] is in the language of [r] ([pattern.match]). *)
Fixpoint prefix_match (r : re) (s : string) : bool :=
  if nullable r then true
  else match s with
       | EmptyString => false
       | String c t => prefix_match (deriv c r) t
       end.

(** Some substring of [s] is in the language of [r] ([pattern.search]). *)
Fixpoint search (r : re) (s : string) : bool :=
  if prefix_match r s then true
  else match s with
       | EmptyString => false
       | String _ t => search r t
       end.

(** A literal character under [re.IGNORECASE]. *)
Definition ci (ch : ascii) : re :=
  Chr (fun c => Ascii.eqb (lower_char c) (lower_char ch)).

Fixpoint lit (s : string) : re :=
  match s with
  | EmptyString => Eps
  | String c t => Seq (ci c) (lit t)
  end.

Definition plus (r : re) : re := Seq r (Star r).
Definition opt (r : re) : re := Alt Eps r.
Definition digit : re := Chr is_digit.
Definition space : re := Chr is_space.
Definition word : re :=
  Chr (fun c => is_digit c || is_lower c || is_upper c || Ascii.eqb c "_"%char).
Definition one_of (l : list string) : re :=
  fold_right (fun s r => Alt (lit s) r) Null l.

End Regex.

(* ------------------------------------------------------------------ *)
(** ** confidence_scorer.py                                            *)
(* ------------------------------------------------------------------ *)

Module ConfidenceScorer.
Import PyStr PyNum Regex.
Local Open Scope string_scope.
Local Open Scope Q_scope.

Definition ESCALATE_THRESHOLD   : Q := 50 # 100.
Definition DISCLAIMER_THRESHOLD : Q := 65 # 100.
Definition HIGH_CONFIDENCE      : Q := 85 # 100.

Definition COMPLEXITY_HIGH : list string :=
  [ "notice"; "scrutiny"; "penalty"; "prosecution"; "144"; "148"; "263"; "271";
    "revised return"; "rectification"; "search and seizure"; "appeal";
    "tribunal"; "high court"; "itat"; "compounding"; "prosecution";
    "foreign income"; "dtaa"; "form 15ca"; "form 15cb" ].

Definition COMPLEXITY_MEDIUM : list string :=
  [ "carry forward"; "set off"; "loss adjustment"; "indexation";
    "splitting income"; "huf"; "clubbing"; "deemed income";
    "perquisite"; "gratuity limit"; "vrs exemption" ].

(** [QUALITY_MARKERS["positive"]], compiled with [re.IGNORECASE]. *)
Definition POSITIVE_PATTERNS : list re :=
  [ Seq (lit "section") (Seq (plus space) digit);
    Seq (lit "₹") (plus (Alt digit (Alt (ci ","%char) (ci "."%char))));
    Seq (plus digit) (Seq (opt (Seq (ci "."%char) (plus digit))) (ci "%"%char));
    Seq (lit "fy") (Seq (Star space) (Seq (lit "20") (Seq digit digit)));
    Seq (lit "form") (Seq (plus space) (plus digit));
    Seq (lit "schedule") (Seq (plus space) (plus word)) ].

(** [QUALITY_MARKERS["negative"]]. *)
Definition NEGATIVE_PATTERNS : list re :=
  [ Seq (lit "i don") (Seq (opt (ci "'"%char)) (lit "t know"));
    Seq (lit "i") (Seq (opt (ci "'"%char)) (lit "m not sure"));
    Seq (lit "cannot ") (one_of ["provide"; "give"; "tell"]);
    Seq (lit "consult a ")
        (Seq (one_of ["ca"; "tax"; "financial"])
             (Seq (lit " ") (one_of ["professional"; "advisor"; "expert"])));
    Seq (lit "beyond my ") (one_of ["knowledge"; "scope"; "expertise"]);
    Seq (lit "this is not ")
        (Seq (one_of ["tax"; "financial"; "legal"]) (lit " advice")) ].

Record RetrievalSignals := mkSignals {
  top_similarity_score : Q;
  avg_similarity_score : Q;
  num_chunks_retrieved : Z;
  chunk_diversity      : Q;
  has_exact_match      : bool
}.

(** The [components] dictionary of [score]. *)
Record Components := mkComponents {
  c_retrieval             : Q;
  c_intent                : Q;
  c_complexity_penalty    : Q;
  c_answer_quality        : Q;
  c_length_score          : Q;
  c_hallucination_penalty : Q
}.

Record ConfidenceResult := mkConfidence {
  answer            : string;
  query             : string;
  category          : string;
  confidence        : Q;
  components        : Components;
  escalate_to_ca    : bool;
  add_disclaimer    : bool;
  disclaimer_text   : string;
  escalation_reason : option string;
  hallucination     : option HallucinationDetector.HallucinationResult
}.

(** An entry of [_ca_review_queue]; [id] and [timestamp] come from the clock. *)
Record ReviewItem := mkItem {
  item_id      : string;
  timestamp    : string;
  item_query   : string;
  item_answer  : string;
  reason       : string;
  item_confidence : Q;
  status       : string
}.

(** What [time.time()] and [time.strftime] give at the call. *)
Record Clock := mkClock { millis : N; stamp : string }.

Definition QUEUE_MAXLEN : nat := 500.

(** [add_to_ca_queue]: [appendleft] on a [deque(maxlen=500)]. *)
Definition add_to_ca_queue (clock : Clock) (queue : list ReviewItem)
           (q a why : string) (conf : Q) : list ReviewItem :=
  firstn QUEUE_MAXLEN
    (mkItem ("rev_" ++ NilZero.string_of_uint (N.to_uint (millis clock))) (stamp clock)
            q (take 500 a) why conf "pending" :: queue).

(** [_retrieval_score]. *)
Definition _retrieval_score (retrieval : option RetrievalSignals) : Q :=
  match retrieval with
  | None => 1 # 2
  | Some r =>
      0 + qmin 1 (top_similarity_score r) * (40 # 100)
        + qmin 1 (avg_similarity_score r) * (30 # 100)
        + qmin 1 (chunk_diversity r) * (15 # 100)
        + qmin 1 (inject_Z (num_chunks_retrieved r) / 4) * (15 # 100)
  end.

(** [_complexity_penalty]. *)
Definition _complexity_penalty (q a : string) : Q :=
  let combined := lower (q ++ " " ++ a) in
  if any_in COMPLEXITY_HIGH combined then 4 # 10
  else if any_in COMPLEXITY_MEDIUM combined then 65 # 100
  else 1.

Definition count_matches (patterns : list re) (s : string) : nat :=
  List.length (filter (fun p => search p s) patterns).

(** [_answer_quality_score]. *)
Definition _answer_quality_score (a : string) : Q :=
  let positive := count_matches POSITIVE_PATTERNS a in
  let negative := count_matches NEGATIVE_PATTERNS a in
  let score := qmin 1 (PyNum.of_nat positive
                       / qmax 2 (PyNum.of_nat (List.length POSITIVE_PATTERNS) * (4 # 10))) in
  let score := score - qmin (1 # 2) (PyNum.of_nat negative * (15 # 100)) in
  qmax 0 score.

(** [_length_score]. *)
Definition _length_score (a : string) : Q :=
  let tokens := List.length (split a) in
  if (tokens <? 20)%nat then 2 # 10
  else if (tokens <? 50)%nat then 6 # 10
  else if (tokens <? 500)%nat then 1
  else 8 # 10.

Definition FLAGGED_DISCLAIMER : string :=
  "⚠️ This answer has been flagged for human CA review. Please verify with a qualified Chartered Accountant before acting. Tax laws are subject to change — always check CBDT/GST Council notifications.".

Definition ENHANCED_DISCLAIMER : string :=
  "ℹ️ This answer involves complex tax considerations. For personalised advice, consult a qualified CA or tax professional. Information is based on FY 2024-25 rules — verify current applicability.".

Definition STANDARD_DISCLAIMER : string :=
  "This information is for general guidance only. Tax laws change; verify with official sources (incometax.gov.in, gst.gov.in).".

Definition flagged (h : option HallucinationDetector.HallucinationResult) : bool :=
  match h with
  | Some r => HallucinationDetector.is_hallucination r
  | None => false
  end.

(** [_build_disclaimer]. *)
Definition _build_disclaimer (conf : Q) (escalate : bool)
           (hall_result : option HallucinationDetector.HallucinationResult) : string :=
  if escalate || flagged hall_result then FLAGGED_DISCLAIMER
  else if Qltb conf DISCLAIMER_THRESHOLD then ENHANCED_DISCLAIMER
  else STANDARD_DISCLAIMER.

(** [f"{q:.2f}"]. *)
Definition two_digits (n : nat) : string :=
  if (n <? 10)%nat then "0" ++ PyStr.of_nat n else PyStr.of_nat n.

Definition fmt2 (q : Q) : string :=
  let z := round_half_even (q * 100) in
  let a := Z.abs_nat z in
  (if (z <? 0)%Z then "-" else "")
    ++ PyStr.of_nat (a / 100) ++ "." ++ two_digits (a mod 100).

Definition round_components (c : Components) : Components :=
  mkComponents (round (c_retrieval c) 4) (round (c_intent c) 4)
               (round (c_complexity_penalty c) 4) (round (c_answer_quality c) 4)
               (round (c_length_score c) 4) (round (c_hallucination_penalty c) 4).

Section Score.

(** Whether [from hallucination_detector import check_answer] succeeded. *)
Variable HALLUCINATION_AVAILABLE : bool.

(** [ConfidenceScorer.score]: the result and the CA queue after the call. *)
Definition score (clock : Clock) (queue : list ReviewItem)
           (q a cat : string) (retrieval : option RetrievalSignals)
           (intent_confidence : Q) : ConfidenceResult * list ReviewItem :=
  let hall_result :=
    if HALLUCINATION_AVAILABLE
    then Some (HallucinationDetector.check_answer a (Some cat)) else None in
  let comps :=
    mkComponents (_retrieval_score retrieval)
                 (qmin 1 (qmax 0 intent_confidence))
                 (_complexity_penalty q a)
                 (_answer_quality_score a)
                 (_length_score a)
                 (if flagged hall_result then - (4 # 10) else 0) in
  let base := 0 + (30 # 100) * c_retrieval comps
                + (20 # 100) * c_intent comps
                + (25 # 100) * c_answer_quality comps
                + (10 # 100) * c_length_score comps
                + (15 # 100) * c_complexity_penalty comps in
  let conf := qmax 0 (qmin 1 (base + c_hallucination_penalty comps)) in
  let decision : bool * option string :=
    match hall_result with
    | Some h =>
        if HallucinationDetector.is_hallucination h
        then (true, Some ("Hallucination detected (confidence "
                            ++ fmt2 (HallucinationDetector.confidence h) ++ "): "
                            ++ take 200 (HallucinationDetector.explanation h)))
        else if Qltb conf ESCALATE_THRESHOLD
        then (true, Some ("Low confidence score " ++ fmt2 conf
                            ++ " — complex or uncertain query"))
        else (false, None)
    | None =>
        if Qltb conf ESCALATE_THRESHOLD
        then (true, Some ("Low confidence score " ++ fmt2 conf
                            ++ " — complex or uncertain query"))
        else (false, None)
    end in
  let escalate := fst decision in
  let why := snd decision in
  let queue' :=
    if escalate
    then add_to_ca_queue clock queue q a
           (match why with
            | Some s => if nonempty s then s else "hallucination"
            | None => "hallucination"
            end) conf
    else queue in
  (mkConfidence a q cat (round conf 4) (round_components comps) escalate
                (Qltb conf DISCLAIMER_THRESHOLD)
                (_build_disclaimer conf escalate hall_result)
                why hall_result,
   queue').

End Score.

Definition smoke_query : string := "What is STCG tax rate on equity shares?".
Definition smoke_answer_1 : string :=
  "Under Section 111A, Short-Term Capital Gains on equity shares and equity mutual funds are taxed at 20% (post-Budget 2024) if STT has been paid and shares are held for less than 12 months.".
Definition smoke_answer_2 : string := "STCG on equity is 15%.".

(** An answer that trips one registry fact out of four. *)
Definition diluted_answer : string :=
  "Under Section 111A, STCG on equity shares is taxed at 15% for FY 2024. TDS under 194C applies to contractors, GST on gold is 3% and the EPF employee contribution is 12% of basic pay.".


Definition smoke_clock : Clock := mkClock 1730707200000 "2024-11-04T08:00:00Z".

(** *** Properties of [score] *)

(** The gate's flag follows the detector's [is_hallucination] whenever the
    detector ran, whatever the weighted sum came to. *)
Lemma escalate_when_flagged (avail : bool) (clock : Clock) (queue : list ReviewItem)
      (q a cat : string) (retrieval : option RetrievalSignals) (ic : Q)
      (h : HallucinationDetector.HallucinationResult) :
  hallucination (fst (score avail clock queue q a cat retrieval ic)) = Some h ->
  HallucinationDetector.is_hallucination h = true ->
  escalate_to_ca (fst (score avail clock queue q a cat retrieval ic)) = true.
Proof.
  unfold score. cbv zeta. cbn [fst hallucination escalate_to_ca].
  destruct avail; [| discriminate].
  intros Hh Hflag. injection Hh as Hh. rewrite Hh, Hflag. reflexivity.
Qed.

(** C1: whenever the hallucination check on the answer returns
    [is_hallucination = True], [score] returns [escalate_to_ca = True],
    for every query, retrieval signals and intent confidence, hence for
    every value of the numeric confidence. *)
Theorem hallucination_forces_escalation
        (clock : Clock) (queue : list ReviewItem) (q a cat : string)
        (retrieval : option RetrievalSignals) (ic : Q) :
  HallucinationDetector.is_hallucination
    (HallucinationDetector.check_answer a (Some cat)) = true ->
  escalate_to_ca (fst (score true clock queue q a cat retrieval ic)) = true.
Proof.
  intros Hflag.
  apply (escalate_when_flagged true clock queue q a cat retrieval ic
           (HallucinationDetector.check_answer a (Some cat))).
  - reflexivity.
  - exact Hflag.
Qed.

Lemma hallucination_forces_escalation_witness :
  HallucinationDetector.is_hallucination
    (HallucinationDetector.check_answer smoke_answer_2 (Some "capital_gains")) = true
  /\ escalate_to_ca
       (fst (score true smoke_clock [] smoke_query smoke_answer_2 "capital_gains"
                   None (88 # 100))) = true.
Proof.
  split.
  - vm_compute. reflexivity.
  - apply (hallucination_forces_escalation smoke_clock [] smoke_query smoke_answer_2
             "capital_gains" None (88 # 100)).
    vm_compute. reflexivity.
Defined.

(** C2 at a concrete answer: the detector reports a finding of severity
    high and sets [needs_ca_review], one failed fact out of four keeps
    [is_hallucination] false, and [score] neither escalates nor queues the
    answer. *)
Lemma severe_finding_not_escalated :
  let out := score true smoke_clock [] smoke_query diluted_answer "capital_gains"
                   None (88 # 100) in
  option_map
    (fun h => (existsb HallucinationDetector.severe (HallucinationDetector.findings h),
               HallucinationDetector.needs_ca_review h,
               HallucinationDetector.facts_checked h,
               HallucinationDetector.facts_passed h,
               HallucinationDetector.is_hallucination h))
    (hallucination (fst out))
  = Some (true, true, 4%nat, 3%nat, false)
  /\ confidence (fst out) = 393 # 500
  /\ escalate_to_ca (fst out) = false
  /\ add_disclaimer (fst out) = false
  /\ snd out = [].
Proof. vm_compute. repeat split; reflexivity. Qed.

Import PyFacts.
Import Lqa.

(** *** Ranges *)

Lemma round4_ge (q : Q) (n : Z) :
  inject_Z n / 10000 <= q -> inject_Z n / 10000 <= round q 4.
Proof. exact (round_ge q 4 n). Qed.

Lemma round4_le (q : Q) (n : Z) :
  q <= inject_Z n / 10000 -> round q 4 <= inject_Z n / 10000.
Proof. exact (round_le q 4 n). Qed.

Lemma round4_unit (q : Q) : 0 <= q <= 1 -> 0 <= round q 4 <= 1.
Proof. exact (round_unit q 4). Qed.

Lemma retrieval_score_le (retrieval : option RetrievalSignals) :
  _retrieval_score retrieval <= 1.
Proof.
  destruct retrieval as [r |]; unfold _retrieval_score; [| discriminate].
  generalize (inject_Z (num_chunks_retrieved r) / 4). intros n.
  split_minmax; lra.
Qed.

Lemma intent_range (ic : Q) : 0 <= qmin 1 (qmax 0 ic) <= 1.
Proof. split_minmax; lra. Qed.

Lemma complexity_penalty_range (q a : string) : 0 <= _complexity_penalty q a <= 1.
Proof.
  unfold _complexity_penalty. cbv zeta.
  destruct (any_in COMPLEXITY_HIGH _); [lra |].
  destruct (any_in COMPLEXITY_MEDIUM _); lra.
Qed.

Lemma answer_quality_range (a : string) : 0 <= _answer_quality_score a <= 1.
Proof.
  unfold _answer_quality_score. cbv zeta.
  pose proof (of_nat_nonneg (count_matches NEGATIVE_PATTERNS a)) as Hn.
  generalize dependent (PyNum.of_nat (count_matches NEGATIVE_PATTERNS a)). intros n Hn.
  generalize (PyNum.of_nat (count_matches POSITIVE_PATTERNS a)
              / qmax 2 (PyNum.of_nat (List.length POSITIVE_PATTERNS) * (4 # 10))).
  intros p. split_minmax; lra.
Qed.

Lemma length_score_range (a : string) : 0 <= _length_score a <= 1.
Proof.
  unfold _length_score. cbv zeta.
  destruct (_ <? 20)%nat; [lra |]. destruct (_ <? 50)%nat; [lra |].
  destruct (_ <? 500)%nat; lra.
Qed.

(** [list(_ca_review_queue)[:limit]]. *)
Definition get_ca_queue (limit : Z) (queue : list ReviewItem) : list ReviewItem :=
  if (0 <=? limit)%Z then firstn (Z.to_nat limit) queue
  else firstn (List.length queue - Z.to_nat (- limit)) queue.

(** X13: For all inputs, also retrieval signals and intent confidences out of
    range, [score] returns a confidence in [0, 1]; the intent, complexity,
    answer-quality and length components are in [0, 1], the retrieval
    component is at most 1 and the hallucination penalty is -0.4 or 0; a
    returned confidence below 0.65 comes with [add_disclaimer], one above
    0.65 without it, and one below 0.5 with [escalate_to_ca]. *)
Theorem confidence_and_components_in_range
        (avail : bool) (clock : Clock) (queue : list ReviewItem)
        (q a cat : string) (retrieval : option RetrievalSignals) (ic : Q) :
  let r := fst (score avail clock queue q a cat retrieval ic) in
  let c := components r in
  0 <= confidence r <= 1
  /\ c_retrieval c <= 1
  /\ 0 <= c_intent c <= 1
  /\ 0 <= c_complexity_penalty c <= 1
  /\ 0 <= c_answer_quality c <= 1
  /\ 0 <= c_length_score c <= 1
  /\ (c_hallucination_penalty c = - (2 # 5) \/ c_hallucination_penalty c = 0)
  /\ (confidence r < 65 # 100 -> add_disclaimer r = true)
  /\ (65 # 100 < confidence r -> add_disclaimer r = false)
  /\ (confidence r < 1 # 2 -> escalate_to_ca r = true).
Proof.
  unfold score. cbv zeta.
  set (hall := if avail then Some (HallucinationDetector.check_answer a (Some cat))
               else None).
  cbn [fst confidence components add_disclaimer escalate_to_ca round_components
       c_retrieval c_intent c_complexity_penalty c_answer_quality c_length_score
       c_hallucination_penalty].
  set (conf := qmax 0 (qmin 1 _)).
  assert (Hconf : 0 <= conf <= 1).
  { subst conf. match goal with |- context [qmin 1 ?x] => generalize x end.
    intros x. split_minmax; lra. }
  clearbody conf.
  split; [now apply round4_unit |].
  split. { apply (Qle_trans _ (inject_Z 10000 / 10000)); [| discriminate].
           apply round4_le. apply (Qle_trans _ 1); [| discriminate].
           apply retrieval_score_le. }
  split; [apply round4_unit, intent_range |].
  split; [apply round4_unit, complexity_penalty_range |].
  split; [apply round4_unit, answer_quality_range |].
  split; [apply round4_unit, length_score_range |].
  split; [destruct (flagged hall); [left | right]; reflexivity |].
  split; [| split].
  - intros Hlt. apply Qltb_true. apply Qnot_le_lt. intros Hle.
    pose proof (round4_ge conf 6500) as Hr.
    assert (H65 : inject_Z 6500 / 10000 == 65 # 100) by reflexivity.
    rewrite H65 in Hr. specialize (Hr Hle). lra.
  - intros Hlt. apply Qltb_false. apply Qnot_lt_le. intros Hcl.
    pose proof (round4_le conf 6500) as Hr.
    assert (H65 : inject_Z 6500 / 10000 == 65 # 100) by reflexivity.
    rewrite H65 in Hr. unfold DISCLAIMER_THRESHOLD in Hcl.
    assert (Hle : conf <= 65 # 100) by lra.
    specialize (Hr Hle). lra.
  - intros Hlt.
    assert (Hlow : Qltb conf ESCALATE_THRESHOLD = true).
    { apply Qltb_true. apply Qnot_le_lt. intros Hle.
      pose proof (round4_ge conf 5000) as Hr.
      assert (H50 : inject_Z 5000 / 10000 == 1 # 2) by reflexivity.
      rewrite H50 in Hr. unfold ESCALATE_THRESHOLD in Hle.
      assert (Hle' : 1 # 2 <= conf).
      { apply (Qle_trans _ (50 # 100)); [discriminate | exact Hle]. }
      specialize (Hr Hle'). lra. }
    destruct hall as [h |]; [destruct (HallucinationDetector.is_hallucination h) |];
      rewrite ?Hlow; reflexivity.
Qed.


Ltac open_score hall conf :=
  unfold score; cbv zeta;
  match goal with
  | |- context [if ?avail then Some ?h else None] =>
      set (hall := if avail then Some h else None)
  end;
  cbn [fst snd confidence components add_disclaimer escalate_to_ca disclaimer_text
       escalation_reason hallucination round_components
       c_retrieval c_intent c_complexity_penalty c_answer_quality c_length_score
       c_hallucination_penalty];
  set (conf := qmax 0 (qmin 1 _)).

Lemma firstn_queue_head (limit : Z) (item : ReviewItem) (queue : list ReviewItem) :
  (0 < limit)%Z ->
  hd_error (get_ca_queue limit (firstn QUEUE_MAXLEN (item :: queue))) = Some item.
Proof.
  intros Hl. unfold get_ca_queue.
  destruct (0 <=? limit)%Z eqn:E; [| apply Z.leb_gt in E; lia].
  destruct (Z.to_nat limit) as [| n] eqn:En; [lia |]. reflexivity.
Qed.

(** X14: Whenever [score] escalates, the returned confidence is at most 0.6,
    [add_disclaimer] is set, the disclaimer is the one of flagged answers,
    and one pending item with the query, the first 500 characters of the
    answer, the escalation reason and the unrounded confidence is put at
    the front of the CA queue, which keeps at most 500 items;
    [get_ca_queue] with a positive limit returns it first. *)
Theorem escalation_flags_and_queues_answer
        (avail : bool) (clock : Clock) (queue : list ReviewItem)
        (q a cat : string) (retrieval : option RetrievalSignals) (ic : Q) :
  let out := score avail clock queue q a cat retrieval ic in
  escalate_to_ca (fst out) = true ->
  add_disclaimer (fst out) = true
  /\ disclaimer_text (fst out) = FLAGGED_DISCLAIMER
  /\ confidence (fst out) <= 6 # 10
  /\ exists why item,
       escalation_reason (fst out) = Some why
       /\ snd out = firstn QUEUE_MAXLEN (item :: queue)
       /\ item_query item = q /\ item_answer item = take 500 a
       /\ reason item = why /\ status item = "pending"
       /\ round (item_confidence item) 4 = confidence (fst out)
       /\ List.length (snd out) = Nat.min QUEUE_MAXLEN (S (List.length queue))
       /\ forall limit, (0 < limit)%Z ->
            hd_error (get_ca_queue limit (snd out)) = Some item.
Proof.
  open_score hall conf.
  pose proof (retrieval_score_le retrieval) as Hr.
  pose proof (intent_range ic) as [_ Hi].
  pose proof (complexity_penalty_range q a) as [_ Hc].
  pose proof (answer_quality_range a) as [_ Hq].
  pose proof (length_score_range a) as [_ Hl].
  assert (Hflag : flagged hall = true -> conf <= 6 # 10).
  { intros Hf. subst conf. rewrite Hf.
    generalize dependent (_retrieval_score retrieval).
    generalize dependent (qmin 1 (qmax 0 ic)).
    generalize dependent (_complexity_penalty q a).
    generalize dependent (_answer_quality_score a).
    generalize dependent (_length_score a).
    intros. split_minmax; lra. }
  clearbody conf.
  set (decision := match hall with Some _ => _ | None => _ end).
  assert (Hdec : fst decision = true ->
                 conf <= 6 # 10 /\ exists why, snd decision = Some why /\ nonempty why = true).
  { subst decision. destruct hall as [h |].
    - destruct (HallucinationDetector.is_hallucination h) eqn:Eh.
      + intros _. split; [now apply Hflag |]. eexists. split; reflexivity.
      + destruct (Qltb conf ESCALATE_THRESHOLD) eqn:El; [| discriminate].
        intros _. apply Qltb_true in El. unfold ESCALATE_THRESHOLD in El.
        split; [lra |]. eexists. split; reflexivity.
    - destruct (Qltb conf ESCALATE_THRESHOLD) eqn:El; [| discriminate].
      intros _. apply Qltb_true in El. unfold ESCALATE_THRESHOLD in El.
      split; [lra |]. eexists. split; reflexivity. }
  clearbody decision. intros Hesc. destruct (Hdec Hesc) as [Hle [why [Hwhy Hne]]].
  rewrite Hesc, Hwhy, Hne.
  split. { apply Qltb_true. unfold DISCLAIMER_THRESHOLD. lra. }
  split; [reflexivity |].
  split. { assert (H6 : inject_Z 6000 / 10000 == 6 # 10) by reflexivity.
           rewrite <- H6. apply round4_le. rewrite H6. exact Hle. }
  exists why. eexists. split; [reflexivity |]. split; [reflexivity |].
  cbn [item_query item_answer reason status item_confidence].
  repeat (split; [reflexivity |]).
  split; [apply length_firstn |].
  intros limit Hl0. now apply firstn_queue_head.
Qed.

Lemma escalation_flags_and_queues_answer_witness :
  let out := score true smoke_clock [] smoke_query smoke_answer_2 "capital_gains"
                   None (88 # 100) in
  add_disclaimer (fst out) = true
  /\ disclaimer_text (fst out) = FLAGGED_DISCLAIMER
  /\ confidence (fst out) <= 6 # 10
  /\ exists why item,
       escalation_reason (fst out) = Some why
       /\ snd out = firstn QUEUE_MAXLEN (item :: [])
       /\ item_query item = smoke_query /\ item_answer item = take 500 smoke_answer_2
       /\ reason item = why /\ status item = "pending"
       /\ round (item_confidence item) 4 = confidence (fst out)
       /\ List.length (snd out) = Nat.min QUEUE_MAXLEN (S (List.length (@nil ReviewItem)))
       /\ forall limit, (0 < limit)%Z ->
            hd_error (get_ca_queue limit (snd out)) = Some item.
Proof.
  apply (escalation_flags_and_queues_answer true smoke_clock [] smoke_query
           smoke_answer_2 "capital_gains" None (88 # 100)).
  vm_compute. reflexivity.
Defined.

(** X15: When [score] does not escalate, the CA queue is unchanged, there is
    no escalation reason, the returned confidence is at least 0.5, the
    detector did not flag the answer, and the disclaimer is the enhanced
    one when [add_disclaimer] is set and the standard one otherwise. *)
Theorem no_escalation_leaves_queue
        (avail : bool) (clock : Clock) (queue : list ReviewItem)
        (q a cat : string) (retrieval : option RetrievalSignals) (ic : Q) :
  let out := score avail clock queue q a cat retrieval ic in
  escalate_to_ca (fst out) = false ->
  snd out = queue
  /\ escalation_reason (fst out) = None
  /\ 1 # 2 <= confidence (fst out)
  /\ flagged (hallucination (fst out)) = false
  /\ disclaimer_text (fst out)
     = (if add_disclaimer (fst out) then ENHANCED_DISCLAIMER else STANDARD_DISCLAIMER).
Proof.
  open_score hall conf. clearbody conf.
  set (decision := match hall with Some _ => _ | None => _ end).
  assert (Hdec : fst decision = false ->
                 1 # 2 <= conf /\ snd decision = None /\ flagged hall = false).
  { subst decision. destruct hall as [h |]; cbn [flagged].
    - destruct (HallucinationDetector.is_hallucination h) eqn:Eh; [discriminate |].
      destruct (Qltb conf ESCALATE_THRESHOLD) eqn:El; [discriminate |].
      intros _. apply Qltb_false in El. unfold ESCALATE_THRESHOLD in El.
      split; [lra | split; reflexivity].
    - destruct (Qltb conf ESCALATE_THRESHOLD) eqn:El; [discriminate |].
      intros _. apply Qltb_false in El. unfold ESCALATE_THRESHOLD in El.
      split; [lra | split; reflexivity]. }
  clearbody decision. intros Hesc. destruct (Hdec Hesc) as [Hle [Hwhy Hfl]].
  rewrite Hesc, Hwhy. unfold _build_disclaimer. rewrite Hfl. cbn [orb].
  split; [reflexivity |]. split; [reflexivity |].
  split. { assert (H5 : inject_Z 5000 / 10000 == 1 # 2) by reflexivity.
           rewrite <- H5. apply round4_ge. rewrite H5. exact Hle. }
  split; reflexivity.
Qed.

Lemma no_escalation_leaves_queue_witness :
  let out := score true smoke_clock [] smoke_query smoke_answer_1 "capital_gains"
                   None (88 # 100) in
  snd out = []
  /\ escalation_reason (fst out) = None
  /\ 1 # 2 <= confidence (fst out)
  /\ flagged (hallucination (fst out)) = false
  /\ disclaimer_text (fst out)
     = (if add_disclaimer (fst out) then ENHANCED_DISCLAIMER else STANDARD_DISCLAIMER).
Proof.
  apply (no_escalation_leaves_queue true smoke_clock [] smoke_query
           smoke_answer_1 "capital_gains" None (88 # 100)).
  vm_compute. reflexivity.
Defined.

End ConfidenceScorer.

(* ------------------------------------------------------------------ *)
(** ** sentiment_analysis.py                                           *)
(* ------------------------------------------------------------------ *)

Module SentimentAnalysis.
Import PyStr PyNum.
Local Open Scope string_scope.
Local Open Scope Q_scope.

Definition _POSITIVE_LEXICON : list string :=
  [ "excited"; "great"; "wonderful"; "optimistic"; "confident"; "happy";
    "growth"; "profit"; "gain"; "return"; "opportunity"; "bullish";
    "ahead"; "plan"; "goal"; "achieve"; "improve"; "learn";
    "interested"; "curious"; "ready" ].

Definition _NEGATIVE_LEXICON : list string :=
  [ "worried"; "anxious"; "scared"; "afraid"; "stressed"; "confused";
    "loss"; "debt"; "broke"; "struggling"; "problem"; "help"; "panic";
    "crash"; "recession"; "inflation"; "layoff"; "fired"; "bankrupt";
    "overwhelmed"; "desperate"; "stuck" ].

Definition _ANXIETY_LEXICON : list string :=
  [ "scared"; "terrified"; "panic"; "anxious"; "anxiety"; "worried";
    "nervous"; "overwhelmed"; "hopeless"; "desperate"; "can't afford";
    "cannot afford"; "running out"; "losing money"; "in trouble";
    "bad decision"; "made a mistake"; "emergency" ].

Definition _URGENCY_LEXICON : list string :=
  [ "asap"; "immediately"; "right now"; "urgent"; "deadline"; "soon";
    "this week"; "today"; "by tomorrow"; "before april"; "before filing";
    "running out of time"; "need to know now"; "quickly"; "fast" ].

Definition _LOW_CONFIDENCE_LEXICON : list string :=
  [ "don't know"; "do not know"; "confused"; "not sure"; "unsure";
    "no idea"; "beginner"; "newbie"; "just starting"; "never invested";
    "first time"; "what is"; "can you explain"; "help me understand";
    "i don't understand"; "what does"; "what are" ].

Definition _HIGH_CONFIDENCE_LEXICON : list string :=
  [ "i know"; "i understand"; "i already"; "i have been"; "experienced";
    "advanced"; "i want to optimize"; "compare"; "which is better";
    "tax-loss harvest"; "backdoor roth"; "asset location" ].

(** [_score_lexicon]. *)
Definition _score_lexicon (text : string) (lexicon : list string) : nat :=
  let lower := lower text in
  List.length (filter (fun term => contains term lower) lexicon).

(** [SentimentResult.raw_scores]; empty for the blank-input result. *)
Record RawScores := mkRaw {
  raw_polarity_score       : Q;
  anxiety_hits             : nat;
  urgency_hits             : nat;
  low_confidence_hits      : nat;
  high_confidence_hits     : nat
}.

Record SentimentResult := mkSentiment {
  polarity         : string;
  polarity_score   : Q;
  anxiety_level    : string;
  urgency_level    : string;
  confidence_level : string;
  response_style   : string;
  method           : string;
  raw_scores       : option RawScores
}.

(** [_lexicon_polarity]. *)
Definition _lexicon_polarity (text : string) : string * Q :=
  let pos := _score_lexicon text _POSITIVE_LEXICON in
  let neg := _score_lexicon text _NEGATIVE_LEXICON in
  let total := match (pos + neg)%nat with O => 1%nat | n => n end in
  let score := (PyNum.of_nat pos - PyNum.of_nat neg) / PyNum.of_nat total in
  if Qltb (1 # 10) score then ("positive", round score 3)
  else if Qltb score (- (1 # 10)) then ("negative", round score 3)
  else ("neutral", round score 3).

(** [_map_finbert_label]. *)
Definition _map_finbert_label (label : string) (score : Q) : string * Q :=
  let label_lower := lower label in
  if contains "positive" label_lower then ("positive", score)
  else if contains "negative" label_lower then ("negative", - score)
  else ("neutral", 0).

(** [_determine_response_style]. *)
Definition _determine_response_style (polarity anxiety urgency confidence : string)
  : string :=
  if String.eqb anxiety "high" || String.eqb confidence "low"
  then "reassure_and_educate"
  else if String.eqb urgency "high" then "urgent_action"
  else if String.eqb polarity "positive" then "encouraging"
  else if String.eqb confidence "high" then "concise_expert"
  else "balanced".

Definition level (hits : nat) : string :=
  if (2 <=? hits)%nat then "high"
  else if (hits =? 1)%nat then "medium" else "low".

Section Analyzer.

(** [self._pipeline]: [None] when FinBERT could not be loaded; otherwise
    the classifier, whose call gives the first label and score or raises
    (the inner [None]). *)
Variable _pipeline : option (string -> option (string * Q)).

(** [SentimentAnalyzer.analyze]. *)
Definition analyze (text : string) : SentimentResult :=
  if negb (nonempty (strip text)) then
    mkSentiment "neutral" 0 "low" "low" "high" "balanced" "lexicon" None
  else
    let finbert :=
      match _pipeline with
      | Some classify =>
          match classify (take 512 text) with
          | Some (label, score) => Some (_map_finbert_label label score)
          | None => None
          end
      | None => None
      end in
    let method := match finbert with Some _ => "finbert" | None => "lexicon" end in
    let pol := match finbert with Some p => p | None => _lexicon_polarity text end in
    let anxiety_hits := _score_lexicon text _ANXIETY_LEXICON in
    let anxiety_level := level anxiety_hits in
    let urgency_hits := _score_lexicon text _URGENCY_LEXICON in
    let urgency_level := level urgency_hits in
    let low_conf_hits := _score_lexicon text _LOW_CONFIDENCE_LEXICON in
    let high_conf_hits := _score_lexicon text _HIGH_CONFIDENCE_LEXICON in
    let confidence_level :=
      if (high_conf_hits <? low_conf_hits)%nat then "low" else "high" in
    let response_style :=
      _determine_response_style (fst pol) anxiety_level urgency_level confidence_level in
    mkSentiment (fst pol) (snd pol) anxiety_level urgency_level confidence_level
                response_style method
                (Some (mkRaw (snd pol) anxiety_hits urgency_hits
                             low_conf_hits high_conf_hits)).

End Analyzer.

(** *** Properties of [analyze] *)

Lemma has_nonspace_lstrip (s : string) : has_nonspace (lstrip s) = has_nonspace s.
Proof.
  induction s as [| c t IH]; simpl; [reflexivity |].
  destruct (is_space c) eqn:E; simpl; [exact IH | rewrite E; reflexivity].
Qed.

Lemma has_nonspace_rev_append (s acc : string) :
  has_nonspace (rev_append s acc) = has_nonspace s || has_nonspace acc.
Proof.
  revert acc. induction s as [| c t IH]; intros acc; simpl; [reflexivity |].
  rewrite IH. simpl.
  destruct (is_space c), (has_nonspace t), (has_nonspace acc); reflexivity.
Qed.

Lemma has_nonspace_strip (s : string) : has_nonspace (strip s) = has_nonspace s.
Proof.
  unfold strip, rev.
  rewrite has_nonspace_rev_append, has_nonspace_lstrip, has_nonspace_rev_append,
    has_nonspace_lstrip.
  simpl. now rewrite !orb_false_r.
Qed.

Lemma lstrip_blank (s : string) : has_nonspace s = false -> lstrip s = EmptyString.
Proof.
  induction s as [| c t IH]; simpl; [reflexivity |].
  destruct (is_space c); simpl; [exact IH | discriminate].
Qed.

(** [text.strip()] is non-empty exactly when [text] has a character that is
    not whitespace. *)
Lemma strip_nonempty (s : string) : nonempty (strip s) = has_nonspace s.
Proof.
  destruct (has_nonspace s) eqn:E.
  - rewrite <- has_nonspace_strip in E.
    destruct (strip s); [discriminate | reflexivity].
  - unfold strip. rewrite (lstrip_blank s E). reflexivity.
Qed.

Lemma level_cases (n : nat) :
  level n = "high" \/ level n = "medium" \/ level n = "low".
Proof.
  unfold level. destruct (2 <=? n)%nat; [now left |].
  destruct (n =? 1)%nat; [right; now left | right; now right].
Qed.

(** C9: on a text with a character that is not whitespace, [analyze] never
    answers "balanced": the confidence level is "high" or "low"; a "low"
    confidence or a "high" anxiety gives "reassure_and_educate"; and a "high"
    confidence on which no earlier rule fires gives "concise_expert". *)
Theorem analyze_never_balanced
        (_pipeline : option (string -> option (string * Q))) (text : string) :
  has_nonspace text = true ->
  let r := analyze _pipeline text in
  response_style r <> "balanced"
  /\ (confidence_level r = "high" \/ confidence_level r = "low")
  /\ (confidence_level r = "low" \/ anxiety_level r = "high" ->
      response_style r = "reassure_and_educate")
  /\ (confidence_level r = "high" -> anxiety_level r <> "high" ->
      urgency_level r <> "high" -> polarity r <> "positive" ->
      response_style r = "concise_expert").
Proof.
  intros Hns. unfold analyze. rewrite strip_nonempty, Hns. cbv zeta.
  cbn [negb response_style confidence_level anxiety_level urgency_level polarity].
  set (pol := match match _pipeline with
                    | Some classify => _
                    | None => None
                    end with
              | Some p => p
              | None => _lexicon_polarity text
              end).
  set (anx := level (_score_lexicon text _ANXIETY_LEXICON)).
  set (urg := level (_score_lexicon text _URGENCY_LEXICON)).
  set (conf := if (_ <? _)%nat then "low" else "high").
  assert (Hconf : conf = "high" \/ conf = "low").
  { subst conf. destruct (_ <? _)%nat; [now right | now left]. }
  unfold _determine_response_style.
  destruct (String.eqb_spec anx "high") as [Ha | Ha];
    destruct Hconf as [Hc | Hc]; rewrite Hc; cbn [String.eqb Ascii.eqb Bool.eqb orb].
  - repeat split; try discriminate; auto. intros _ H. contradiction.
  - repeat split; try discriminate; auto.
  - destruct (String.eqb_spec urg "high") as [Hu | Hu].
    + repeat split; try discriminate; auto.
      * intros [H | H]; [discriminate | contradiction].
      * intros _ _ H. contradiction.
    + destruct (String.eqb_spec (fst pol) "positive") as [Hp | Hp].
      * repeat split; try discriminate; auto.
        -- intros [H | H]; [discriminate | contradiction].
        -- intros _ _ _ H. contradiction.
      * repeat split; try discriminate; auto.
        intros [H | H]; [discriminate | contradiction].
  - repeat split; try discriminate; auto.
Qed.

Definition sample_query : string := "Can you explain how to save tax? I am worried.".

Lemma analyze_never_balanced_witness :
  has_nonspace sample_query = true
  /\ response_style (analyze None sample_query) <> "balanced".
Proof.
  split.
  - reflexivity.
  - apply (analyze_never_balanced None sample_query). reflexivity.
Defined.

Import PyFacts.
Import Lqa.

(** [RESPONSE_STYLES]. *)
Record StyleConfig := mkStyle {
  style_description : string;
  tone_prefix       : string;
  max_bullet_points : nat;
  use_examples      : bool;
  include_next_step : bool
}.

Definition BALANCED_STYLE : StyleConfig :=
  mkStyle "Neutral baseline" "" 4 true true.

Definition RESPONSE_STYLES : list (string * StyleConfig) :=
  [ ("reassure_and_educate",
     mkStyle "High anxiety / low confidence — use empathetic, simple language"
             "I understand this can feel overwhelming. Let me break this down simply. "
             3 true true);
    ("concise_expert",
     mkStyle "Low anxiety / high confidence — data-driven, minimal preamble"
             "" 5 false false);
    ("urgent_action",
     mkStyle "High urgency — prioritize actionable steps, flag deadlines"
             "Given the time constraint, here's what matters most: "
             3 false true);
    ("encouraging",
     mkStyle "Positive sentiment — affirm progress, expand on opportunities"
             "Great question! " 5 true true);
    ("balanced", BALANCED_STYLE) ].

Fixpoint styles_get (key : string) (styles : list (string * StyleConfig))
  : option StyleConfig :=
  match styles with
  | [] => None
  | (k, v) :: rest => if String.eqb k key then Some v else styles_get key rest
  end.

(** [SentimentResult.get_style_config]. *)
Definition get_style_config (r : SentimentResult) : StyleConfig :=
  match styles_get (response_style r) RESPONSE_STYLES with
  | Some cfg => cfg
  | None => BALANCED_STYLE
  end.

(** *** Case and labels *)

Lemma score_lexicon_upper (text : string) (lexicon : list string) :
  _score_lexicon (upper text) lexicon = _score_lexicon text lexicon.
Proof. unfold _score_lexicon. cbv zeta. now rewrite lower_upper. Qed.

Lemma score_lexicon_lower (text : string) (lexicon : list string) :
  _score_lexicon (lower text) lexicon = _score_lexicon text lexicon.
Proof. unfold _score_lexicon. cbv zeta. now rewrite lower_idem. Qed.

(** X16: Without FinBERT, [analyze] gives an ASCII text, its upper-case form
    and its lower-case form the same result. *)
Theorem lexicon_analysis_ignores_case (text : string) :
  is_ascii text = true ->
  analyze None (upper text) = analyze None text
  /\ analyze None (lower text) = analyze None text.
Proof.
  intros _. unfold analyze, _lexicon_polarity. cbv zeta.
  rewrite !strip_nonempty, has_nonspace_upper, has_nonspace_lower.
  rewrite !score_lexicon_upper, !score_lexicon_lower. split; reflexivity.
Qed.

Lemma lexicon_analysis_ignores_case_witness :
  analyze None (upper sample_query) = analyze None sample_query
  /\ analyze None (lower sample_query) = analyze None sample_query.
Proof.
  apply (lexicon_analysis_ignores_case sample_query). reflexivity.
Defined.

Lemma level_in (n : nat) : In (level n) ["high"; "medium"; "low"].
Proof.
  unfold level. destruct (2 <=? n)%nat; [now left |].
  destruct (n =? 1)%nat; [right; now left | right; right; now left].
Qed.

Lemma map_finbert_label_in (label : string) (score : Q) :
  In (fst (_map_finbert_label label score)) ["positive"; "neutral"; "negative"].
Proof.
  unfold _map_finbert_label. cbv zeta.
  destruct (contains "positive" _); [now left |].
  destruct (contains "negative" _); [right; right; now left | right; now left].
Qed.

(** The raw score of [_lexicon_polarity] lies in [-1, 1]. *)
Lemma polarity_ratio_range (pos neg : nat) :
  let total := match (pos + neg)%nat with O => 1%nat | n => n end in
  -1 <= (PyNum.of_nat pos - PyNum.of_nat neg) / PyNum.of_nat total <= 1.
Proof.
  cbv zeta.
  assert (Ht : exists t, match (pos + neg)%nat with O => 1%nat | n => n end = t
                         /\ (pos + neg <= t)%nat /\ (1 <= t)%nat).
  { destruct (pos + neg)%nat eqn:E; eexists; split; try reflexivity; lia. }
  destruct Ht as [t [-> [Hsum Hpos]]].
  unfold PyNum.of_nat.
  assert (H0 : 0 < inject_Z (Z.of_nat t)).
  { change 0 with (inject_Z 0). rewrite <- Zlt_Qlt. lia. }
  assert (Hp : inject_Z (Z.of_nat pos) <= inject_Z (Z.of_nat t)).
  { rewrite <- Zle_Qle. lia. }
  assert (Hn : inject_Z (Z.of_nat neg) <= inject_Z (Z.of_nat t)).
  { rewrite <- Zle_Qle. lia. }
  assert (Hp0 : 0 <= inject_Z (Z.of_nat pos)).
  { change 0 with (inject_Z 0). rewrite <- Zle_Qle. lia. }
  assert (Hn0 : 0 <= inject_Z (Z.of_nat neg)).
  { change 0 with (inject_Z 0). rewrite <- Zle_Qle. lia. }
  generalize dependent (inject_Z (Z.of_nat t)).
  generalize dependent (inject_Z (Z.of_nat pos)).
  generalize dependent (inject_Z (Z.of_nat neg)).
  intros n Hn0 p Hp0 tq Ht Hp Hn. split.
  - apply Qle_shift_div_l; [exact Ht | lra].
  - apply Qle_shift_div_r; [exact Ht | lra].
Qed.

Lemma round3_ge (q : Q) (n : Z) : inject_Z n / 1000 <= q -> inject_Z n / 1000 <= round q 3.
Proof. exact (round_ge q 3 n). Qed.

Lemma round3_le (q : Q) (n : Z) : q <= inject_Z n / 1000 -> round q 3 <= inject_Z n / 1000.
Proof. exact (round_le q 3 n). Qed.

Lemma lexicon_polarity_spec (text : string) :
  let p := _lexicon_polarity text in
  -1 <= snd p <= 1
  /\ ((fst p = "positive" /\ 1 # 10 <= snd p)
      \/ (fst p = "negative" /\ snd p <= - (1 # 10))
      \/ (fst p = "neutral" /\ - (1 # 10) <= snd p <= 1 # 10)).
Proof.
  unfold _lexicon_polarity. cbv zeta.
  pose proof (polarity_ratio_range (_score_lexicon text _POSITIVE_LEXICON)
                (_score_lexicon text _NEGATIVE_LEXICON)) as Hr.
  cbv zeta in Hr.
  set (score := _ / _) in *. clearbody score. destruct Hr as [Hlo Hhi].
  assert (E1 : inject_Z 1000 / 1000 == 1) by reflexivity.
  assert (Em1 : inject_Z (-1000) / 1000 == -1) by reflexivity.
  assert (E01 : inject_Z 100 / 1000 == 1 # 10) by reflexivity.
  assert (Em01 : inject_Z (-100) / 1000 == - (1 # 10)) by reflexivity.
  assert (Hrange : -1 <= round score 3 <= 1).
  { split.
    - rewrite <- Em1. apply round3_ge. rewrite Em1. exact Hlo.
    - rewrite <- E1. apply round3_le. rewrite E1. exact Hhi. }
  destruct (Qltb (1 # 10) score) eqn:Ep; cbn [fst snd].
  - split; [exact Hrange |]. left. split; [reflexivity |].
    apply Qltb_true in Ep. rewrite <- E01. apply round3_ge. rewrite E01. lra.
  - apply Qltb_false in Ep. destruct (Qltb score (- (1 # 10))) eqn:En; cbn [fst snd].
    + split; [exact Hrange |]. right. left. split; [reflexivity |].
      apply Qltb_true in En. rewrite <- Em01. apply round3_le. rewrite Em01. lra.
    + apply Qltb_false in En. split; [exact Hrange |]. right. right.
      split; [reflexivity |]. split.
      * rewrite <- Em01. apply round3_ge. rewrite Em01. exact En.
      * rewrite <- E01. apply round3_le. rewrite E01. exact Ep.
Qed.

Lemma determine_response_style_in (p a u c : string) :
  In (_determine_response_style p a u c) (map fst RESPONSE_STYLES).
Proof.
  unfold _determine_response_style.
  destruct (_ || _); [now left |].
  destruct (String.eqb u "high"); [right; right; now left |].
  destruct (String.eqb p "positive"); [right; right; right; now left |].
  destruct (String.eqb c "high"); [right; now left |].
  right; right; right; right; now left.
Qed.

Lemma styles_get_in (key : string) :
  In key (map fst RESPONSE_STYLES) ->
  exists cfg, styles_get key RESPONSE_STYLES = Some cfg /\ In (key, cfg) RESPONSE_STYLES.
Proof.
  intros H. cbn [map fst RESPONSE_STYLES] in H.
  repeat (destruct H as [<- | H]; [eexists; split; [reflexivity |]; simpl; tauto |]).
  destruct H.
Qed.

(** X17: For every text and every classifier, [analyze] returns a polarity,
    anxiety, urgency and confidence level and a method among the documented
    labels, and a response style that is a key of [RESPONSE_STYLES], so
    that [get_style_config] never falls back to its default; with the
    lexicon method the polarity score lies in [-1, 1], is at least 0.1 for
    positive, at most -0.1 for negative and within 0.1 of 0 for neutral. *)
Theorem analyze_labels_and_scores_in_range
        (_pipeline : option (string -> option (string * Q))) (text : string) :
  let r := analyze _pipeline text in
  In (polarity r) ["positive"; "neutral"; "negative"]
  /\ In (anxiety_level r) ["high"; "medium"; "low"]
  /\ In (urgency_level r) ["high"; "medium"; "low"]
  /\ In (confidence_level r) ["high"; "low"]
  /\ In (method r) ["finbert"; "lexicon"]
  /\ (exists cfg, In (response_style r, cfg) RESPONSE_STYLES /\ get_style_config r = cfg)
  /\ (method r = "lexicon" ->
      -1 <= polarity_score r <= 1
      /\ (polarity r = "positive" -> 1 # 10 <= polarity_score r)
      /\ (polarity r = "negative" -> polarity_score r <= - (1 # 10))
      /\ (polarity r = "neutral" -> - (1 # 10) <= polarity_score r <= 1 # 10)).
Proof.
  assert (Hstyle : forall r, In (response_style r) (map fst RESPONSE_STYLES) ->
                   exists cfg, In (response_style r, cfg) RESPONSE_STYLES
                               /\ get_style_config r = cfg).
  { intros r Hin. destruct (styles_get_in _ Hin) as [cfg [Hget Hmem]].
    exists cfg. split; [exact Hmem |]. unfold get_style_config. now rewrite Hget. }
  unfold analyze. destruct (negb (nonempty (strip text))).
  - cbv zeta. cbn [polarity anxiety_level urgency_level confidence_level method
                   polarity_score].
    split; [right; now left |]. split; [right; right; now left |].
    split; [right; right; now left |]. split; [now left |]. split; [right; now left |].
    split. { apply Hstyle. cbn. tauto. }
    intros _. split; [split; discriminate |].
    split; [discriminate |]. split; [discriminate |]. intros _. split; discriminate.
  - cbv zeta.
    set (finbert := match _pipeline with Some _ => _ | None => None end).
    cbn [polarity anxiety_level urgency_level confidence_level method polarity_score].
    split.
    { destruct finbert as [p |] eqn:Ef.
      - subst finbert. destruct _pipeline as [classify |]; [| discriminate].
        destruct (classify _) as [[label score] |]; [| discriminate].
        injection Ef as <-. apply map_finbert_label_in.
      - pose proof (lexicon_polarity_spec text) as [_ H]. cbv zeta in H.
        destruct H as [[-> _] | [[-> _] | [-> _]]]; simpl; tauto. }
    split; [apply level_in |]. split; [apply level_in |].
    split. { destruct (_ <? _)%nat; simpl; tauto. }
    split. { destruct finbert; simpl; tauto. }
    split. { apply Hstyle. apply determine_response_style_in. }
    destruct finbert as [p |]; [discriminate |]. intros _.
    pose proof (lexicon_polarity_spec text) as [Hrange H]. cbv zeta in H.
    split; [exact Hrange |].
    destruct H as [[E Hs] | [[E Hs] | [E Hs]]]; rewrite E;
      (split; [| split]); intros Hp; try discriminate Hp; exact Hs.
Qed.

End SentimentAnalysis.

(* ------------------------------------------------------------------ *)
(** ** memory.py                                                       *)
(* ------------------------------------------------------------------ *)

Module Memory.
Local Open Scope string_scope.
Local Open Scope Z_scope.

(** A message of the chat history. *)
Inductive Message :=
| HumanMessage (content : string)
| AIMessage (content : string).

(** Modelled from the spec: the windowed buffer that [MemoryEntry] wraps
    (LangChain's [ConversationBufferWindowMemory], which is not under src/).
    It keeps the question/answer pairs in arrival order and exposes the last
    [k] pairs; older pairs are dropped from what it exposes, never
    summarised. *)
Record ConversationBufferWindowMemory := mkWindow {
  k        : Z;
  messages : list Message
}.

(** The last [n] elements of a list, in order. *)
Definition lastn {A} (n : nat) (l : list A) : list A :=
  skipn (List.length l - n) l.

(** Appending one exchange (the chain's [save_context]). *)
Definition save_context (m : ConversationBufferWindowMemory) (question answer : string)
  : ConversationBufferWindowMemory :=
  mkWindow (k m) (messages m ++ [HumanMessage question; AIMessage answer])%list.

(** The history handed to the prompt: the last [2 * k] messages. *)
Definition buffer (m : ConversationBufferWindowMemory) : list Message :=
  if 0 <? k m then lastn (Z.to_nat (k m * 2)) (messages m) else [].

(** [MemoryEntry]; the times are readings of [time.time()]. *)
Record MemoryEntry := mkEntry {
  session_id    : string;
  window_size   : Z;
  created_at    : Q;
  last_accessed : Q;
  memory        : ConversationBufferWindowMemory
}.

(** [MemoryEntry.__init__]. *)
Definition new_entry (now : Q) (sid : string) (w : Z) : MemoryEntry :=
  mkEntry sid w now now (mkWindow w []).

(** [MemoryEntry.touch]. *)
Definition touch (now : Q) (e : MemoryEntry) : MemoryEntry :=
  mkEntry (session_id e) (window_size e) (created_at e) now (memory e).

(** The module-level [_sessions] dictionary. *)
Definition Sessions := list (string * MemoryEntry).

Fixpoint lookup (sid : string) (s : Sessions) : option MemoryEntry :=
  match s with
  | [] => None
  | (key, e) :: rest => if String.eqb key sid then Some e else lookup sid rest
  end.

Fixpoint store (sid : string) (e : MemoryEntry) (s : Sessions) : Sessions :=
  match s with
  | [] => [(sid, e)]
  | (key, e') :: rest =>
      if String.eqb key sid then (key, e) :: rest else (key, e') :: store sid e rest
  end.

(** [get_memory(session_id, window_size)]: the session table after the call;
    the memory it returns is the one stored under [session_id]. *)
Definition get_memory (now : Q) (sid : string) (w : Z) (s : Sessions) : Sessions :=
  match lookup sid s with
  | Some e => store sid (touch now e) s
  | None => store sid (touch now (new_entry now sid w)) s
  end.

(** The memory object [get_memory] hands out. *)
Definition memory_of (sid : string) (s : Sessions) : option ConversationBufferWindowMemory :=
  option_map memory (lookup sid s).

(** One turn of [RAGPipeline.query]: the chain is built on
    [get_memory(session_id)] (default window) and saves the exchange into
    that shared memory object. *)
Definition record_exchange (default_window : Z) (sid : string) (s : Sessions)
           (turn : Q * string * string) : Sessions :=
  let '(now, question, answer) := turn in
  let s' := get_memory now sid default_window s in
  match lookup sid s' with
  | Some e =>
      store sid (mkEntry (session_id e) (window_size e) (created_at e)
                         (last_accessed e) (save_context (memory e) question answer)) s'
  | None => s'
  end.

Definition record_all (default_window : Z) (sid : string) (s : Sessions)
           (turns : list (Q * string * string)) : Sessions :=
  fold_left (record_exchange default_window sid) turns s.

(** The messages of a list of exchanges, oldest first. *)
Definition transcript (turns : list (Q * string * string)) : list Message :=
  flat_map (fun turn => [HumanMessage (snd (fst turn)); AIMessage (snd turn)]) turns.

(** What the session exposes to the prompt. *)
Definition exposed (sid : string) (s : Sessions) : option (list Message) :=
  option_map buffer (memory_of sid s).


(** *** Properties of the session window *)

Lemma lookup_store (sid : string) (e : MemoryEntry) (s : Sessions) :
  lookup sid (store sid e s) = Some e.
Proof.
  induction s as [| [key e'] rest IH]; simpl.
  - now rewrite String.eqb_refl.
  - destruct (String.eqb key sid) eqn:E; simpl; rewrite E; [reflexivity | exact IH].
Qed.

Lemma skipn_transcript (m : nat) (turns : list (Q * string * string)) :
  skipn (2 * m) (transcript turns) = transcript (skipn m turns).
Proof.
  revert turns. induction m as [| m IH]; intros turns; [reflexivity |].
  destruct turns as [| t rest]; [reflexivity |].
  replace (2 * S m)%nat with (S (S (2 * m))) by lia.
  simpl skipn. apply IH.
Qed.

Lemma transcript_length (turns : list (Q * string * string)) :
  List.length (transcript turns) = (2 * List.length turns)%nat.
Proof. induction turns as [| t rest IH]; simpl; [reflexivity | lia]. Qed.

Lemma lastn_transcript (n : nat) (turns : list (Q * string * string)) :
  lastn (2 * n) (transcript turns) = transcript (lastn n turns).
Proof.
  unfold lastn. rewrite transcript_length, <- skipn_transcript.
  f_equal. lia.
Qed.

Lemma transcript_app (a b : list (Q * string * string)) :
  transcript (a ++ b) = (transcript a ++ transcript b)%list.
Proof. unfold transcript. apply flat_map_app. Qed.

Lemma record_exchange_entry (dw : Z) (sid : string) (s : Sessions) (e : MemoryEntry)
      (now : Q) (q a : string) :
  lookup sid s = Some e ->
  lookup sid (record_exchange dw sid s (now, q, a))
  = Some (mkEntry (session_id e) (window_size e) (created_at e) now
                  (save_context (memory e) q a)).
Proof.
  intros Hl. unfold record_exchange, get_memory. rewrite Hl.
  rewrite lookup_store. rewrite lookup_store. reflexivity.
Qed.

(** The entry of a session keeps its window while exchanges are recorded,
    and its memory holds every exchange in arrival order. *)
Lemma record_all_entry (dw : Z) (sid : string) (turns : list (Q * string * string)) :
  forall (s : Sessions) (e : MemoryEntry) (seen : list (Q * string * string)),
    lookup sid s = Some e ->
    messages (memory e) = transcript seen ->
    exists e', lookup sid (record_all dw sid s turns) = Some e'
               /\ k (memory e') = k (memory e)
               /\ messages (memory e') = transcript (seen ++ turns)%list.
Proof.
  induction turns as [| [[now q] a] rest IH]; intros s e seen Hl Hm.
  - exists e. rewrite app_nil_r. auto.
  - change (record_all dw sid s ((now, q, a) :: rest))
      with (record_all dw sid (record_exchange dw sid s (now, q, a)) rest).
    pose proof (record_exchange_entry dw sid s e now q a Hl) as He1.
    destruct (IH _ _ (seen ++ [(now, q, a)])%list He1) as [e' [H1 [H2 H3]]].
    + simpl. rewrite Hm, transcript_app. reflexivity.
    + exists e'. split; [exact H1 |]. split; [exact H2 |].
      rewrite H3, <- app_assoc. reflexivity.
Qed.

(** C8: a session created with window [w] that then receives N > w
    exchanges exposes exactly the messages of its last [w] exchanges, oldest
    first, and nothing else (no summary of the older ones). *)
Theorem session_window_exposes_last
        (now0 : Q) (dw w : Z) (sid : string) (s : Sessions)
        (turns : list (Q * string * string)) :
  lookup sid s = None ->
  w < Z.of_nat (List.length turns) ->
  exposed sid (record_all dw sid (get_memory now0 sid w s) turns)
  = Some (transcript (lastn (Z.to_nat w) turns))
  /\ List.length (lastn (Z.to_nat w) turns) = Z.to_nat w.
Proof.
  intros Hnew HN. split.
  - destruct (record_all_entry dw sid turns (get_memory now0 sid w s)
                (touch now0 (new_entry now0 sid w)) [])
      as [e' [H1 [H2 H3]]].
    + unfold get_memory. rewrite Hnew. apply lookup_store.
    + reflexivity.
    + unfold exposed, memory_of. rewrite H1. simpl. f_equal.
      unfold buffer. rewrite H2, H3. simpl k. simpl app.
      destruct (0 <? w) eqn:Hw.
      * apply Z.ltb_lt in Hw.
        replace (Z.to_nat (w * 2)) with (2 * Z.to_nat w)%nat by lia.
        apply lastn_transcript.
      * apply Z.ltb_ge in Hw.
        replace (Z.to_nat w) with 0%nat by lia.
        unfold lastn. rewrite Nat.sub_0_r, skipn_all. reflexivity.
  - unfold lastn. rewrite length_skipn. lia.
Qed.

Definition six_turns : list (Q * string * string) :=
  [ (1%Q, "q1", "a1"); (2%Q, "q2", "a2"); (3%Q, "q3", "a3");
    (4%Q, "q4", "a4"); (5%Q, "q5", "a5"); (6%Q, "q6", "a6") ].

Lemma session_window_exposes_last_witness :
  exposed "fresh" (record_all 5 "fresh" (get_memory 0%Q "fresh" 5 []) six_turns)
  = Some [ HumanMessage "q2"; AIMessage "a2"; HumanMessage "q3"; AIMessage "a3";
           HumanMessage "q4"; AIMessage "a4"; HumanMessage "q5"; AIMessage "a5";
           HumanMessage "q6"; AIMessage "a6" ].
Proof.
  apply (session_window_exposes_last 0%Q 5 5 "fresh" [] six_turns).
  - reflexivity.
  - simpl. lia.
Defined.

Import PyNum PyFacts.

Definition has_key (sid : string) (s : Sessions) : bool :=
  match lookup sid s with Some _ => true | None => false end.

(** [del _sessions[session_id]]. *)
Fixpoint remove (sid : string) (s : Sessions) : Sessions :=
  match s with
  | [] => []
  | (key, e) :: rest =>
      if String.eqb key sid then remove sid rest else (key, e) :: remove sid rest
  end.

(** [clear_session]: the returned flag and the session table after the call. *)
Definition clear_session (sid : string) (s : Sessions) : bool * Sessions :=
  if has_key sid s then (true, remove sid s) else (false, s).

(** [MemoryEntry.age_seconds] at a reading [now] of the clock. *)
Definition age_seconds (now : Q) (e : MemoryEntry) : Q := (now - last_accessed e)%Q.

(** [active_session_count]. *)
Definition active_session_count (s : Sessions) : nat := List.length s.

(** The list [stale] of [evict_stale_sessions]; [clock i] is the reading of
    [time.time()] taken for the entry at position [i]. *)
Fixpoint stale_from (clock : nat -> Q) (max_age_seconds : Q) (i : nat) (s : Sessions)
  : list string :=
  match s with
  | [] => []
  | (sid, e) :: rest =>
      if Qltb max_age_seconds (age_seconds (clock i) e)
      then sid :: stale_from clock max_age_seconds (S i) rest
      else stale_from clock max_age_seconds (S i) rest
  end.

(** [evict_stale_sessions]: the number evicted and the table after the call. *)
Definition evict_stale_sessions (clock : nat -> Q) (max_age_seconds : Q) (s : Sessions)
  : nat * Sessions :=
  let stale := stale_from clock max_age_seconds 0 s in
  (List.length stale, fold_left (fun s sid => remove sid s) stale s).

(** The keys of a dictionary are distinct. *)
Definition distinct_keys (s : Sessions) : Prop := NoDup (map fst s).

Lemma lookup_store_else (sid other : string) (e : MemoryEntry) (s : Sessions) :
  String.eqb other sid = false -> lookup other (store sid e s) = lookup other s.
Proof.
  intros Hne. induction s as [| [key e'] rest IH]; simpl.
  - rewrite String.eqb_sym. now rewrite Hne.
  - destruct (String.eqb key sid) eqn:E; simpl; [| now rewrite IH].
    apply String.eqb_eq in E. subst key. rewrite String.eqb_sym. now rewrite Hne.
Qed.

Lemma lookup_none_keys (sid : string) (s : Sessions) :
  lookup sid s = None <-> ~ In sid (map fst s).
Proof.
  induction s as [| [key e] rest IH]; simpl; [tauto |].
  destruct (String.eqb_spec key sid) as [-> | Hne].
  - split; [discriminate | intros H; exfalso; apply H; now left].
  - rewrite IH. split; [intros H [E | Hin]; [contradiction | auto] | tauto].
Qed.

Lemma store_keys_existing (sid : string) (e e' : MemoryEntry) (s : Sessions) :
  lookup sid s = Some e' -> map fst (store sid e s) = map fst s.
Proof.
  induction s as [| [key e0] rest IH]; simpl; [discriminate |].
  destruct (String.eqb key sid) eqn:E; simpl; [reflexivity |].
  intros H. now rewrite IH.
Qed.

Lemma store_keys_new (sid : string) (e : MemoryEntry) (s : Sessions) :
  lookup sid s = None -> map fst (store sid e s) = (map fst s ++ [sid])%list.
Proof.
  induction s as [| [key e0] rest IH]; simpl; [reflexivity |].
  destruct (String.eqb key sid) eqn:E; simpl; [discriminate |].
  intros H. now rewrite IH.
Qed.

Lemma lookup_remove_same (sid : string) (s : Sessions) : lookup sid (remove sid s) = None.
Proof.
  induction s as [| [key e] rest IH]; simpl; [reflexivity |].
  destruct (String.eqb key sid) eqn:E; simpl; [exact IH | now rewrite E].
Qed.

Lemma lookup_remove_other (sid other : string) (s : Sessions) :
  String.eqb other sid = false -> lookup other (remove sid s) = lookup other s.
Proof.
  intros Hne. induction s as [| [key e] rest IH]; simpl; [reflexivity |].
  destruct (String.eqb key sid) eqn:E; simpl.
  - apply String.eqb_eq in E. subst key. rewrite String.eqb_sym. now rewrite Hne.
  - now rewrite IH.
Qed.

Lemma remove_absent (sid : string) (s : Sessions) :
  ~ In sid (map fst s) -> remove sid s = s.
Proof.
  induction s as [| [key e] rest IH]; simpl; [reflexivity |].
  intros H. destruct (String.eqb_spec key sid) as [-> | Hne]; [exfalso; auto |].
  f_equal. apply IH. tauto.
Qed.

Lemma remove_length (sid : string) (s : Sessions) :
  distinct_keys s -> In sid (map fst s) ->
  S (List.length (remove sid s)) = List.length s.
Proof.
  unfold distinct_keys. induction s as [| [key e] rest IH]; simpl; [tauto |].
  intros Hnd Hin. inversion Hnd as [| ? ? Hnot Hrest]; subst.
  destruct (String.eqb_spec key sid) as [-> | Hne].
  - now rewrite (remove_absent sid rest Hnot).
  - simpl. f_equal. apply IH; [exact Hrest |]. destruct Hin; [contradiction | assumption].
Qed.


(** X18: [get_memory] on a session that exists only refreshes [last_accessed]:
    the [window_size] argument is ignored. *)
Theorem get_memory_keeps_existing_window
        (now : Q) (sid : string) (w : Z) (s : Sessions) (e : MemoryEntry) :
  lookup sid s = Some e ->
  let s' := get_memory now sid w s in
  lookup sid s' = Some (mkEntry (session_id e) (window_size e) (created_at e) now (memory e))
  /\ memory_of sid s' = Some (memory e)
  /\ (forall other, String.eqb other sid = false -> lookup other s' = lookup other s)
  /\ active_session_count s' = active_session_count s.
Proof.
  intros Hl. cbv zeta. unfold get_memory. rewrite Hl.
  split; [apply lookup_store |].
  split; [unfold memory_of; now rewrite lookup_store |].
  split; [intros other Hne; now apply lookup_store_else |].
  unfold active_session_count.
  rewrite <- (length_map fst (store _ _ _)), <- (length_map fst s).
  now rewrite (store_keys_existing sid _ e s Hl).
Qed.

Lemma get_memory_keeps_existing_window_witness :
  let s := get_memory 10 "a" 3 [] in
  let s' := get_memory 20 "a" 7 s in
  lookup "a" s' = Some (mkEntry "a" 3 10 20 (mkWindow 3 []))
  /\ memory_of "a" s' = Some (mkWindow 3 [])
  /\ (forall other, String.eqb other "a" = false -> lookup other s' = lookup other s)
  /\ active_session_count s' = active_session_count s.
Proof.
  apply (get_memory_keeps_existing_window 20 "a" 7 (get_memory 10 "a" 3 [])
           (mkEntry "a" 3 10 10 (mkWindow 3 []))).
  reflexivity.
Defined.

(** X19: [clear_session] reports whether the session existed and forgets it:
    the next [get_memory] starts from an empty memory with the window it is
    given; the other sessions are untouched. *)
Theorem clear_session_forgets
        (now : Q) (sid : string) (w : Z) (s : Sessions) :
  let out := clear_session sid s in
  fst out = has_key sid s
  /\ lookup sid (snd out) = None
  /\ (forall other, String.eqb other sid = false ->
        lookup other (snd out) = lookup other s)
  /\ memory_of sid (get_memory now sid w (snd out)) = Some (mkWindow w [])
  /\ (distinct_keys s ->
      (active_session_count (snd out) + (if fst out then 1 else 0))%nat
      = active_session_count s).
Proof.
  cbv zeta. unfold clear_session.
  assert (Hfresh : forall s0, lookup sid s0 = None ->
                   memory_of sid (get_memory now sid w s0) = Some (mkWindow w [])).
  { intros s0 H0. unfold memory_of, get_memory. rewrite H0. now rewrite lookup_store. }
  destruct (has_key sid s) eqn:Hk; cbn [fst snd].
  - split; [reflexivity |]. split; [apply lookup_remove_same |].
    split; [intros other Hne; now apply lookup_remove_other |].
    split; [apply Hfresh, lookup_remove_same |].
    intros Hnd. unfold active_session_count. rewrite Nat.add_1_r.
    apply remove_length; [exact Hnd |].
    destruct (in_dec string_dec sid (map fst s)) as [Hin | Hnot]; [exact Hin |].
    apply lookup_none_keys in Hnot. unfold has_key in Hk. rewrite Hnot in Hk.
    discriminate.
  - assert (El : lookup sid s = None).
    { unfold has_key in Hk. destruct (lookup sid s); [discriminate | reflexivity]. }
    split; [reflexivity |]. split; [exact El |]. split; [reflexivity |].
    split; [now apply Hfresh |]. intros _. apply Nat.add_0_r.
Qed.

(** The sessions [evict_stale_sessions] keeps, by position. *)
Fixpoint keep_from (clock : nat -> Q) (max_age_seconds : Q) (i : nat) (s : Sessions)
  : Sessions :=
  match s with
  | [] => []
  | (sid, e) :: rest =>
      if Qltb max_age_seconds (age_seconds (clock i) e)
      then keep_from clock max_age_seconds (S i) rest
      else (sid, e) :: keep_from clock max_age_seconds (S i) rest
  end.

Lemma stale_from_keys (clock : nat -> Q) (m : Q) (i : nat) (s : Sessions) (sid : string) :
  In sid (stale_from clock m i s) -> In sid (map fst s).
Proof.
  revert i. induction s as [| [key e] rest IH]; intros i; simpl; [tauto |].
  destruct (Qltb _ _); simpl; intros H.
  - destruct H as [-> | H]; [now left | right; eauto].
  - right; eauto.
Qed.

Lemma fold_remove_cons (stale : list string) (key : string) (e : MemoryEntry)
      (rest : Sessions) :
  ~ In key stale ->
  fold_left (fun s sid => remove sid s) stale ((key, e) :: rest)
  = (key, e) :: fold_left (fun s sid => remove sid s) stale rest.
Proof.
  revert rest. induction stale as [| sid stale IH]; intros rest Hnot; [reflexivity |].
  simpl in *. destruct (String.eqb_spec key sid) as [-> | Hne]; [exfalso; auto |].
  apply IH. tauto.
Qed.

Lemma evict_keeps (clock : nat -> Q) (m : Q) (i : nat) (s : Sessions) :
  distinct_keys s ->
  fold_left (fun s sid => remove sid s) (stale_from clock m i s) s = keep_from clock m i s.
Proof.
  unfold distinct_keys. revert i. induction s as [| [key e] rest IH]; intros i Hnd;
    [reflexivity |].
  simpl in Hnd. inversion Hnd as [| ? ? Hnot Hrest]; subst. simpl.
  destruct (Qltb _ _).
  - simpl. rewrite String.eqb_refl. rewrite (remove_absent key rest Hnot).
    now apply IH.
  - rewrite fold_remove_cons; [now rewrite IH |].
    intros Hin. apply Hnot. eapply stale_from_keys. exact Hin.
Qed.

Lemma stale_keep_length (clock : nat -> Q) (m : Q) (i : nat) (s : Sessions) :
  (List.length (stale_from clock m i s) + List.length (keep_from clock m i s))%nat
  = List.length s.
Proof.
  revert i. induction s as [| [key e] rest IH]; intros i; [reflexivity |].
  simpl. destruct (Qltb _ _); simpl; rewrite <- (IH (S i)); lia.
Qed.

Lemma keep_from_lookup (clock : nat -> Q) (m : Q) (i : nat) (s : Sessions)
      (sid : string) :
  (lookup sid s = None -> lookup sid (keep_from clock m i s) = None)
  /\ (forall e, lookup sid s = Some e ->
        ((forall j, age_seconds (clock j) e <= m)%Q ->
         lookup sid (keep_from clock m i s) = Some e)
        /\ (distinct_keys s -> (forall j, m < age_seconds (clock j) e)%Q ->
            lookup sid (keep_from clock m i s) = None)).
Proof.
  revert i. induction s as [| [key e0] rest IH]; intros i; simpl.
  - split; [reflexivity | discriminate].
  - destruct (IH (S i)) as [IHn IHs].
    destruct (String.eqb key sid) eqn:E.
    + split; [discriminate |]. intros e He. injection He as <-. split.
      * intros Hfresh. specialize (Hfresh i). apply Qltb_false in Hfresh.
        rewrite Hfresh. simpl. now rewrite E.
      * intros Hnd Hstale. specialize (Hstale i). apply Qltb_true in Hstale.
        rewrite Hstale. apply IHn. apply String.eqb_eq in E. subst key.
        unfold distinct_keys in Hnd. simpl in Hnd.
        inversion Hnd as [| ? ? Hnot _]; subst. now apply lookup_none_keys.
    + split.
      * intros Hn. destruct (Qltb _ _); simpl; rewrite ?E; now apply IHn.
      * intros e He. destruct (IHs e He) as [H1 H2]. split.
        -- intros Hfresh. destruct (Qltb _ _); simpl; rewrite ?E; now apply H1.
        -- intros Hnd Hstale. unfold distinct_keys in Hnd. simpl in Hnd.
           inversion Hnd as [| ? ? _ Hrest]; subst.
           destruct (Qltb _ _); simpl; rewrite ?E; now apply H2.
Qed.

(** X20: [evict_stale_sessions] returns how many sessions it removed; a session
    whose age is within the limit at every reading of the clock keeps its
    entry, one whose age exceeds it at every reading is removed, and no
    session appears. *)
Theorem evict_removes_only_stale_sessions
        (clock : nat -> Q) (max_age_seconds : Q) (s : Sessions) :
  distinct_keys s ->
  let out := evict_stale_sessions clock max_age_seconds s in
  (fst out + active_session_count (snd out))%nat = active_session_count s
  /\ forall sid,
       (lookup sid s = None -> lookup sid (snd out) = None)
       /\ forall e, lookup sid s = Some e ->
            ((forall j, age_seconds (clock j) e <= max_age_seconds)%Q ->
             lookup sid (snd out) = Some e)
            /\ ((forall j, max_age_seconds < age_seconds (clock j) e)%Q ->
                lookup sid (snd out) = None).
Proof.
  intros Hnd. cbv zeta. unfold evict_stale_sessions. cbv zeta. cbn [fst snd].
  rewrite (evict_keeps clock max_age_seconds 0 s Hnd).
  split; [apply stale_keep_length |].
  intros sid. destruct (keep_from_lookup clock max_age_seconds 0 s sid) as [Hn Hs].
  split; [exact Hn |]. intros e He. destruct (Hs e He) as [H1 H2].
  split; [exact H1 | now apply H2].
Qed.

Definition two_sessions : Sessions :=
  get_memory 4000 "new" 5 (get_memory 100 "old" 5 []).

Lemma evict_removes_only_stale_sessions_witness :
  let out := evict_stale_sessions (fun _ => 4001%Q) 3600 two_sessions in
  (fst out + active_session_count (snd out))%nat = active_session_count two_sessions
  /\ forall sid,
       (lookup sid two_sessions = None -> lookup sid (snd out) = None)
       /\ forall e, lookup sid two_sessions = Some e ->
            ((forall j : nat, age_seconds 4001 e <= 3600)%Q -> lookup sid (snd out) = Some e)
            /\ ((forall j : nat, 3600 < age_seconds 4001 e)%Q -> lookup sid (snd out) = None).
Proof.
  apply (evict_removes_only_stale_sessions (fun _ => 4001%Q) 3600 two_sessions).
  unfold distinct_keys. simpl. repeat constructor; simpl; intuition discriminate.
Defined.

End Memory.

(* ------------------------------------------------------------------ *)
(** ** rlhf_pipeline.py                                                *)
(* ------------------------------------------------------------------ *)

Module RLHFPipeline.
Import PyStr PyNum.
Local Open Scope string_scope.
Local Open Scope Q_scope.

Definition GAMMA : Q := 9 # 10.
Definition WEEK_SECONDS : Q := 7 * 24 * 3600.

Inductive SignalType :=
  THUMBS_UP | THUMBS_DOWN | CA_APPROVED | CA_REJECTED | CA_CORRECTED.

Definition signal_value (s : SignalType) : string :=
  match s with
  | THUMBS_UP => "thumbs_up"
  | THUMBS_DOWN => "thumbs_down"
  | CA_APPROVED => "ca_approved"
  | CA_REJECTED => "ca_rejected"
  | CA_CORRECTED => "ca_corrected"
  end.

(** [SignalType(value)]; [None] is the [ValueError]. *)
Definition signal_of (v : string) : option SignalType :=
  if String.eqb v "thumbs_up" then Some THUMBS_UP
  else if String.eqb v "thumbs_down" then Some THUMBS_DOWN
  else if String.eqb v "ca_approved" then Some CA_APPROVED
  else if String.eqb v "ca_rejected" then Some CA_REJECTED
  else if String.eqb v "ca_corrected" then Some CA_CORRECTED
  else None.

Definition REWARD_MAP (s : SignalType) : Q :=
  match s with
  | THUMBS_UP => 1
  | THUMBS_DOWN => - (1 # 2)
  | CA_APPROVED => 3 # 2
  | CA_REJECTED => - 1
  | CA_CORRECTED => 3 # 2
  end.

Record FeedbackRecord := mkRecord {
  id          : string;
  ts          : Q;
  session_id  : string;
  query       : string;
  answer      : string;
  action      : string;
  intent      : string;
  signal      : SignalType;
  reward      : Q;
  user_id     : option string;
  reviewer_id : option string;
  correction  : option string
}.

(** A line of the feedback file as [load_since] reads it: one that does not
    parse into the fields of a record, or the fields with the signal still a
    string. *)
Record RawRow := mkRow {
  raw_id          : string;
  raw_ts          : Q;
  raw_session_id  : string;
  raw_query       : string;
  raw_answer      : string;
  raw_action      : string;
  raw_intent      : string;
  raw_signal      : string;
  raw_reward      : Q;
  raw_user_id     : option string;
  raw_reviewer_id : option string;
  raw_correction  : option string
}.

Inductive Line :=
| Malformed
| Row (r : RawRow).

(** [ArmStats]; its [A] and [b] defaults, which the batch never reads or
    writes, are left out. *)
Record ArmStats := mkArm {
  arm          : string;
  n_samples    : Z;
  total_reward : Q;
  avg_reward   : Q
}.

Definition ARMS : list string :=
  [ "retrieval_only"; "intent_boosted"; "sentiment_adapted"; "entity_focused";
    "full_pipeline" ].

Record PrefEntry := mkPref {
  query_hash   : string;
  positive     : Z;
  negative     : Z;
  last_updated : string
}.

(** JSON values of the run report. *)
Inductive JValue :=
| JStr (s : string)
| JInt (z : Z)
| JNum (q : Q)
| JList (l : list JValue)
| JObj (fields : list (string * JValue)).

Definition Report := list (string * JValue).

Fixpoint get {V} (key : string) (d : list (string * V)) : option V :=
  match d with
  | [] => None
  | (k, v) :: rest => if String.eqb k key then Some v else get key rest
  end.

(** [d[key] = v]: in place for a key of [d], at the end otherwise. *)
Fixpoint set {V} (key : string) (v : V) (d : list (string * V)) : list (string * V) :=
  match d with
  | [] => [(key, v)]
  | (k, v') :: rest =>
      if String.eqb k key then (k, v) :: rest else (k, v') :: set key v rest
  end.

(** The pipeline object with the files it reads and writes. *)
Record Pipeline := mkPipeline {
  feedback_file : list Line;
  _arms         : list (string * ArmStats);
  weights_file  : option (list (string * ArmStats));
  _prefs        : list (string * PrefEntry);
  prefs_file    : option (list (string * PrefEntry));
  _last_run     : Q;
  reports_dir   : list (string * Report)
}.

(** [LinUCBUpdater._load] with no weights file. *)
Definition fresh_arms : list (string * ArmStats) :=
  map (fun a => (a, mkArm a 0 0 0)) ARMS.

(** [FeedbackCollector.load_since]: a line that raises is skipped. *)
Definition load_line (since_ts : Q) (l : Line) : option FeedbackRecord :=
  match l with
  | Malformed => None
  | Row r =>
      if Qle_bool since_ts (raw_ts r) then
        match signal_of (raw_signal r) with
        | Some s => Some (mkRecord (raw_id r) (raw_ts r) (raw_session_id r)
                                   (raw_query r) (raw_answer r) (raw_action r)
                                   (raw_intent r) s (raw_reward r) (raw_user_id r)
                                   (raw_reviewer_id r) (raw_correction r))
        | None => None
        end
      else None
  end.

Fixpoint load_since (file : list Line) (since_ts : Q) : list FeedbackRecord :=
  match file with
  | [] => []
  | l :: rest =>
      match load_line since_ts l with
      | Some r => r :: load_since rest since_ts
      | None => load_since rest since_ts
      end
  end.

(** A Python [float] passed as [since_ts]: a number, an infinity or a NaN. *)
Inductive PyFloat :=
| Finite (q : Q)
| Infinite
| NotANumber.

(** The cutoff of a run: [since_ts], by default seven days before the
    reading [now] of the clock. *)
Definition cutoff (now : Q) (since_ts : option PyFloat) : PyFloat :=
  match since_ts with
  | Some t => t
  | None => Finite (now - WEEK_SECONDS)
  end.

(** The report of a run that found nothing. *)
Definition NO_NEW_FEEDBACK : Report :=
  [ ("status", JStr "no_new_feedback"); ("records", JInt 0) ].

(** Stable sort by decreasing key ([sorted(..., reverse=True)]): an element
    goes before the later elements whose key is not greater than its own. *)
Fixpoint insert_desc {A} (key : A -> Q) (x : A) (l : list A) : list A :=
  match l with
  | [] => [x]
  | y :: rest =>
      if Qle_bool (key y) (key x) then x :: l else y :: insert_desc key x rest
  end.

Definition sorted_desc {A} (key : A -> Q) (l : list A) : list A :=
  fold_right (insert_desc key) [] l.

Section Run.

(** Library functions the run calls: the float power [x ** y], the hex
    MD5 digest of a string and [time.strftime] of a time stamp. *)
Variable float_pow : Q -> Q -> Q.
Variable md5_hex : string -> string.
Variable strftime : Q -> string.

(** Whether [time.gmtime] accepts a time stamp, so that [time.strftime] can
    format it; outside the range of the platform it raises. *)
Variable gmtime_ok : Q -> bool.

(** [RewardModel.compute]. *)
Definition compute (r : FeedbackRecord) (now : Q) : Q :=
  let base := reward r in
  let age_s := qmax 0 (now - ts r) in
  let age_w := qmax 1 (age_s / WEEK_SECONDS) in
  let discount := float_pow GAMMA (age_w - 1) in
  base * discount.

(** The first loop of [LinUCBUpdater.update]: count and reward sum per arm. *)
Definition tally (arms : list (string * ArmStats)) (now : Q)
           (updates : list (string * (Z * Q))) (r : FeedbackRecord)
  : list (string * (Z * Q)) :=
  match get (action r) arms with
  | None => updates
  | Some _ =>
      let '(n, total) := match get (action r) updates with
                         | Some u => u
                         | None => (0%Z, 0)
                         end in
      set (action r) ((n + 1)%Z, total + compute r now) updates
  end.

(** The second loop: the arm after its batch, and its line of [changes]. *)
Definition apply_update (st : list (string * ArmStats) * list (string * JValue))
           (u : string * (Z * Q)) : list (string * ArmStats) * list (string * JValue) :=
  let '(arms, changes) := st in
  let '(arm_name, (n, reward_sum)) := u in
  match get arm_name arms with
  | None => st
  | Some a =>
      let old_avg := avg_reward a in
      let n' := (n_samples a + n)%Z in
      let total' := total_reward a + reward_sum in
      let avg' := total' / inject_Z (Z.max 1 n') in
      (set arm_name (mkArm (arm a) n' total' avg') arms,
       set arm_name
           (JObj [ ("n_new", JInt n);
                   ("avg_before", JNum (round old_avg 4));
                   ("avg_after", JNum (round avg' 4));
                   ("delta", JNum (round (avg' - old_avg) 4)) ])
           changes)
  end.

(** [LinUCBUpdater.update]: the arms after the batch and the changes. *)
Definition linucb_update (arms : list (string * ArmStats)) (now : Q)
           (records : list FeedbackRecord)
  : list (string * ArmStats) * list (string * JValue) :=
  fold_left apply_update (fold_left (tally arms now) records []) (arms, []).

(** [LinUCBUpdater.get_rankings]. *)
Definition get_rankings (arms : list (string * ArmStats)) : list JValue :=
  map (fun a => JObj [ ("arm", JStr (fst a));
                       ("avg_reward", JNum (round (avg_reward (snd a)) 4));
                       ("n_samples", JInt (n_samples (snd a))) ])
      (sorted_desc (fun a => round (avg_reward (snd a)) 4) arms).

(** [RetrievalFeedback.update]. *)
Definition prefs_update (now : Q) (prefs : list (string * PrefEntry))
           (records : list FeedbackRecord) : list (string * PrefEntry) :=
  fold_left
    (fun prefs r =>
       let key := md5_hex (lower (query r)) in
       let entry := match get key prefs with
                    | Some e => e
                    | None => mkPref key 0 0 (strftime now)
                    end in
       set key
           (if Qltb 0 (reward r)
            then mkPref (query_hash entry) (positive entry + 1) (negative entry)
                        (strftime now)
            else mkPref (query_hash entry) (positive entry) (negative entry + 1)
                        (strftime now))
           prefs)
    records prefs.

Definition count_signals (records : list FeedbackRecord) : list (string * JValue) :=
  fold_left
    (fun d r =>
       let n := match get (signal_value (signal r)) d with
                | Some (JInt n) => n
                | _ => 0%Z
                end in
       set (signal_value (signal r)) (JInt (n + 1)) d)
    records [].

(** The loop of [run] that fills [intent_rewards]: record [j] is discounted
    at its own reading [stamp j] of the clock. *)
Fixpoint rewards_by_intent (stamp : nat -> Q) (j : nat) (d : list (string * list Q))
         (records : list FeedbackRecord) : list (string * list Q) :=
  match records with
  | [] => d
  | r :: rest =>
      let l := match get (intent r) d with Some l => l | None => [] end in
      rewards_by_intent stamp (S j)
        (set (intent r) (l ++ [compute r (stamp j)])%list d) rest
  end.

(** [RetrievalFeedback.update] as a run calls it, where the clock is read
    for every record: [stamp j] is the reading that dates the entry of
    record [j] (the reading taken just before it, for the default entry, is
    overwritten at once). *)
Fixpoint prefs_update_from (stamp : nat -> Q) (j : nat)
         (prefs : list (string * PrefEntry)) (records : list FeedbackRecord)
  : list (string * PrefEntry) :=
  match records with
  | [] => prefs
  | r :: rest =>
      prefs_update_from stamp (S j) (prefs_update (stamp j) prefs [r]) rest
  end.

(** [statistics.mean]. *)
Definition mean (l : list Q) : Q :=
  fold_left Qplus l 0 / PyNum.of_nat (List.length l).

(** [int(x)] for a time stamp, as text. *)
Definition int_text (x : Q) : string :=
  let z := Z.quot (Qnum x) (Zpos (Qden x)) in
  (if (z <? 0)%Z then "-" else "") ++ NilZero.string_of_uint (N.to_uint (Z.abs_N z)).

(** [RLHFPipeline.run]: the report and the pipeline after the run, or
    [None] when the call raises.  [clock i] is the reading number [i] of the
    clock during the call ([time.time()] or [time.gmtime()], in the order
    the code takes them); [since_ts = None] is the default of the last seven
    days, which takes reading 0.  The call raises where it formats the
    cutoff with [time.gmtime(since_ts)], before it reads the feedback file
    or changes anything, when the cutoff is not a number or is out of range.
    After that, with [n] records found, the readings are: one for
    [LinUCBUpdater.update], two for each record in
    [RetrievalFeedback.update], one for [_last_run], one for each record in
    the report loop and one for [run_at]. *)
Definition run (clock : nat -> Q) (since_ts : option PyFloat) (p : Pipeline)
  : option (Report * Pipeline) :=
  let first := match since_ts with None => 1%nat | Some _ => 0%nat end in
  match cutoff (clock 0%nat) since_ts with
  | Finite since =>
      if gmtime_ok since then
        let records := load_since (feedback_file p) since in
        match records with
        | [] => Some (NO_NEW_FEEDBACK, p)
        | _ =>
            let n := List.length records in
            let '(arms', arm_changes) :=
              linucb_update (_arms p) (clock first) records in
            let prefs' :=
              prefs_update_from (fun j => clock (first + 2 + 2 * j)%nat) 0
                                (_prefs p) records in
            let last_run := clock (first + 1 + 2 * n)%nat in
            let report : Report :=
              [ ("run_at", JStr (strftime (clock (first + 2 + 3 * n)%nat)));
                ("period_start", JStr (strftime since));
                ("records_processed", JInt (Z.of_nat n));
                ("signal_breakdown", JObj (count_signals records));
                ("avg_reward_by_intent",
                 JObj (map (fun e => (fst e, JNum (round (mean (snd e)) 4)))
                           (rewards_by_intent
                              (fun j => clock (first + 2 + 2 * n + j)%nat) 0 []
                              records)));
                ("arm_updates", JObj arm_changes);
                ("top_arm_ranking", JList (get_rankings arms'));
                ("status", JStr "success") ] in
            Some (report,
                  mkPipeline (feedback_file p) arms' (Some arms') prefs' (Some prefs')
                             last_run
                             (set ("rlhf_" ++ int_text last_run ++ ".json") report
                                  (reports_dir p)))
        end
      else None
  | Infinite | NotANumber => None
  end.

End Run.


(** *** Properties of [run] *)

Definition old_row : RawRow :=
  mkRow "a1b2c3d4e5f60718" 1000 "session_1" "What is STCG rate?" "20% u/s 111A"
        "full_pipeline" "tax" "thumbs_up" 1 None None None.

(** A pipeline whose only feedback is older than any recent cutoff. *)
Definition idle_pipeline : Pipeline :=
  mkPipeline [Row old_row; Malformed] fresh_arms None [] None 0 [].

Lemma load_line_later (t1 t2 : Q) (l : Line) :
  t1 <= t2 -> load_line t1 l = None -> load_line t2 l = None.
Proof.
  intros Hle. destruct l as [| r]; simpl; [reflexivity |].
  destruct (Qle_bool t1 (raw_ts r)) eqn:E1.
  - destruct (signal_of (raw_signal r)); [discriminate |].
    intros _. destruct (Qle_bool t2 (raw_ts r)); reflexivity.
  - intros _. destruct (Qle_bool t2 (raw_ts r)) eqn:E2; [| reflexivity].
    apply Qle_bool_iff in E2.
    assert (H : Qle_bool t1 (raw_ts r) = true)
      by (apply Qle_bool_iff; eapply Qle_trans; eassumption).
    congruence.
Qed.

(** A later cutoff finds no record where an earlier one found none. *)
Lemma load_since_later (file : list Line) (t1 t2 : Q) :
  t1 <= t2 -> load_since file t1 = [] -> load_since file t2 = [].
Proof.
  intros Hle. induction file as [| l rest IH]; simpl; [reflexivity |].
  destruct (load_line t1 l) eqn:E; [discriminate |].
  intros H. rewrite (load_line_later t1 t2 l Hle E). auto.
Qed.

(** The time stamps of the years 1 to 9999, which every platform accepts. *)
Definition gmtime_years_1_9999 (t : Q) : bool :=
  Qle_bool (- 62135596800) t && Qle_bool t 253402300799.

(** A clock that stands at 2024-11-04 08:00:00 UTC. *)
Definition clock_2024 : nat -> Q := fun _ => 1730707200.

(** X26: A run whose cutoff [time.gmtime] accepts and that finds no record at or
    after it returns the report [{status: no_new_feedback, records: 0}]
    (the count is under the key [records]; there is no [records_processed])
    and leaves the pipeline as it was: arm statistics, retrieval
    preferences, both files, the last-run time and the reports; a second
    run with the same or a later accepted cutoff does the same. *)
Theorem empty_run_is_noop
        (float_pow : Q -> Q -> Q) (md5_hex : string -> string) (strftime : Q -> string)
        (gmtime_ok : Q -> bool)
        (clock : nat -> Q) (since_ts : option PyFloat) (p : Pipeline) (since : Q) :
  cutoff (clock 0%nat) since_ts = Finite since ->
  gmtime_ok since = true ->
  load_since (feedback_file p) since = [] ->
  run float_pow md5_hex strftime gmtime_ok clock since_ts p = Some (NO_NEW_FEEDBACK, p)
  /\ get "status" NO_NEW_FEEDBACK = Some (JStr "no_new_feedback")
  /\ get "records" NO_NEW_FEEDBACK = Some (JInt 0)
  /\ get "records_processed" NO_NEW_FEEDBACK = None
  /\ (forall (clock' : nat -> Q) (since_ts' : option PyFloat) (since' : Q),
         cutoff (clock' 0%nat) since_ts' = Finite since' ->
         gmtime_ok since' = true ->
         since <= since' ->
         run float_pow md5_hex strftime gmtime_ok clock' since_ts' p
         = Some (NO_NEW_FEEDBACK, p)).
Proof.
  intros Hcut Hok Hnone.
  assert (Hrun : forall c s t, cutoff (c 0%nat) s = Finite t -> gmtime_ok t = true ->
                   load_since (feedback_file p) t = [] ->
                   run float_pow md5_hex strftime gmtime_ok c s p
                   = Some (NO_NEW_FEEDBACK, p)).
  { intros c s t Hc Ht H. unfold run. cbv zeta. rewrite Hc, Ht, H. reflexivity. }
  split; [now apply (Hrun clock since_ts since) |].
  split; [reflexivity |]. split; [reflexivity |]. split; [reflexivity |].
  intros clock' since_ts' since' Hcut' Hok' Hle.
  apply (Hrun clock' since_ts' since' Hcut' Hok').
  eapply load_since_later; eassumption.
Qed.

Lemma empty_run_is_noop_witness :
  run (fun _ _ => 1) (fun s => s) (fun _ => "2024-11-04T08:00:00Z")
      gmtime_years_1_9999 clock_2024 None idle_pipeline
  = Some (NO_NEW_FEEDBACK, idle_pipeline).
Proof.
  refine (proj1 (empty_run_is_noop (fun _ _ => 1) (fun s => s)
                   (fun _ => "2024-11-04T08:00:00Z") gmtime_years_1_9999 clock_2024
                   None idle_pipeline (1730707200 - WEEK_SECONDS) _ _ _)).
  - reflexivity.
  - vm_compute. reflexivity.
  - vm_compute. reflexivity.
Defined.


(** C7 at the weekly run of a pipeline with no recent feedback, called
    twice: each report is [{status: no_new_feedback, records: 0}] and has no
    [records_processed] entry, which is the key under which a run that
    finds records reports their number; the pipeline is left as it was. *)
Lemma empty_run_has_no_records_processed :
  let weekly := run (fun _ _ => 1) (fun s => s) (fun _ => "2024-11-04T08:00:00Z")
                    gmtime_years_1_9999 clock_2024 in
  let keys := fun out : Report * Pipeline =>
                (get "status" (fst out), get "records" (fst out),
                 get "records_processed" (fst out)) in
  option_map keys (weekly None idle_pipeline)
  = Some (Some (JStr "no_new_feedback"), Some (JInt 0), None)
  /\ option_map snd (weekly None idle_pipeline) = Some idle_pipeline
  /\ match weekly None idle_pipeline with
     | Some (_, p') =>
         option_map keys (weekly None p')
         = Some (Some (JStr "no_new_feedback"), Some (JInt 0), None)
         /\ option_map snd (weekly None p') = Some idle_pipeline
     | None => False
     end
  /\ option_map keys (weekly (Some (Finite 0)) idle_pipeline)
     = Some (Some (JStr "success"), None, Some (JInt 1)).
Proof. vm_compute. repeat split; reflexivity. Qed.

Import PyFacts.
Import Lqa.

(** *** Dictionaries *)

Lemma get_set_same {V} (key : string) (v : V) (d : list (string * V)) :
  get key (set key v d) = Some v.
Proof.
  induction d as [| [k v'] rest IH]; simpl.
  - now rewrite String.eqb_refl.
  - destruct (String.eqb k key) eqn:E; simpl; rewrite E; [reflexivity | exact IH].
Qed.

Lemma get_set_other {V} (key other : string) (v : V) (d : list (string * V)) :
  String.eqb other key = false -> get other (set key v d) = get other d.
Proof.
  intros Hne. induction d as [| [k v'] rest IH]; simpl.
  - rewrite String.eqb_sym. now rewrite Hne.
  - destruct (String.eqb k key) eqn:E; simpl; [| now rewrite IH].
    apply String.eqb_eq in E. subst k. rewrite String.eqb_sym. now rewrite Hne.
Qed.

Lemma get_none_keys {V} (key : string) (d : list (string * V)) :
  get key d = None <-> ~ In key (map fst d).
Proof.
  induction d as [| [k v] rest IH]; simpl; [tauto |].
  destruct (String.eqb_spec k key) as [-> | Hne].
  - split; [discriminate | intros H; exfalso; apply H; now left].
  - rewrite IH. split; [intros H [E | Hin]; [contradiction | auto] | tauto].
Qed.

Lemma set_keys {V} (key : string) (v : V) (d : list (string * V)) :
  map fst (set key v d)
  = match get key d with
    | Some _ => map fst d
    | None => (map fst d ++ [key])%list
    end.
Proof.
  induction d as [| [k v'] rest IH]; simpl; [reflexivity |].
  destruct (String.eqb k key) eqn:E; simpl; [reflexivity |].
  rewrite IH. now destruct (get key rest).
Qed.

Lemma set_keys_distinct {V} (key : string) (v : V) (d : list (string * V)) :
  NoDup (map fst d) -> NoDup (map fst (set key v d)).
Proof.
  intros Hnd. rewrite set_keys. destruct (get key d) eqn:E; [exact Hnd |].
  apply get_none_keys in E. apply NoDup_app; [exact Hnd | repeat constructor; auto |].
  intros x Hx [<- | []]. contradiction.
Qed.

(** *** The ranking *)

Definition desc {A} (key : A -> Q) (x y : A) : Prop := key y <= key x.

Lemma insert_desc_perm {A} (key : A -> Q) (x : A) (l : list A) :
  Permutation (x :: l) (insert_desc key x l).
Proof.
  induction l as [| y rest IH]; simpl; [reflexivity |].
  destruct (Qle_bool (key y) (key x)); [reflexivity |].
  rewrite perm_swap. now constructor.
Qed.

Lemma sorted_desc_perm {A} (key : A -> Q) (l : list A) :
  Permutation l (sorted_desc key l).
Proof.
  induction l as [| x rest IH]; simpl; [constructor |].
  rewrite <- insert_desc_perm. now constructor.
Qed.

Lemma insert_desc_sorted {A} (key : A -> Q) (x : A) (l : list A) :
  StronglySorted (desc key) l -> StronglySorted (desc key) (insert_desc key x l).
Proof.
  induction l as [| y rest IH]; intros Hs; simpl.
  - repeat constructor.
  - inversion Hs as [| ? ? Hrest Hall]; subst.
    destruct (Qle_bool (key y) (key x)) eqn:E.
    + apply Qle_bool_iff in E. constructor; [exact Hs |].
      constructor; [exact E |].
      eapply Forall_impl; [| exact Hall]. intros z Hz. unfold desc in *. lra.
    + assert (Hlt : key x < key y).
      { apply Qnot_le_lt. intros H. apply Qle_bool_iff in H. congruence. }
      constructor; [now apply IH |].
      eapply Permutation_Forall; [apply insert_desc_perm |].
      constructor; [unfold desc; lra | exact Hall].
Qed.

Lemma sorted_desc_sorted {A} (key : A -> Q) (l : list A) :
  StronglySorted (desc key) (sorted_desc key l).
Proof.
  induction l as [| x rest IH]; simpl; [constructor |].
  now apply insert_desc_sorted.
Qed.

(** Elements with the same key keep their order. *)
Lemma insert_desc_stable {A} (key : A -> Q) (c : Q) (x : A) (l : list A) :
  filter (fun a => Qeq_bool (key a) c) (insert_desc key x l)
  = filter (fun a => Qeq_bool (key a) c) (x :: l).
Proof.
  induction l as [| y rest IH]; [reflexivity |].
  simpl insert_desc. destruct (Qle_bool (key y) (key x)) eqn:E; [reflexivity |].
  assert (Hlt : key x < key y).
  { apply Qnot_le_lt. intros H. apply Qle_bool_iff in H. congruence. }
  simpl filter in *. rewrite IH.
  destruct (Qeq_bool (key x) c) eqn:Ex; [| reflexivity].
  destruct (Qeq_bool (key y) c) eqn:Ey; [| reflexivity].
  apply Qeq_bool_iff in Ex, Ey. lra.
Qed.

Lemma sorted_desc_stable {A} (key : A -> Q) (c : Q) (l : list A) :
  filter (fun a => Qeq_bool (key a) c) (sorted_desc key l)
  = filter (fun a => Qeq_bool (key a) c) l.
Proof.
  induction l as [| x rest IH]; [reflexivity |].
  simpl sorted_desc. rewrite insert_desc_stable. simpl. now rewrite IH.
Qed.

(** One row of [get_rankings]. *)
Definition ranking_row (a : string * ArmStats) : JValue :=
  JObj [ ("arm", JStr (fst a));
         ("avg_reward", JNum (round (avg_reward (snd a)) 4));
         ("n_samples", JInt (n_samples (snd a))) ].

Definition shown_avg (a : string * ArmStats) : Q := round (avg_reward (snd a)) 4.

(** X21: [get_rankings] lists every arm once, by decreasing rounded average
    reward; arms with the same rounded average keep the order of the arm
    table. *)
Theorem rankings_sorted_and_stable (arms : list (string * ArmStats)) :
  exists order,
    get_rankings arms = map ranking_row order
    /\ Permutation arms order
    /\ StronglySorted (fun x y => shown_avg y <= shown_avg x) order
    /\ forall c, filter (fun a => Qeq_bool (shown_avg a) c) order
                 = filter (fun a => Qeq_bool (shown_avg a) c) arms.
Proof.
  exists (sorted_desc shown_avg arms). split; [reflexivity |].
  split; [apply sorted_desc_perm |].
  split; [apply (sorted_desc_sorted shown_avg) |].
  intros c. apply sorted_desc_stable.
Qed.


(** *** Retrieval preferences *)

Section Preferences.

Variable md5_hex : string -> string.
Variable strftime : Q -> string.




Definition rated (key : string) (liked : bool) (r : FeedbackRecord) : bool :=
  String.eqb (md5_hex (lower (query r))) key && Bool.eqb (Qltb 0 (reward r)) liked.

Definition ratings (key : string) (liked : bool) (records : list FeedbackRecord) : Z :=
  Z.of_nat (List.length (filter (rated key liked) records)).






End Preferences.


(** *** The batch update of the arms *)

Section Batch.

Variable float_pow : Q -> Q -> Q.

Definition for_arm (a : string) (r : FeedbackRecord) : bool := String.eqb (action r) a.

(** The records of a batch that name arm [a], their number and the sum of
    their discounted rewards (added in arrival order, from 0). *)
Definition batch_count (a : string) (records : list FeedbackRecord) : Z :=
  Z.of_nat (List.length (filter (for_arm a) records)).

Definition batch_reward (now : Q) (a : string) (records : list FeedbackRecord) : Q :=
  fold_left (fun acc r => acc + compute float_pow r now) (filter (for_arm a) records) 0.

(** [arm] after a batch of [n] records with reward sum [s]. *)
Definition updated (st : ArmStats) (n : Z) (s : Q) : ArmStats :=
  mkArm (arm st) (n_samples st + n) (total_reward st + s)
        ((total_reward st + s) / inject_Z (Z.max 1 (n_samples st + n))).

Definition change_row (st : ArmStats) (n : Z) (s : Q) : JValue :=
  JObj [ ("n_new", JInt n);
         ("avg_before", JNum (round (avg_reward st) 4));
         ("avg_after", JNum (round (avg_reward (updated st n s)) 4));
         ("delta", JNum (round (avg_reward (updated st n s) - avg_reward st) 4)) ].

(** The entry of [updates] for one arm, record by record. *)
Definition bump (now : Q) (u : option (Z * Q)) (r : FeedbackRecord) : option (Z * Q) :=
  let '(n, total) := match u with Some v => v | None => (0%Z, 0) end in
  Some ((n + 1)%Z, total + compute float_pow r now).

Lemma tally_step (arms : list (string * ArmStats)) (now : Q)
      (u : list (string * (Z * Q))) (r : FeedbackRecord) (a : string) :
  get a (tally float_pow arms now u r)
  = match get a arms with
    | Some _ => if for_arm a r then bump now (get a u) r else get a u
    | None => get a u
    end.
Proof.
  unfold tally, for_arm, bump.
  destruct (String.eqb (action r) a) eqn:E.
  - apply String.eqb_eq in E. rewrite E.
    destruct (get a arms); [| reflexivity].
    destruct (match get a u with Some v => v | None => _ end) as [n total].
    now rewrite get_set_same.
  - destruct (get (action r) arms).
    + destruct (match get (action r) u with Some v => v | None => _ end) as [n total].
      rewrite get_set_other by (now rewrite String.eqb_sym).
      now destruct (get a arms).
    + now destruct (get a arms).
Qed.

Lemma tally_get (arms : list (string * ArmStats)) (now : Q)
      (records : list FeedbackRecord) (u : list (string * (Z * Q))) (a : string) :
  get a (fold_left (tally float_pow arms now) records u)
  = match get a arms with
    | Some _ => fold_left (bump now) (filter (for_arm a) records) (get a u)
    | None => get a u
    end.
Proof.
  revert u. induction records as [| r rest IH]; intros u.
  - simpl. now destruct (get a arms).
  - cbn [fold_left filter]. rewrite IH, tally_step.
    destruct (get a arms); [| reflexivity].
    now destruct (for_arm a r).
Qed.

Lemma tally_keys (arms : list (string * ArmStats)) (now : Q)
      (records : list FeedbackRecord) (u : list (string * (Z * Q))) :
  NoDup (map fst u) -> NoDup (map fst (fold_left (tally float_pow arms now) records u)).
Proof.
  revert u. induction records as [| r rest IH]; intros u Hnd; [exact Hnd |].
  cbn [fold_left]. apply IH. unfold tally.
  destruct (get (action r) arms); [| exact Hnd].
  destruct (match get (action r) u with Some v => v | None => _ end) as [n total].
  now apply set_keys_distinct.
Qed.

Lemma bump_some (now : Q) (l : list FeedbackRecord) (n : Z) (t : Q) :
  fold_left (bump now) l (Some (n, t))
  = Some ((n + Z.of_nat (List.length l))%Z,
          fold_left (fun acc r => acc + compute float_pow r now) l t).
Proof.
  revert n t. induction l as [| r rest IH]; intros n t.
  - simpl. now rewrite Z.add_0_r.
  - cbn [fold_left List.length]. unfold bump at 2. rewrite IH. f_equal. f_equal. lia.
Qed.

Lemma bump_none (now : Q) (l : list FeedbackRecord) :
  fold_left (bump now) l None
  = match l with
    | [] => None
    | _ => Some (Z.of_nat (List.length l),
                 fold_left (fun acc r => acc + compute float_pow r now) l 0)
    end.
Proof.
  destruct l as [| r rest]; [reflexivity |].
  cbn [fold_left]. unfold bump at 2. rewrite bump_some. cbn [List.length fold_left].
  f_equal. f_equal. lia.
Qed.

Lemma apply_update_step (arms : list (string * ArmStats))
      (changes : list (string * JValue)) (k : string) (n : Z) (s : Q) :
  apply_update (arms, changes) (k, (n, s))
  = match get k arms with
    | Some st => (set k (updated st n s) arms, set k (change_row st n s) changes)
    | None => (arms, changes)
    end.
Proof. unfold apply_update. now destruct (get k arms). Qed.

Lemma apply_get (u : list (string * (Z * Q))) (arms : list (string * ArmStats))
      (changes : list (string * JValue)) (a : string) :
  NoDup (map fst u) ->
  let out := fold_left apply_update u (arms, changes) in
  get a (fst out)
  = match get a u, get a arms with
    | Some (n, s), Some st => Some (updated st n s)
    | _, other => other
    end
  /\ get a (snd out)
     = match get a u, get a arms with
       | Some (n, s), Some st => Some (change_row st n s)
       | _, _ => get a changes
       end.
Proof.
  revert arms changes. induction u as [| [k [n s]] rest IH]; intros arms changes Hnd.
  - cbv zeta. simpl. split; [now destruct (get a arms) | reflexivity].
  - cbn [map fst] in Hnd. inversion Hnd as [| ? ? Hnot Hrest]; subst.
    cbv zeta. cbn [fold_left]. rewrite apply_update_step.
    assert (Hk : get k rest = None) by (now apply get_none_keys).
    cbn [get]. destruct (String.eqb k a) eqn:E.
    + apply String.eqb_eq in E. subst a.
      destruct (get k arms) as [st |] eqn:Ek.
      * destruct (IH (set k (updated st n s) arms)
                     (set k (change_row st n s) changes) Hrest) as [H1 H2].
        cbv zeta in H1, H2.
        rewrite H1, H2, Hk, !get_set_same. split; reflexivity.
      * destruct (IH arms changes Hrest) as [H1 H2]. cbv zeta in H1, H2.
        rewrite H1, H2, Hk, Ek. split; reflexivity.
    + assert (Ea : String.eqb a k = false) by (now rewrite String.eqb_sym).
      destruct (get k arms) as [st |] eqn:Ek.
      * destruct (IH (set k (updated st n s) arms)
                     (set k (change_row st n s) changes) Hrest) as [H1 H2].
        cbv zeta in H1, H2.
        rewrite H1, H2, !get_set_other by exact Ea. split; reflexivity.
      * destruct (IH arms changes Hrest) as [H1 H2]. cbv zeta in H1, H2.
        rewrite H1, H2. split; reflexivity.
Qed.

Lemma linucb_update_get (arms : list (string * ArmStats)) (now : Q)
      (records : list FeedbackRecord) (a : string) :
  let out := linucb_update float_pow arms now records in
  match get a arms with
  | None => get a (fst out) = None /\ get a (snd out) = None
  | Some st =>
      match filter (for_arm a) records with
      | [] => get a (fst out) = Some st /\ get a (snd out) = None
      | _ =>
          get a (fst out)
          = Some (updated st (batch_count a records) (batch_reward now a records))
          /\ get a (snd out)
             = Some (change_row st (batch_count a records) (batch_reward now a records))
      end
  end.
Proof.
  cbv zeta. unfold linucb_update.
  destruct (apply_get (fold_left (tally float_pow arms now) records []) arms [] a
              (tally_keys arms now records [] (NoDup_nil _))) as [H1 H2].
  cbv zeta in H1, H2. rewrite H1, H2, tally_get. clear H1 H2.
  destruct (get a arms) as [st |] eqn:Ea.
  - cbn [get]. rewrite bump_none. unfold batch_count, batch_reward.
    destruct (filter (for_arm a) records); split; reflexivity.
  - cbn [get]. split; reflexivity.
Qed.

(** X23: [LinUCBUpdater.update] adds to every arm the number of records of the
    batch that name it and the sum of their discounted rewards, recomputes
    its average, and reports the change; an arm without records keeps its
    statistics and has no line in the changes; a record that names no arm is
    ignored, and no arm appears. *)
Theorem linucb_update_accounts_batch
        (arms : list (string * ArmStats)) (now : Q) (records : list FeedbackRecord)
        (a : string) (st : ArmStats) :
  get a arms = Some st ->
  let n := batch_count a records in
  let s := batch_reward now a records in
  let out := linucb_update float_pow arms now records in
  (n = 0%Z -> get a (fst out) = Some st /\ get a (snd out) = None)
  /\ (n <> 0%Z ->
      get a (fst out)
      = Some (mkArm (arm st) (n_samples st + n) (total_reward st + s)
                    ((total_reward st + s) / inject_Z (Z.max 1 (n_samples st + n))))
      /\ get a (snd out) = Some (change_row st n s))
  /\ (forall name, get name arms = None ->
        get name (fst out) = None /\ get name (snd out) = None).
Proof.
  intros Ha. cbv zeta.
  pose proof (linucb_update_get arms now records a) as H. cbv zeta in H. rewrite Ha in H.
  split; [| split].
  - intros Hn. unfold batch_count in Hn.
    destruct (filter (for_arm a) records); [exact H | simpl in Hn; lia].
  - intros Hn. unfold batch_count in Hn.
    destruct (filter (for_arm a) records); [simpl in Hn; lia | exact H].
  - intros name Hname.
    pose proof (linucb_update_get arms now records name) as H'. cbv zeta in H'.
    now rewrite Hname in H'.
Qed.

End Batch.

Definition sample_batch : list FeedbackRecord :=
  [ mkRecord "r1" 1000 "s1" "What is STCG rate?" "20% u/s 111A" "full_pipeline" "tax"
             THUMBS_UP 1 None None None;
    mkRecord "r2" 1001 "s1" "Is HRA exempt?" "Partly" "no_such_arm" "tax"
             THUMBS_DOWN (- (1 # 2)) None None None;
    mkRecord "r3" 1002 "s2" "What is STCG rate?" "15%" "full_pipeline" "tax"
             CA_REJECTED (- 1) None None None ].

Lemma linucb_update_accounts_batch_witness :
  let a := "full_pipeline" in
  let st := mkArm "full_pipeline" 0 0 0 in
  let n := batch_count a sample_batch in
  let s := batch_reward (fun _ _ => 1) 2000 a sample_batch in
  let out := linucb_update (fun _ _ => 1) fresh_arms 2000 sample_batch in
  (n = 0%Z -> get a (fst out) = Some st /\ get a (snd out) = None)
  /\ (n <> 0%Z ->
      get a (fst out)
      = Some (mkArm (arm st) (n_samples st + n) (total_reward st + s)
                    ((total_reward st + s) / inject_Z (Z.max 1 (n_samples st + n))))
      /\ get a (snd out) = Some (change_row st n s))
  /\ (forall name, get name fresh_arms = None ->
        get name (fst out) = None /\ get name (snd out) = None).
Proof.
  apply (linucb_update_accounts_batch (fun _ _ => 1) fresh_arms 2000 sample_batch
           "full_pipeline" (mkArm "full_pipeline" 0 0 0)).
  reflexivity.
Defined.


(** *** Recording feedback *)

(** The JSON line of a record ([json.dumps(asdict(record))]), as
    [load_since] parses it back. *)
Definition to_row (r : FeedbackRecord) : RawRow :=
  mkRow (id r) (ts r) (session_id r) (query r) (answer r) (action r) (intent r)
        (signal_value (signal r)) (reward r) (user_id r) (reviewer_id r) (correction r).

(** How the feedback file ends.  [record] appends its text to whatever is
    there: after a complete last line it makes a line of its own; after
    text without a newline the two make one line.  That line reads as the
    record when the text was blank (spaces or tabs, which JSON allows before
    a value; a carriage return ends a line as a newline does), and is one
    that [load_since] skips when it was anything else. *)
Inductive FileEnd :=
| Complete
| BlankEnd
| OpenEnd (l : Line).

(** The feedback file: its complete lines and its end.  [OpenEnd l] carries
    the way [load_since] reads the unfinished last line as it stands. *)
Record FeedbackFile := mkFile {
  complete_lines : list Line;
  file_end       : FileEnd
}.

(** The lines [load_since] iterates over. *)
Definition lines_of (f : FeedbackFile) : list Line :=
  (complete_lines f
   ++ match file_end f with
      | Complete => []
      | BlankEnd => [Malformed]
      | OpenEnd l => [l]
      end)%list.

(** [f.write(text + newline)] on the file opened for appending, for a text
    that reads as [l] on a line of its own. *)
Definition append_line (f : FeedbackFile) (l : Line) : FeedbackFile :=
  mkFile (complete_lines f
          ++ [match file_end f with
              | OpenEnd _ => Malformed
              | Complete | BlankEnd => l
              end])%list
         Complete.

Section Record.

(** [hashlib.sha256(s.encode()).hexdigest()] and [str] of a float. *)
Variable sha256_hex : string -> string.
Variable float_text : Q -> string.

(** [FeedbackCollector.record]: the record and the feedback file after the
    call; [now_id] and [now_ts] are the two readings of the clock. *)
Definition record (now_id now_ts : Q) (file : FeedbackFile)
           (session query answer action intent : string) (signal : SignalType)
           (user reviewer correction : option string) : FeedbackRecord * FeedbackFile :=
  let rec :=
    mkRecord (take 16 (sha256_hex (session ++ query ++ float_text now_id)))
             now_ts session query (take 500 answer) action intent signal
             (REWARD_MAP signal) user reviewer correction in
  (rec, append_line file (Row (to_row rec))).

(** [RLHFPipeline.record_feedback]; [None] is the [ValueError] of
    [SignalType(signal_str)]. *)
Definition record_feedback (now_id now_ts : Q) (file : FeedbackFile)
           (session query answer action intent signal_str : string)
           (user reviewer correction : option string)
  : option (FeedbackRecord * FeedbackFile) :=
  match signal_of signal_str with
  | Some signal =>
      Some (record now_id now_ts file session query answer action intent signal
                   user reviewer correction)
  | None => None
  end.

Lemma signal_of_value (s : SignalType) : signal_of (signal_value s) = Some s.
Proof. destruct s; reflexivity. Qed.

Lemma signal_value_of (v : string) (s : SignalType) :
  signal_of v = Some s -> signal_value s = v.
Proof.
  unfold signal_of.
  repeat match goal with
         | |- context [String.eqb v ?c] =>
             destruct (String.eqb_spec v c) as [-> | _];
             [intros H; injection H as <-; reflexivity |]
         end.
  discriminate.
Qed.

Lemma load_since_app (a b : list Line) (since : Q) :
  load_since (a ++ b) since = (load_since a since ++ load_since b since)%list.
Proof.
  induction a as [| l rest IH]; simpl; [reflexivity |].
  destruct (load_line since l); simpl; now rewrite IH.
Qed.

Lemma load_line_to_row (since : Q) (r : FeedbackRecord) :
  load_line since (Row (to_row r)) = if Qle_bool since (ts r) then Some r else None.
Proof.
  unfold load_line, to_row. cbn [raw_ts raw_signal].
  destruct (Qle_bool since (ts r)); [| reflexivity].
  rewrite signal_of_value. now destruct r.
Qed.

(** X24: What [record_feedback] writes, [load_since] reads back, unless
    the file ended in an unfinished line.  A call with the name of a signal
    makes a record with the reward of the signal by [REWARD_MAP] and the
    answer cut to 500 characters, and appends its text and a newline.  On a
    file that ended with a complete line, or with blank text, a later load
    returns what it returned before and then, when its cutoff is not after
    the record's time, the record.  On a file that ended in other text
    without a newline the two merge into a line that is skipped: the load
    returns the records of the complete lines only.  Any other signal
    string raises and writes nothing. *)
Theorem recorded_feedback_loads_back
        (now_id now_ts since : Q) (file : FeedbackFile)
        (sid q a act topic signal_str : string)
        (user reviewer note : option string) :
  match record_feedback now_id now_ts file sid q a act topic signal_str
                        user reviewer note with
  | Some (rec, file') =>
      signal_value (signal rec) = signal_str
      /\ reward rec = REWARD_MAP (signal rec)
      /\ ts rec = now_ts /\ answer rec = take 500 a
      /\ file_end file' = Complete
      /\ match file_end file with
         | Complete | BlankEnd =>
             load_since (lines_of file') since
             = (load_since (lines_of file) since
                ++ (if Qle_bool since now_ts then [rec] else []))%list
         | OpenEnd _ =>
             load_since (lines_of file') since
             = load_since (complete_lines file) since
         end
  | None => forall s, signal_value s <> signal_str
  end.
Proof.
  unfold record_feedback. destruct (signal_of signal_str) as [s |] eqn:E.
  - unfold record, append_line, lines_of. cbv zeta.
    cbn [signal reward ts answer file_end complete_lines].
    split; [now apply signal_value_of |].
    repeat (split; [reflexivity |]).
    rewrite app_nil_r, load_since_app.
    destruct (file_end file) as [| | l].
    + rewrite app_nil_r. f_equal. cbn [load_since].
      rewrite load_line_to_row. cbn [ts]. now destruct (Qle_bool since now_ts).
    + rewrite load_since_app.
      change (load_since [Malformed] since) with (@nil FeedbackRecord).
      rewrite app_nil_r. f_equal. cbn [load_since].
      rewrite load_line_to_row. cbn [ts]. now destruct (Qle_bool since now_ts).
    + cbn [load_since load_line]. now rewrite app_nil_r.
  - intros s Hs. rewrite <- Hs, signal_of_value in E. discriminate.
Qed.

End Record.

(** *** The report of a run *)

Definition has_signal (s : SignalType) (r : FeedbackRecord) : bool :=
  String.eqb (signal_value (signal r)) (signal_value s).

Lemma has_signal_iff (s : SignalType) (r : FeedbackRecord) :
  has_signal s r = true <-> signal r = s.
Proof.
  unfold has_signal. rewrite String.eqb_eq. split; [| now intros ->].
  destruct (signal r), s; simpl; intros H; try reflexivity; discriminate.
Qed.

(** The count stored under a key of [signal_counts], record by record. *)
Definition count_up (o : option JValue) : option JValue :=
  Some (JInt (match o with Some (JInt n) => n | _ => 0%Z end + 1)).

Lemma count_signals_get (records : list FeedbackRecord) (d : list (string * JValue))
      (s : SignalType) :
  get (signal_value s)
      (fold_left
         (fun d r =>
            let n := match get (signal_value (signal r)) d with
                     | Some (JInt n) => n
                     | _ => 0%Z
                     end in
            set (signal_value (signal r)) (JInt (n + 1)) d)
         records d)
  = fold_left (fun o _ => count_up o) (filter (has_signal s) records)
              (get (signal_value s) d).
Proof.
  revert d. induction records as [| r rest IH]; intros d; [reflexivity |].
  cbn [fold_left filter]. rewrite IH. clear IH. cbv zeta. unfold has_signal at 2.
  destruct (String.eqb (signal_value (signal r)) (signal_value s)) eqn:E.
  - apply String.eqb_eq in E. rewrite E. rewrite get_set_same. reflexivity.
  - rewrite get_set_other by (now rewrite String.eqb_sym). reflexivity.
Qed.

Lemma count_up_some (l : list FeedbackRecord) (n : Z) :
  fold_left (fun o _ => count_up o) l (Some (JInt n))
  = Some (JInt (n + Z.of_nat (List.length l))).
Proof.
  revert n. induction l as [| r rest IH]; intros n.
  - simpl. now rewrite Z.add_0_r.
  - cbn [fold_left List.length]. unfold count_up at 2. rewrite IH. do 2 f_equal. lia.
Qed.

Lemma count_signals_spec (records : list FeedbackRecord) (s : SignalType) :
  get (signal_value s) (count_signals records)
  = match filter (has_signal s) records with
    | [] => None
    | l => Some (JInt (Z.of_nat (List.length l)))
    end.
Proof.
  unfold count_signals. rewrite count_signals_get. cbn [get].
  destruct (filter (has_signal s) records) as [| r rest]; [reflexivity |].
  cbn [fold_left]. unfold count_up at 2. rewrite count_up_some.
  cbn [List.length]. do 2 f_equal. lia.
Qed.

(** X25: A run whose cutoff [time.gmtime] accepts and that finds records
    returns: it reports success and their number, counts them by signal (a
    signal without records has no entry), keeps the arms and preferences it
    computed in memory and in their files, sets the last-run time to its own
    reading of the clock, leaves the feedback file as it was and stores the
    report it returns under the name made from the last-run time. *)
Theorem run_reports_every_record
        (float_pow : Q -> Q -> Q) (md5_hex : string -> string) (strftime : Q -> string)
        (gmtime_ok : Q -> bool)
        (clock : nat -> Q) (since_ts : option PyFloat) (p : Pipeline) (since : Q) :
  cutoff (clock 0%nat) since_ts = Finite since ->
  gmtime_ok since = true ->
  let records := load_since (feedback_file p) since in
  records <> [] ->
  let first := match since_ts with None => 1%nat | Some _ => 0%nat end in
  let n := List.length records in
  exists report p',
    run float_pow md5_hex strftime gmtime_ok clock since_ts p = Some (report, p')
    /\ get "status" report = Some (JStr "success")
    /\ get "records_processed" report = Some (JInt (Z.of_nat n))
    /\ get "records" report = None
    /\ (exists breakdown,
          get "signal_breakdown" report = Some (JObj breakdown)
          /\ forall s, get (signal_value s) breakdown
                       = match filter (has_signal s) records with
                         | [] => None
                         | l => Some (JInt (Z.of_nat (List.length l)))
                         end)
    /\ _arms p' = fst (linucb_update float_pow (_arms p) (clock first) records)
    /\ weights_file p' = Some (_arms p')
    /\ _prefs p'
       = prefs_update_from md5_hex strftime (fun j => clock (first + 2 + 2 * j)%nat) 0
                           (_prefs p) records
    /\ prefs_file p' = Some (_prefs p')
    /\ _last_run p' = clock (first + 1 + 2 * n)%nat
    /\ feedback_file p' = feedback_file p
    /\ get ("rlhf_" ++ int_text (_last_run p') ++ ".json") (reports_dir p')
       = Some report.
Proof.
  intros Hcut Hok. cbv zeta. intros Hne. unfold run. cbv zeta. rewrite Hcut, Hok.
  destruct (load_since (feedback_file p) since) as [| r rest] eqn:E;
    [contradiction |].
  destruct (linucb_update float_pow (_arms p) _ (r :: rest)) as [arms' changes].
  eexists. eexists. split; [reflexivity |].
  cbn [fst snd _arms weights_file _prefs prefs_file _last_run feedback_file reports_dir].
  split; [reflexivity |]. split; [reflexivity |]. split; [reflexivity |].
  split. { eexists. split; [reflexivity |]. intros s. apply count_signals_spec. }
  repeat (split; [reflexivity |]). apply get_set_same.
Qed.

Lemma run_reports_every_record_witness :
  let float_pow : Q -> Q -> Q := fun _ _ => 1 in
  let md5_hex : string -> string := fun s => s in
  let strftime : Q -> string := fun _ => "2024-11-04T08:00:00Z" in
  let p := idle_pipeline in
  let records := load_since (feedback_file p) 0 in
  let first := 0%nat in
  let n := List.length records in
  exists report p',
    run float_pow md5_hex strftime gmtime_years_1_9999 clock_2024 (Some (Finite 0)) p
    = Some (report, p')
    /\ get "status" report = Some (JStr "success")
    /\ get "records_processed" report = Some (JInt (Z.of_nat n))
    /\ get "records" report = None
    /\ (exists breakdown,
          get "signal_breakdown" report = Some (JObj breakdown)
          /\ forall s, get (signal_value s) breakdown
                       = match filter (has_signal s) records with
                         | [] => None
                         | l => Some (JInt (Z.of_nat (List.length l)))
                         end)
    /\ _arms p' = fst (linucb_update float_pow (_arms p) (clock_2024 first) records)
    /\ weights_file p' = Some (_arms p')
    /\ _prefs p'
       = prefs_update_from md5_hex strftime (fun j => clock_2024 (first + 2 + 2 * j)%nat) 0
                           (_prefs p) records
    /\ prefs_file p' = Some (_prefs p')
    /\ _last_run p' = clock_2024 (first + 1 + 2 * n)%nat
    /\ feedback_file p' = feedback_file p
    /\ get ("rlhf_" ++ int_text (_last_run p') ++ ".json") (reports_dir p')
       = Some report.
Proof.
  apply (run_reports_every_record (fun _ _ => 1) (fun s => s)
           (fun _ => "2024-11-04T08:00:00Z") gmtime_years_1_9999 clock_2024
           (Some (Finite 0)) idle_pipeline 0).
  - reflexivity.
  - vm_compute. reflexivity.
  - vm_compute. discriminate.
Defined.

End RLHFPipeline.

(* ------------------------------------------------------------------ *)
(** ** Python numeric primitives with real values                      *)
(* ------------------------------------------------------------------ *)

Module PyReal.
Local Open Scope R_scope.

(** [math.sqrt]; [None] is the [ValueError] on a negative argument. *)
Definition math_sqrt (x : R) : option R :=
  if Rlt_dec x 0 then None else Some (sqrt x).

(** Nearest integer, ties to even. *)
Definition round_half_even (x : R) : Z :=
  let f := Int_part x in
  let r := x - IZR f in
  if Rlt_dec r (1 / 2) then f
  else if Rlt_dec (1 / 2) r then (f + 1)%Z
  else if Z.even f then f else (f + 1)%Z.

(** [round(x, ndigits)]. *)
Definition round (x : R) (ndigits : nat) : R :=
  IZR (round_half_even (x * 10 ^ ndigits)) / 10 ^ ndigits.

(** [max(range(n), key=...)] over the keys [v :: rest]: the first index
    whose key is the greatest. *)
Fixpoint argmax_from (best : nat) (bestv : R) (i : nat) (vs : list R) : nat :=
  match vs with
  | [] => best
  | v :: rest =>
      if Rlt_dec bestv v then argmax_from i v (S i) rest
      else argmax_from best bestv (S i) rest
  end.

Definition argmax (vs : list R) : option nat :=
  match vs with
  | [] => None
  | v :: rest => Some (argmax_from 0 v 1 rest)
  end.

Lemma math_sqrt_nonneg (x : R) : 0 <= x -> math_sqrt x = Some (sqrt x).
Proof.
  intros H. unfold math_sqrt. destruct (Rlt_dec x 0); [lra | reflexivity].
Qed.

Lemma Q2R_nonneg (q : Q) : (0 <= Qnum q)%Z -> 0 <= Q2R q.
Proof.
  intros H. unfold Q2R. apply Rmult_le_pos.
  - now apply IZR_le.
  - left. apply Rinv_0_lt_compat. apply IZR_lt. reflexivity.
Qed.




Lemma argmax_from_spec (vs : list R) :
  forall (best : nat) (bestv : R) (i : nat) (seen : list R),
    List.length seen = i -> (best < i)%nat ->
    nth best seen 0 = bestv ->
    (forall j, (j < i)%nat -> nth j seen 0 <= bestv) ->
    (forall j, (j < best)%nat -> nth j seen 0 < bestv) ->
    let k := argmax_from best bestv i vs in
    (k < i + List.length vs)%nat
    /\ (forall j, (j < i + List.length vs)%nat ->
                  nth j (seen ++ vs) 0 <= nth k (seen ++ vs) 0)
    /\ (forall j, (j < k)%nat -> nth j (seen ++ vs) 0 < nth k (seen ++ vs) 0).
Proof.
  induction vs as [| v rest IH]; intros best bestv i seen Hlen Hb Hnth Hle Hlt.
  - simpl. rewrite app_nil_r, Nat.add_0_r. rewrite Hnth.
    split; [exact Hb |]. split; assumption.
  - simpl argmax_from.
    assert (Hseen : forall j, (j < i)%nat -> nth j (seen ++ [v]) 0 = nth j seen 0).
    { intros j Hj. apply app_nth1. lia. }
    assert (Hv : nth i (seen ++ [v]) 0 = v).
    { rewrite app_nth2 by lia. rewrite Hlen, Nat.sub_diag. reflexivity. }
    replace (seen ++ v :: rest)%list with ((seen ++ [v]) ++ rest)%list
      by (rewrite <- app_assoc; reflexivity).
    replace (i + List.length (v :: rest))%nat with (S i + List.length rest)%nat
      by (simpl; lia).
    destruct (Rlt_dec bestv v) as [Hgt | Hngt].
    + apply IH.
      * rewrite length_app. simpl. lia.
      * lia.
      * exact Hv.
      * intros j Hj. destruct (Nat.eq_dec j i) as [-> | Hne].
        -- rewrite Hv. lra.
        -- rewrite Hseen by lia. specialize (Hle j ltac:(lia)). lra.
      * intros j Hj. rewrite Hseen by lia. specialize (Hle j Hj). lra.
    + apply IH.
      * rewrite length_app. simpl. lia.
      * lia.
      * rewrite Hseen by lia. exact Hnth.
      * intros j Hj. destruct (Nat.eq_dec j i) as [-> | Hne].
        -- rewrite Hv. lra.
        -- rewrite Hseen by lia. apply Hle. lia.
      * intros j Hj. rewrite Hseen by lia. now apply Hlt.
Qed.

(** The index [argmax] returns has the greatest key, and every earlier
    index has a strictly smaller one. *)
Lemma argmax_spec (vs : list R) (k : nat) :
  argmax vs = Some k ->
  (k < List.length vs)%nat
  /\ (forall j, (j < List.length vs)%nat -> nth j vs 0 <= nth k vs 0)
  /\ (forall j, (j < k)%nat -> nth j vs 0 < nth k vs 0).
Proof.
  destruct vs as [| v rest]; [discriminate |].
  intros H. injection H as <-.
  apply (argmax_from_spec rest 0%nat v 1%nat [v]); simpl; auto.
  - intros j Hj. replace j with 0%nat by lia. lra.
  - intros j Hj. lia.
Qed.

Lemma argmax_some (vs : list R) : vs <> [] -> exists k, argmax vs = Some k.
Proof. destruct vs; [congruence | intros _; eexists; reflexivity]. Qed.







End PyReal.

(* ------------------------------------------------------------------ *)
(** ** The design matrix in binary64                                   *)
(* ------------------------------------------------------------------ *)

(** The matrix step of [LinUCBBandit.update] as [numpy] computes it, on
    [float64] entries with the rounding of binary64, for the one place
    where the rounding changes what the exact matrices of
    [RLRecommender] show. *)
Module Float64.
Import PrimFloat.
Local Open Scope float_scope.

(** [np.eye(n, dtype=np.float64)]. *)
Definition eye (n : nat) : list (list float) :=
  map (fun i => map (fun j => if Nat.eqb i j then 1 else 0) (seq 0 n)) (seq 0 n).

(** [np.outer(u, v)]: every product rounded to binary64. *)
Definition outer (u v : list float) : list (list float) :=
  map (fun ui => map (fun vj => ui * vj) v) u.

Fixpoint zip_with {X Y Z : Type} (f : X -> Y -> Z) (l : list X) (m : list Y) : list Z :=
  match l, m with
  | a :: l', b :: m' => f a b :: zip_with f l' m'
  | _, _ => []
  end.

(** [M += N] on matrices of the same shape: every sum rounded to binary64. *)
Definition iadd (M N : list (list float)) : list (list float) :=
  zip_with (zip_with add) M N.

(** [stats.A += np.outer(context, context)]. *)
Definition update_A (A : list (list float)) (context : list float) : list (list float) :=
  iadd A (outer context context).

(** A context with two features of 10^8. *)
Definition huge_context : list float := [1e8; 1e8; 0; 0; 0; 0; 0; 0; 0; 0; 0].

(** C5 as stated fails in binary64: one update of a new arm with the
    context (1e8, 1e8, 0, ..., 0) stores 1e16 in all four entries of rows
    and columns 0 and 1, because 1 + 1e16 rounds to 1e16.  The first two
    rows of [A] are then equal: [A] is singular, and not positive
    definite. *)
Lemma binary64_update_makes_matrix_singular :
  let A1 := update_A (eye 11) huge_context in
  (1 + 1e8 * 1e8 = 1e8 * 1e8)
  /\ nth 0 A1 [] = [1e16; 1e16; 0; 0; 0; 0; 0; 0; 0; 0; 0]
  /\ nth 1 A1 [] = nth 0 A1 []
  /\ List.length A1 = 11%nat.
Proof. vm_compute. repeat split; reflexivity. Qed.

End Float64.

(* ------------------------------------------------------------------ *)
(** ** rl_recommender.py                                               *)
(* ------------------------------------------------------------------ *)

Module RLRecommender.
Import mathcomp.boot.boot mathcomp.order.order mathcomp.algebra.algebra.
Import Order.Theory GRing.Theory Num.Theory.
Local Open Scope string_scope.
Local Open Scope seq_scope.
Local Open Scope ring_scope.

Definition ACTIONS : seq string :=
  [:: "retrieval_only"; "intent_boosted"; "sentiment_adapted"; "entity_focused";
      "full_pipeline" ].
Definition N_ACTIONS : nat := size ACTIONS.
Definition CONTEXT_DIM : nat := 11.

(** The default of [RL_ALPHA]. *)
Definition ALPHA : rat := 1 / 2.

(** A context vector and a design matrix ([numpy] arrays of [float64]),
    with every entry read as the exact number it denotes and every
    operation exact.  The rounding of [float64] is not modelled: where a
    theorem below speaks of a matrix being positive definite or invertible,
    or of a mean estimate, it speaks of the exact values, and says so.  In
    [float64] a sum such as 1 + x * x loses the 1 once x * x passes 2^53
    (x around 1e8), and the stored matrix can then be singular where the
    exact one is not; [Float64] above computes such an update. *)
Definition ndarray1 : Type := 'cV[rat]_CONTEXT_DIM.
Definition ndarray2 : Type := 'M[rat]_CONTEXT_DIM.

Definition array (l : seq rat) : ndarray1 := \col_i nth 0 l i.

(** [u @ v] on vectors. *)
Definition dot (u v : ndarray1) : rat := (u^T *m v) 0 0.

(** [np.outer(u, v)]. *)
Definition outer (u v : ndarray1) : ndarray2 := u *m v^T.

(** [np.linalg.inv] and [np.linalg.solve]; [None] is the [LinAlgError] on a
    singular matrix. *)
Definition linalg_inv (M : ndarray2) : option ndarray2 :=
  if M \in unitmx then Some (invmx M) else None.

Definition linalg_solve (M : ndarray2) (v : ndarray1) : option ndarray1 :=
  if M \in unitmx then Some (invmx M *m v) else None.

(** The real number a rational stands for ([float(...)]). *)
Definition Z_of_int (i : int) : Z :=
  match i with
  | Posz n => Z.of_nat n
  | Negz n => Z.opp (Z.of_nat n.+1)
  end.

Definition Q_of_rat (q : rat) : Q :=
  Qmake (Z_of_int (numq q)) (Z.to_pos (Z_of_int (denq q))).

Definition float (q : rat) : R := Q2R (Q_of_rat q).

Definition level_value (l : string) : rat :=
  if String.eqb l "high" then 1
  else if String.eqb l "medium" then 1 / 2
  else 0.

(** [build_context_vector]. *)
Definition build_context_vector (intent anxiety_level urgency_level
                                 confidence_level polarity : string)
           (exchange_count : int) (avg_feedback : rat) : ndarray1 :=
  let intent_idx : nat :=
    if String.eqb intent "budget" then 0
    else if String.eqb intent "investment" then 1
    else if String.eqb intent "tax" then 2
    else if String.eqb intent "savings" then 3
    else 0 in
  let intent_vec := [seq (if i == intent_idx then 1 else 0) | i <- iota 0 4] in
  let anxiety_val := level_value anxiety_level in
  let urgency_val := level_value urgency_level in
  let conf_val := if String.eqb confidence_level "high" then 1 else 0 in
  let polarity_val :=
    if String.eqb polarity "positive" then 1
    else if String.eqb polarity "neutral" then 1 / 2
    else if String.eqb polarity "negative" then 0
    else 1 / 2 in
  let session_len := Num.min (exchange_count%:~R / 10) 1 in
  let avg_fb_norm := (avg_feedback + 1) / 2 in
  array (intent_vec
           ++ [:: anxiety_val; urgency_val; conf_val; polarity_val]
           ++ [:: session_len; avg_fb_norm; 1]).

(** [ActionStats]. *)
Record ActionStats := mkStats {
  A : ndarray2;
  b : ndarray1
}.

Definition new_stats : ActionStats := mkStats 1%:M 0.

(** [ActionStats.theta]. *)
Definition theta (stats : ActionStats) : option ndarray1 :=
  linalg_solve (A stats) (b stats).

(** [LinUCBBandit]. *)
Record LinUCBBandit := mkBandit {
  alpha             : rat;
  _stats            : seq ActionStats;
  _total_selections : seq nat
}.

(** [LinUCBBandit(alpha)] with no weights file to load. *)
Definition new_bandit (a : rat) : LinUCBBandit :=
  mkBandit a (nseq N_ACTIONS new_stats) (nseq N_ACTIONS 0%N).

(** The body of the loop of [select_action] for one arm. *)
Definition ucb_score (a : rat) (stats : ActionStats) (context : ndarray1) : option R :=
  match theta stats with
  | None => None
  | Some th =>
      let mean := float (dot th context) in
      match linalg_inv (A stats) with
      | None => None
      | Some A_inv =>
          match PyReal.math_sqrt (float ((context^T *m A_inv *m context) 0 0)) with
          | None => None
          | Some root =>
              let uncertainty := Rmult (float a) root in
              Some (PyReal.round (Rplus mean uncertainty) 4)
          end
      end
  end.

Fixpoint all_some {T : Type} (l : seq (option T)) : option (seq T) :=
  match l with
  | [::] => Some [::]
  | Some x :: rest =>
      match all_some rest with
      | Some r => Some (x :: r)
      | None => None
      end
  | None :: _ => None
  end.

Definition incr (l : seq nat) (i : nat) : seq nat :=
  set_nth 0%N l i (nth 0%N l i).+1.

(** [select_action]: the index, the name, the scores by action and the
    bandit after the call; [None] when a step raises. *)
Definition select_action (bandit : LinUCBBandit) (context : ndarray1)
  : option (nat * string * seq (string * R) * LinUCBBandit) :=
  if size (_stats bandit) != N_ACTIONS then None
  else
    match all_some [seq ucb_score (alpha bandit) st context | st <- _stats bandit] with
    | None => None
    | Some scores =>
        match PyReal.argmax scores with
        | None => None
        | Some best_idx =>
            if (best_idx < size (_total_selections bandit))%N
            then Some (best_idx, nth "" ACTIONS best_idx, zip ACTIONS scores,
                       mkBandit (alpha bandit) (_stats bandit)
                                (incr (_total_selections bandit) best_idx))
            else None
        end
    end.

(** [l[i]] for a Python index: negative indices count from the end. *)
Definition py_index (n : nat) (i : int) : option nat :=
  match i with
  | Posz k => if (k < n)%N then Some k else None
  | Negz k => if (k < n)%N then Some (n - k.+1)%N else None
  end.

(** [update]; [None] when [action_idx] is out of range. *)
Definition update (bandit : LinUCBBandit) (action_idx : int) (context : ndarray1)
           (reward : rat) : option LinUCBBandit :=
  match py_index (size (_stats bandit)) action_idx, py_index N_ACTIONS action_idx with
  | Some i, Some _ =>
      let stats := nth new_stats (_stats bandit) i in
      Some (mkBandit (alpha bandit)
                     (set_nth new_stats (_stats bandit) i
                              (mkStats (A stats + outer context context)
                                       (b stats + reward *: context)))
                     (_total_selections bandit))
  | _, _ => None
  end.

(** [SessionRLState]. *)
Record SessionRLState := mkSession {
  session_id      : string;
  exchange_count  : nat;
  feedback_sum    : rat;
  feedback_count  : nat;
  last_action_idx : option int;
  last_context    : option ndarray1
}.

Definition avg_feedback (st : SessionRLState) : rat :=
  if feedback_count st is 0%N then 0
  else feedback_sum st / (feedback_count st)%:R.

(** The module state: [_session_rl_states] and [_bandit]. *)
Record World := mkWorld {
  _session_rl_states : seq (string * SessionRLState);
  _bandit            : option LinUCBBandit
}.

Fixpoint lookup (sid : string) (d : seq (string * SessionRLState))
  : option SessionRLState :=
  match d with
  | [::] => None
  | (k, v) :: rest => if String.eqb k sid then Some v else lookup sid rest
  end.

Fixpoint store (sid : string) (v : SessionRLState) (d : seq (string * SessionRLState))
  : seq (string * SessionRLState) :=
  match d with
  | [::] => [:: (sid, v)]
  | (k, v') :: rest =>
      if String.eqb k sid then (k, v) :: rest else (k, v') :: store sid v rest
  end.

(** [get_bandit]. *)
Definition get_bandit (w : World) : LinUCBBandit * World :=
  match _bandit w with
  | Some bandit => (bandit, w)
  | None => (new_bandit ALPHA,
             mkWorld (_session_rl_states w) (Some (new_bandit ALPHA)))
  end.

(** [get_session_rl_state]. *)
Definition get_session_rl_state (sid : string) (w : World) : SessionRLState * World :=
  match lookup sid (_session_rl_states w) with
  | Some st => (st, w)
  | None =>
      let st := mkSession sid 0 0 0 None None in
      (st, mkWorld (store sid st (_session_rl_states w)) (_bandit w))
  end.

Record StrategyResult := mkStrategy {
  action         : string;
  action_idx     : nat;
  ucb_scores     : seq (string * R);
  context_vector : ndarray1
}.

(** [select_strategy]. *)
Definition select_strategy (sid intent anxiety_level urgency_level
                            confidence_level polarity : string) (w : World)
  : option (StrategyResult * World) :=
  let (bandit, w1) := get_bandit w in
  let (state0, w2) := get_session_rl_state sid w1 in
  let count := (exchange_count state0).+1 in
  let state1 := mkSession (session_id state0) count (feedback_sum state0)
                          (feedback_count state0) (last_action_idx state0)
                          (last_context state0) in
  let context :=
    build_context_vector intent anxiety_level urgency_level confidence_level
                         polarity (Posz count) (avg_feedback state1) in
  match select_action bandit context with
  | None => None
  | Some (idx, name, scores, bandit') =>
      let state2 := mkSession (session_id state1) count (feedback_sum state1)
                              (feedback_count state1) (Some (Posz idx))
                              (Some context) in
      Some (mkStrategy name idx scores context,
            mkWorld (store sid state2 (_session_rl_states w2)) (Some bandit'))
  end.

(** [record_feedback]; [None] when [bandit.update] raises. *)
Definition record_feedback (sid rating : string) (w : World) : option World :=
  let (bandit, w1) := get_bandit w in
  let (state, w2) := get_session_rl_state sid w1 in
  match last_action_idx state, last_context state with
  | Some idx, Some context =>
      let reward : rat := if String.eqb rating "up" then 1 else -1 in
      let state' := mkSession (session_id state) (exchange_count state)
                              (feedback_sum state + reward)
                              (feedback_count state).+1
                              (last_action_idx state) (last_context state) in
      match update bandit idx context reward with
      | None => None
      | Some bandit' =>
          Some (mkWorld (store sid state' (_session_rl_states w2)) (Some bandit'))
      end
  | _, _ => Some w2
  end.

(** *** Linear algebra of the design matrices *)

#[local] Set Implicit Arguments.
#[local] Unset Strict Implicit.

Definition posdef (M : ndarray2) : Prop :=
  forall v : ndarray1, v != 0 -> 0 < dot v (M *m v).

Definition symmetric (M : ndarray2) : Prop := M^T = M.

Lemma mx11_mul (B C : 'M[rat]_1) : (B *m C) 0 0 = B 0 0 * C 0 0.
Proof. by rewrite mxE big_ord1. Qed.

Lemma dotE (u v : ndarray1) : dot u v = \sum_i u i 0 * v i 0.
Proof. by rewrite /dot mxE; apply: eq_bigr => i _; rewrite mxE. Qed.

Lemma dotC (u v : ndarray1) : dot u v = dot v u.
Proof. by rewrite !dotE; apply: eq_bigr => i _; rewrite mulrC. Qed.

Lemma dotDl (u v w : ndarray1) : dot (u + v) w = dot u w + dot v w.
Proof. by rewrite /dot linearD /= mulmxDl mxE. Qed.

Lemma dotDr (u v w : ndarray1) : dot u (v + w) = dot u v + dot u w.
Proof. by rewrite /dot mulmxDr mxE. Qed.

Lemma dotZl (a : rat) (u v : ndarray1) : dot (a *: u) v = a * dot u v.
Proof. by rewrite /dot linearZ /= -scalemxAl mxE. Qed.

Lemma dotZr (a : rat) (u v : ndarray1) : dot u (a *: v) = a * dot u v.
Proof. by rewrite /dot -scalemxAr mxE. Qed.

Lemma dot0l (v : ndarray1) : dot 0 v = 0.
Proof. by rewrite /dot trmx0 mul0mx mxE. Qed.

Lemma dot_ge0 (v : ndarray1) : 0 <= dot v v.
Proof. by rewrite dotE; apply: sumr_ge0 => i _; rewrite -expr2 sqr_ge0. Qed.

Lemma dot_eq0 (v : ndarray1) : dot v v = 0 -> v = 0.
Proof.
rewrite dotE => /eqP H.
have pos : forall i : 'I_CONTEXT_DIM, true -> 0 <= v i 0 * v i 0.
  by move=> i _; rewrite -expr2 sqr_ge0.
move: H; rewrite (psumr_eq0 _ pos) => /allP H.
apply/colP => i; rewrite mxE.
have := H i; rewrite mem_index_enum => /(_ isT) /=.
by rewrite -expr2 sqrf_eq0 => /eqP.
Qed.

Lemma dot_gt0 (v : ndarray1) : v != 0 -> 0 < dot v v.
Proof.
move=> nz; rewrite lt_def dot_ge0 andbT.
by apply: contra nz => /eqP /dot_eq0 ->.
Qed.

(** [outer x x *m v] is [x] scaled by [x @ v]. *)
Lemma outer_mul (x v : ndarray1) : outer x x *m v = dot x v *: x.
Proof.
rewrite /outer -mulmxA [x^T *m v]mx11_scalar -/(dot x v).
by rewrite mul_mx_scalar.
Qed.

Lemma posdef1 : posdef 1%:M.
Proof. by move=> v nz; rewrite mul1mx dot_gt0. Qed.

Lemma posdef_update (M : ndarray2) (x : ndarray1) :
  posdef M -> posdef (M + outer x x).
Proof.
move=> pd v nz; rewrite mulmxDl dotDr outer_mul dotZr [dot v x]dotC.
by rewrite ltr_wpDr ?pd // -expr2 sqr_ge0.
Qed.

Lemma symmetric1 : symmetric 1%:M.
Proof. by rewrite /symmetric trmx1. Qed.

Lemma symmetric_update (M : ndarray2) (x : ndarray1) :
  symmetric M -> symmetric (M + outer x x).
Proof.
by rewrite /symmetric /outer => sM; rewrite linearD /= sM trmx_mul trmxK.
Qed.

Lemma posdef_unit (M : ndarray2) : posdef M -> M \in unitmx.
Proof.
move=> pd; rewrite -row_free_unit -kermx_eq0; apply/eqP/row_matrixP => i.
rewrite row0; set u := row i _.
have uM : u *m M = 0 by rewrite -row_mul mulmx_ker row0.
apply/eqP; apply: contraT => nz.
have nzT : u^T != 0 by rewrite -trmx0 (inj_eq trmx_inj).
have := pd _ nzT; rewrite /dot trmxK mulmxA uM mul0mx mxE.
by rewrite ltxx.
Qed.

Lemma quad_inv (M : ndarray2) (x : ndarray1) :
  (x^T *m invmx M *m x) 0 0 = dot x (invmx M *m x).
Proof. by rewrite /dot mulmxA. Qed.

Lemma quad_inv_ge0 (M : ndarray2) (x : ndarray1) :
  posdef M -> 0 <= dot x (invmx M *m x).
Proof.
move=> pd; have uM := posdef_unit pd.
set y := invmx M *m x.
have -> : x = M *m y by rewrite /y mulKVmx.
rewrite dotC; case: (eqVneq y 0) => [-> | nz]; last exact/ltW/pd.
by rewrite dot0l.
Qed.

Lemma quad_inv_gt0 (M : ndarray2) (x : ndarray1) :
  posdef M -> x != 0 -> 0 < dot x (invmx M *m x).
Proof.
move=> pd nz; have uM := posdef_unit pd.
set y := invmx M *m x.
have xE : x = M *m y by rewrite /y mulKVmx.
rewrite [in X in dot X _]xE dotC; apply: pd.
by apply: contra nz => /eqP y0; rewrite xE y0 mulmx0.
Qed.

Lemma Z_of_int_ge0 (i : int) : 0 <= i -> Z.le Z0 (Z_of_int i).
Proof. by case: i => // n _; apply: Nat2Z.is_nonneg. Qed.

Lemma float_ge0 (q : rat) : 0 <= q -> Rle 0 (float q).
Proof.
move=> q0; apply: PyReal.Q2R_nonneg; rewrite /Q_of_rat /=.
by apply: Z_of_int_ge0; rewrite numq_ge0.
Qed.

Lemma ucb_score_some (a : rat) (st : ActionStats) (x : ndarray1) :
  posdef (A st) -> exists r, ucb_score a st x = Some r.
Proof.
move=> pd; rewrite /ucb_score /theta /linalg_solve /linalg_inv (posdef_unit pd).
rewrite quad_inv PyReal.math_sqrt_nonneg; first by apply: float_ge0; apply: quad_inv_ge0.
by eexists.
Qed.

(** A bandit that has its five arms, each with a symmetric positive
    definite design matrix. *)
Definition well_formed (bandit : LinUCBBandit) : Prop :=
  [/\ size (_stats bandit) = N_ACTIONS,
      size (_total_selections bandit) = N_ACTIONS
    & forall i, (i < N_ACTIONS)%N ->
        symmetric (A (nth new_stats (_stats bandit) i))
        /\ posdef (A (nth new_stats (_stats bandit) i))].

Lemma new_bandit_wf (a : rat) : well_formed (new_bandit a).
Proof.
split=> [||i lt_i]; rewrite ?size_nseq //.
rewrite (_ : _stats (new_bandit a) = nseq N_ACTIONS new_stats) // nth_nseq lt_i.
by split; [exact: symmetric1 | exact: posdef1].
Qed.

Lemma py_index_lt (n : nat) (i : int) (k : nat) :
  py_index n i = Some k -> (k < n)%N.
Proof.
case: i => j /=; case: ifP => // lt_j [<-] //.
by rewrite ltn_subrL (leq_trans _ lt_j).
Qed.

Lemma update_wf (bandit bandit' : LinUCBBandit) (i : int) (x : ndarray1) (r : rat) :
  well_formed bandit -> update bandit i x r = Some bandit' -> well_formed bandit'.
Proof.
case=> sz_st sz_sel arms; rewrite /update sz_st.
case E: (py_index N_ACTIONS i) => [k|] // [<-].
have lt_k := py_index_lt E.
split=> /=; rewrite ?size_set_nth ?sz_st //; first exact/maxn_idPr.
move=> j lt_j; rewrite nth_set_nth /=; case: eqP => [_ | _]; last exact: arms.
have [sym pd] := arms k lt_k.
by split; [exact: symmetric_update | exact: posdef_update].
Qed.

Lemma all_some_map {T U : Type} (f : T -> option U) (d : T) (l : seq T) :
  (forall i, (i < size l)%N -> exists r, f (nth d l i) = Some r) ->
  exists2 rs, all_some [seq f t | t <- l] = Some rs
            & size rs = size l
              /\ forall i e, (i < size l)%N -> f (nth d l i) = Some (nth e rs i).
Proof.
elim: l => [| t l IH] H; first by exists [::].
have [r Hr] := H 0%N isT.
have [i lt_i | rs Hrs [sz nths]] := IH; first exact: (H i.+1).
exists (r :: rs); first by rewrite /= Hr Hrs.
by split=> [|[|i] e lt_i] /=; rewrite ?sz //; apply: nths.
Qed.

Lemma select_action_wf (bandit : LinUCBBandit) (x : ndarray1) :
  well_formed bandit ->
  exists i scores bandit',
    [/\ select_action bandit x = Some (i, nth "" ACTIONS i, scores, bandit'),
        (i < N_ACTIONS)%N, _stats bandit' = _stats bandit
      & well_formed bandit'].
Proof.
move=> wf; have [sz_st sz_sel arms] := wf.
have [i lt_i | scores Hs [sz nths]] :=
  @all_some_map _ _ (fun st => ucb_score (alpha bandit) st x) new_stats (_stats bandit).
  by apply: ucb_score_some; have [] := arms i; rewrite -?sz_st.
have nz : scores <> [::] by case: scores sz {Hs nths} => //; rewrite sz_st.
have [k Hk] := PyReal.argmax_some scores nz.
have [/ssrnat.ltP lt_k _] := PyReal.argmax_spec scores k Hk.
have lt_k5 : (k < N_ACTIONS)%N by rewrite -sz_st -sz.
exists k, (zip ACTIONS scores),
  (mkBandit (alpha bandit) (_stats bandit) (incr (_total_selections bandit) k)).
split=> //.
- by rewrite /select_action sz_st eqxx /= Hs Hk sz_sel lt_k5.
- split=> //=; rewrite /incr size_set_nth sz_sel.
  exact/maxn_idPr.
Qed.

(** A call on the bandit object. *)
Inductive Call :=
| CallUpdate (action_idx : int) (context : ndarray1) (reward : rat)
| CallSelect (context : ndarray1).

(** The bandit after a call; a call that raises leaves it as it was. *)
Definition after_call (bandit : LinUCBBandit) (c : Call) : LinUCBBandit :=
  match c with
  | CallUpdate i x r =>
      if update bandit i x r is Some bandit' then bandit' else bandit
  | CallSelect x =>
      if select_action bandit x is Some (_, _, _, bandit') then bandit' else bandit
  end.

Definition after_calls (bandit : LinUCBBandit) (calls : seq Call) : LinUCBBandit :=
  foldl after_call bandit calls.

Lemma after_call_wf (bandit : LinUCBBandit) (c : Call) :
  well_formed bandit -> well_formed (after_call bandit c).
Proof.
move=> wf; case: c => [i x r | x] /=.
- by case E: (update bandit i x r) => [bandit'|] //; apply: update_wf E.
- by have [i [scores [bandit' [-> _ _ wf']]]] := select_action_wf x wf.
Qed.

Lemma after_calls_wf (bandit : LinUCBBandit) (calls : seq Call) :
  well_formed bandit -> well_formed (after_calls bandit calls).
Proof.
elim: calls bandit => [| c calls IH] bandit wf //=.
exact/IH/after_call_wf.
Qed.

(** X1: In exact arithmetic: after any sequence of [update] and
    [select_action] calls on a new bandit, with any indices, contexts and
    rewards, every arm's matrix [A] is symmetric, positive definite and
    invertible, and [select_action] returns for every context.  The
    rounding of [float64] is outside the statement. *)
Theorem design_matrix_stays_positive_definite
        (a : rat) (calls : seq Call) (x : ndarray1) :
  let bandit := after_calls (new_bandit a) calls in
  (forall i, (i < N_ACTIONS)%N ->
     let M := A (nth new_stats (_stats bandit) i) in
     [/\ symmetric M, posdef M & M \in unitmx])
  /\ (exists i scores bandit',
        select_action bandit x = Some (i, nth "" ACTIONS i, scores, bandit')).
Proof.
have wf := after_calls_wf calls (new_bandit_wf a).
split=> [i lt_i | ].
- have [_ _ arms] := wf; have [sym pd] := arms i lt_i.
  by split=> //; apply: posdef_unit.
- have [i [scores [bandit' [-> _ _ _]]]] := select_action_wf x wf.
  by exists i, scores, bandit'.
Qed.

(** The mean estimate after one update, by the rank-one update of the
    inverse. *)
Lemma solve_update (M : ndarray2) (bv x : ndarray1) (r : rat) :
  M \in unitmx -> (M + outer x x) \in unitmx ->
  1 + dot x (invmx M *m x) != 0 ->
  invmx (M + outer x x) *m (bv + r *: x)
  = invmx M *m bv
    + ((r - dot x (invmx M *m bv)) / (1 + dot x (invmx M *m x))) *: (invmx M *m x).
Proof.
move=> uM uM' nz.
set th := invmx M *m bv; set y := invmx M *m x.
set s := dot x y; set m := dot x th; set t := (r - m) / (1 + s).
rewrite -[RHS](mulKmx uM'); congr (_ *m _).
rewrite mulmxDr !mulmxDl -!scalemxAr !outer_mul !(mulKVmx uM) -/m -/s.
rewrite scalerA -!addrA; congr (_ + _).
rewrite addrCA -!scalerDl; congr (_ *: _).
by rewrite /t; field.
Qed.

Lemma mean_after_update (M : ndarray2) (bv x : ndarray1) (r : rat) :
  posdef M ->
  dot (invmx (M + outer x x) *m (bv + r *: x)) x
  = (dot (invmx M *m bv) x + r * dot x (invmx M *m x))
    / (1 + dot x (invmx M *m x)).
Proof.
move=> pd; have uM := posdef_unit pd.
have uM' := posdef_unit (posdef_update x pd).
have s0 := quad_inv_ge0 x pd.
have nz : 1 + dot x (invmx M *m x) != 0 by apply: lt0r_neq0; lra.
rewrite (solve_update _ _ uM uM' nz) dotDl dotZl.
rewrite [dot (invmx M *m x) x]dotC [dot x (invmx M *m bv)]dotC.
by field.
Qed.

(** [float(theta @ context)] for one arm, in exact arithmetic. *)
Definition mean_estimate (stats : ActionStats) (context : ndarray1) : option rat :=
  omap (fun th => dot th context) (theta stats).

Definition mean_of (bandit : LinUCBBandit) (k : nat) (context : ndarray1) : option rat :=
  mean_estimate (nth new_stats (_stats bandit) k) context.

Lemma update_arm (bandit : LinUCBBandit) (k : nat) (x : ndarray1) (r : rat) :
  size (_stats bandit) = N_ACTIONS -> (k < N_ACTIONS)%N ->
  update bandit (Posz k) x r
  = Some (mkBandit (alpha bandit)
            (set_nth new_stats (_stats bandit) k
               (mkStats (A (nth new_stats (_stats bandit) k) + outer x x)
                        (b (nth new_stats (_stats bandit) k) + r *: x)))
            (_total_selections bandit)).
Proof. by move=> sz lt_k; rewrite /update sz /= lt_k. Qed.

(** One thumbs-up on [x] moves a mean estimate below 1 strictly up, and
    keeps it below 1. *)
Lemma thumbs_up_step (bandit : LinUCBBandit) (k : nat) (x : ndarray1) (m : rat) :
  well_formed bandit -> (k < N_ACTIONS)%N -> x != 0 ->
  mean_of bandit k x = Some m -> m < 1 ->
  exists bandit' m',
    [/\ update bandit (Posz k) x 1 = Some bandit', well_formed bandit',
        mean_of bandit' k x = Some m' & m < m' < 1].
Proof.
move=> wf lt_k nz Hm m1; have [sz _ arms] := wf.
have [_ pd] := arms k lt_k.
have upd := update_arm x 1 sz lt_k.
set st := nth new_stats (_stats bandit) k in pd upd.
exists (mkBandit (alpha bandit)
          (set_nth new_stats (_stats bandit) k
             (mkStats (A st + outer x x) (b st + 1 *: x)))
          (_total_selections bandit)).
exists ((m + dot x (invmx (A st) *m x)) / (1 + dot x (invmx (A st) *m x))).
have mE : dot (invmx (A st) *m b st) x = m.
  move: Hm; rewrite /mean_of /mean_estimate /theta /linalg_solve -/st.
  by rewrite (posdef_unit pd) /= => -[].
have s0 := quad_inv_gt0 pd nz.
split=> //; first exact: update_wf upd.
- rewrite /mean_of /= nth_set_nth /= eqxx /mean_estimate /theta /linalg_solve /=.
  rewrite (posdef_unit (posdef_update x pd)) /=.
  by rewrite mean_after_update // mE mul1r.
- set s := dot x _ in s0 *.
  have s1 : 0 < 1 + s by lra.
  by rewrite ltr_pdivlMr // ltr_pdivrMr //; apply/andP; split; nra.
Qed.

(** [n] consecutive thumbs-up feedbacks on arm [k] with context [x]. *)
Fixpoint thumbs_up (n : nat) (bandit : LinUCBBandit) (k : nat) (x : ndarray1)
  : option LinUCBBandit :=
  if n is n'.+1 then
    if thumbs_up n' bandit k x is Some bandit' then update bandit' (Posz k) x 1
    else None
  else Some bandit.

(** X2: In exact arithmetic: on a well-formed bandit whose mean estimate
    for arm [k] on a non-zero context [x] is below 1, each further thumbs-up
    (reward 1) on [x] raises that estimate strictly, and it stays below 1. *)
Theorem thumbs_up_raises_mean
        (bandit : LinUCBBandit) (k : nat) (x : ndarray1) (m0 : rat) (n : nat) :
  well_formed bandit -> (k < N_ACTIONS)%N -> x != 0 ->
  mean_of bandit k x = Some m0 -> m0 < 1 ->
  exists before after m m',
    [/\ thumbs_up n bandit k x = Some before,
        thumbs_up n.+1 bandit k x = Some after,
        mean_of before k x = Some m,
        mean_of after k x = Some m'
      & m < m' < 1].
Proof.
move=> wf lt_k nz Hm0 m01.
have [before [m [Hn wfn Hm m1]]] :
  exists before m, [/\ thumbs_up n bandit k x = Some before, well_formed before,
                       mean_of before k x = Some m & m < 1].
  elim: n => [| n [bn [mn [Hn wfn Hmn mn1]]]]; first by exists bandit, m0.
  have [b' [m' [Hu wf' Hm' /andP[_ m'1]]]] := thumbs_up_step wfn lt_k nz Hmn mn1.
  by exists b', m'; split=> //=; rewrite Hn.
have [after [m' [Hu wf' Hm' lt_m]]] := thumbs_up_step wfn lt_k nz Hm m1.
by exists before, after, m, m'; split=> //=; rewrite Hn.
Qed.

Lemma quad_after_update (M : ndarray2) (x : ndarray1) :
  posdef M ->
  dot x (invmx (M + outer x x) *m x)
  = dot x (invmx M *m x) / (1 + dot x (invmx M *m x)).
Proof.
move=> pd; rewrite dotC -[X in _ *m X]add0r -[X in 0 + X]scale1r.
by rewrite mean_after_update // mulmx0 dot0l add0r mul1r.
Qed.

(** The context of an anxious, urgent question in a new session. *)
Definition tense_context : ndarray1 :=
  build_context_vector "budget" "high" "high" "low" "negative" 0 (-1).

Lemma tense_contextE :
  tense_context = array [:: 1; 0; 0; 0; 1; 1; 0; 0; 0; 0; 1].
Proof.
rewrite /tense_context /build_context_vector /level_value /=.
congr array; do !congr (_ :: _); apply/eqP; by vm_compute.
Qed.

Lemma tense_dot : dot tense_context tense_context = 4.
Proof.
rewrite tense_contextE dotE !big_ord_recl big_ord0 !mxE /=.
by ring.
Qed.

Lemma tense_nz : tense_context != 0.
Proof.
apply/eqP => H; have := tense_dot; rewrite H dot0l => /eqP.
by rewrite eq_sym; apply/negP; apply: lt0r_neq0.
Qed.

Lemma fresh_mean (x : ndarray1) : dot (invmx 1%:M *m (0 : ndarray1)) x = 0.
Proof. by rewrite mulmx0 dot0l. Qed.

Lemma fresh_quad (x : ndarray1) : dot x (invmx 1%:M *m x) = dot x x.
Proof. by rewrite invmx1 mul1mx. Qed.

Lemma mean_of_some (bandit : LinUCBBandit) (k : nat) (x : ndarray1) :
  posdef (A (nth new_stats (_stats bandit) k)) ->
  mean_of bandit k x
  = Some (dot (invmx (A (nth new_stats (_stats bandit) k))
               *m b (nth new_stats (_stats bandit) k)) x).
Proof.
by move=> pd; rewrite /mean_of /mean_estimate /theta /linalg_solve (posdef_unit pd).
Qed.

Lemma thumbs_up_raises_mean_witness :
  exists before after m m',
    [/\ thumbs_up 2 (new_bandit ALPHA) 0 tense_context = Some before,
        thumbs_up 3 (new_bandit ALPHA) 0 tense_context = Some after,
        mean_of before 0 tense_context = Some m,
        mean_of after 0 tense_context = Some m'
      & m < m' < 1].
Proof.
apply: (@thumbs_up_raises_mean (new_bandit ALPHA) 0 tense_context 0 2).
- exact: new_bandit_wf.
- by [].
- exact: tense_nz.
- by rewrite mean_of_some /=; [exact: posdef1 | rewrite fresh_mean].
- by [].
Defined.

(** C6 as stated fails: after an update with reward 5 the mean estimate on
    the same context is 4; a thumbs-up then lowers it to 8/3. *)
Lemma thumbs_up_can_lower_mean :
  exists rewarded after,
    [/\ update (new_bandit ALPHA) 0 tense_context 5 = Some rewarded,
        update rewarded 0 tense_context 1 = Some after,
        mean_of rewarded 0 tense_context = Some 4,
        mean_of after 0 tense_context = Some (8 / 3)
      & (8 / 3 : rat) < 4].
Proof.
set x := tense_context.
have pd1 : posdef (1%:M + outer x x) by apply: posdef_update; exact: posdef1.
have pd2 : posdef (1%:M + outer x x + outer x x) by apply: posdef_update.
have m1 : dot (invmx (1%:M + outer x x) *m (0 + 5 *: x)) x = 4.
  rewrite (@mean_after_update _ _ _ _ posdef1) fresh_mean fresh_quad tense_dot.
  by field.
have s1 : dot x (invmx (1%:M + outer x x) *m x) = 4 / 5.
  by rewrite (@quad_after_update _ _ posdef1) fresh_quad tense_dot; field.
eexists; eexists; split.
- by rewrite update_arm.
- by rewrite update_arm.
- by rewrite mean_of_some /=; [exact: pd1 | rewrite m1].
- rewrite mean_of_some /=; first exact: pd2.
  rewrite (@mean_after_update _ _ _ _ pd1) m1 s1.
  by congr Some; field.
- by lra.
Qed.

(** The upper confidence bound of the specification:
    theta^T x + alpha * sqrt (x^T A^-1 x) with theta = A^-1 b. *)
Definition ucb_exact (a : rat) (stats : ActionStats) (x : ndarray1) : R :=
  Rplus (float (dot (invmx (A stats) *m b stats) x))
        (Rmult (float a) (sqrt (float (dot x (invmx (A stats) *m x))))).

Lemma ucb_scoreE (a : rat) (st : ActionStats) (x : ndarray1) (r : R) :
  ucb_score a st x = Some r -> r = PyReal.round (ucb_exact a st x) 4.
Proof.
rewrite /ucb_score /theta /linalg_solve /linalg_inv; case: ifP => // _.
by rewrite quad_inv /PyReal.math_sqrt; case: Rlt_dec => // _ [<-].
Qed.

Lemma ucb_score_posdef (a : rat) (st : ActionStats) (x : ndarray1) :
  posdef (A st) -> ucb_score a st x = Some (PyReal.round (ucb_exact a st x) 4).
Proof. by move=> pd; have [r Hr] := ucb_score_some a x pd; rewrite Hr (ucb_scoreE Hr). Qed.

Lemma all_some_inv {T U : Type} (f : T -> option U) (d : T) (l : seq T) (rs : seq U) :
  all_some [seq f t | t <- l] = Some rs ->
  size rs = size l
  /\ forall i e, (i < size l)%N -> f (nth d l i) = Some (nth e rs i).
Proof.
elim: l rs => [| t l IH] rs /=; first by case=> <-.
case Ht: (f t) => [r|] //; case Hl: (all_some _) => [rs'|] // [<-].
have [sz nths] := IH _ Hl.
by split=> [|[|i] e lt_i] /=; rewrite ?sz //; apply: nths.
Qed.

Lemma List_nthE {T : Type} (d : T) (l : seq T) (i : nat) : List.nth i l d = nth d l i.
Proof. by elim: l i => [| t l IH] [| i] //=. Qed.

Lemma select_action_inv (bandit : LinUCBBandit) (x : ndarray1) (i : nat)
      (name : string) (scores : seq (string * R)) (bandit' : LinUCBBandit) :
  select_action bandit x = Some (i, name, scores, bandit') ->
  [/\ (i < N_ACTIONS)%N, name = nth "" ACTIONS i
    & bandit' = mkBandit (alpha bandit) (_stats bandit)
                         (incr (_total_selections bandit) i)].
Proof.
rewrite /select_action; case: eqP => // sz; rewrite [negb _]/=.
case Hs: (all_some _) => [vals|] //.
case Hk: (PyReal.argmax vals) => [k|] //; case: ifP => // _ [<- <- _ <-].
have [szv _] := all_some_inv new_stats Hs.
have [/ssrnat.ltP lt_k _] := PyReal.argmax_spec vals k Hk.
by split=> //; rewrite -sz -szv.
Qed.

Lemma select_action_spec (bandit : LinUCBBandit) (x : ndarray1) (i : nat) (name : string)
      (scores : seq (string * R)) (bandit' : LinUCBBandit) :
  select_action bandit x = Some (i, name, scores, bandit') ->
  let score j :=
    PyReal.round (ucb_exact (alpha bandit) (nth new_stats (_stats bandit) j) x) 4 in
  [/\ scores = [seq (nth "" ACTIONS j, score j) | j <- iota 0 N_ACTIONS],
      forall j, (j < N_ACTIONS)%N -> Rle (score j) (score i)
    & forall j, (j < i)%N -> Rlt (score j) (score i)].
Proof.
rewrite /select_action; case: eqP => // sz; rewrite [negb _]/=.
case Hs: (all_some _) => [vals|] //.
case Hk: (PyReal.argmax vals) => [k|] //; case: ifP => // _ [<- _ <- _].
have [szv nths] := all_some_inv new_stats Hs.
have [/ssrnat.ltP lt_k [le_k lt_jk]] := PyReal.argmax_spec vals k Hk.
have val j : (j < N_ACTIONS)%N ->
    nth (IZR Z0) vals j
    = PyReal.round (ucb_exact (alpha bandit) (nth new_stats (_stats bandit) j) x) 4.
  by rewrite -sz => lt_j; have /ucb_scoreE := nths j (IZR Z0) lt_j.
have lt_k5 : (k < N_ACTIONS)%N by rewrite -sz -szv.
split=> //.
+ apply: (@eq_from_nth _ ("", IZR Z0)) => [| j].
    by rewrite size_zip size_map size_iota szv sz minnn.
  rewrite size_zip szv sz minnn => lt_j.
  rewrite nth_zip ?szv ?sz // (nth_map 0%N) ?size_iota // nth_iota // add0n.
  by rewrite val.
+ move=> j lt_j; rewrite -!val // -!List_nthE; apply: le_k.
  by apply/ssrnat.ltP; rewrite -[length _]/(size vals) szv sz.
+ move=> j lt_j; rewrite -!val ?(ltn_trans lt_j) // -!List_nthE; apply: lt_jk.
  exact/ssrnat.ltP.
Qed.

(** X3: On a well-formed bandit [select_action] returns, for every arm, the
    score theta^T x + alpha * sqrt (x^T A^-1 x) rounded to 4 decimals, and
    the first arm whose rounded score is maximal; it adds one to that arm's
    selection count and leaves the statistics as they were. *)
Theorem select_action_takes_first_best_rounded_score
        (bandit : LinUCBBandit) (x : ndarray1) :
  well_formed bandit ->
  let score j :=
    PyReal.round (ucb_exact (alpha bandit) (nth new_stats (_stats bandit) j) x) 4 in
  exists i,
    [/\ select_action bandit x
        = Some (i, nth "" ACTIONS i,
                [seq (nth "" ACTIONS j, score j) | j <- iota 0 N_ACTIONS],
                mkBandit (alpha bandit) (_stats bandit)
                         (incr (_total_selections bandit) i)),
        (i < N_ACTIONS)%N,
        forall j, (j < N_ACTIONS)%N -> Rle (score j) (score i)
      & forall j, (j < i)%N -> Rlt (score j) (score i)].
Proof.
move=> wf score.
have [i [scores [bandit' [Hsel lt_i _ _]]]] := select_action_wf x wf.
have [_ _ Hb] := select_action_inv Hsel.
have [Hscores le_i lt_j] := select_action_spec Hsel.
by exists i; split=> //; rewrite Hsel Hscores Hb.
Qed.

Lemma select_action_takes_first_best_rounded_score_witness :
  let bandit := new_bandit ALPHA in
  let x := tense_context in
  let score j :=
    PyReal.round (ucb_exact (alpha bandit) (nth new_stats (_stats bandit) j) x) 4 in
  exists i,
    [/\ select_action bandit x
        = Some (i, nth "" ACTIONS i,
                [seq (nth "" ACTIONS j, score j) | j <- iota 0 N_ACTIONS],
                mkBandit (alpha bandit) (_stats bandit)
                         (incr (_total_selections bandit) i)),
        (i < N_ACTIONS)%N,
        forall j, (j < N_ACTIONS)%N -> Rle (score j) (score i)
      & forall j, (j < i)%N -> Rlt (score j) (score i)].
Proof.
apply: (@select_action_takes_first_best_rounded_score (new_bandit ALPHA) tense_context).
exact: new_bandit_wf.
Defined.

(** X4: [update] with an index [k] in range adds x x^T to [A] and reward * x
    to [b] of arm [k], and leaves the other arms, [alpha] and the selection
    counts as they were. *)
Theorem update_changes_only_the_chosen_arm
        (bandit : LinUCBBandit) (k : nat) (x : ndarray1) (r : rat) :
  size (_stats bandit) = N_ACTIONS -> (k < N_ACTIONS)%N ->
  exists bandit',
    [/\ update bandit (Posz k) x r = Some bandit',
        size (_stats bandit') = N_ACTIONS,
        forall j, (j < N_ACTIONS)%N ->
          nth new_stats (_stats bandit') j
          = if j == k
            then mkStats (A (nth new_stats (_stats bandit) k) + x *m x^T)
                         (b (nth new_stats (_stats bandit) k) + r *: x)
            else nth new_stats (_stats bandit) j,
        alpha bandit' = alpha bandit
      & _total_selections bandit' = _total_selections bandit].
Proof.
move=> sz lt_k; rewrite update_arm //; eexists; split=> //=.
- by rewrite size_set_nth sz; apply/maxn_idPr.
- by move=> j _; rewrite nth_set_nth /=.
Qed.

Lemma update_changes_only_the_chosen_arm_witness :
  let bandit := new_bandit ALPHA in
  exists bandit',
    [/\ update bandit 2 tense_context (-1) = Some bandit',
        size (_stats bandit') = N_ACTIONS,
        forall j, (j < N_ACTIONS)%N ->
          nth new_stats (_stats bandit') j
          = if j == 2%N
            then mkStats (A (nth new_stats (_stats bandit) 2)
                          + tense_context *m tense_context^T)
                         (b (nth new_stats (_stats bandit) 2) + (-1) *: tense_context)
            else nth new_stats (_stats bandit) j,
        alpha bandit' = alpha bandit
      & _total_selections bandit' = _total_selections bandit].
Proof.
by apply: (@update_changes_only_the_chosen_arm (new_bandit ALPHA) 2 tense_context (-1)).
Defined.

(** X5: In exact arithmetic: one [update] of arm [k] with a non-zero
    context [x] and reward [r] turns the mean estimate m on [x] into
    (m + r * s) / (1 + s), where s = x^T A^-1 x, which lies strictly between
    m and r; and it shrinks s to s / (1 + s).  The rounding of [float64] is
    outside the statement. *)
Theorem update_moves_mean_toward_reward
        (bandit : LinUCBBandit) (k : nat) (x : ndarray1) (r : rat) :
  well_formed bandit -> (k < N_ACTIONS)%N -> x != 0 ->
  let st := nth new_stats (_stats bandit) k in
  let m := dot (invmx (A st) *m b st) x in
  let s := dot x (invmx (A st) *m x) in
  exists bandit',
    [/\ update bandit (Posz k) x r = Some bandit',
        mean_of bandit k x = Some m,
        mean_of bandit' k x = Some ((m + r * s) / (1 + s)),
        dot x (invmx (A (nth new_stats (_stats bandit') k)) *m x) = s / (1 + s)
      & [/\ 0 < s / (1 + s) < s,
            m < r -> m < (m + r * s) / (1 + s) < r
          & r < m -> r < (m + r * s) / (1 + s) < m]].
Proof.
move=> wf lt_k nz st m s; have [sz _ arms] := wf.
have [_ pd] := arms k lt_k.
have upd := update_arm x r sz lt_k.
rewrite -/st in pd upd.
have s0 : 0 < s := quad_inv_gt0 pd nz.
have s1 : 0 < 1 + s by lra.
eexists; split; first exact: upd.
- by rewrite mean_of_some.
- rewrite mean_of_some /= nth_set_nth /= eqxx /=; first exact: posdef_update.
  by rewrite mean_after_update.
- by rewrite /= nth_set_nth /= eqxx /= quad_after_update.
- split=> [| lt_mr | lt_rm].
  + by rewrite ltr_pdivlMr // ltr_pdivrMr //; apply/andP; split; nra.
  + by rewrite ltr_pdivlMr // ltr_pdivrMr //; apply/andP; split; nra.
  + by rewrite ltr_pdivlMr // ltr_pdivrMr //; apply/andP; split; nra.
Qed.

Lemma update_moves_mean_toward_reward_witness :
  let bandit := new_bandit ALPHA in
  let x := tense_context in
  let st := nth new_stats (_stats bandit) 0 in
  let m := dot (invmx (A st) *m b st) x in
  let s := dot x (invmx (A st) *m x) in
  exists bandit',
    [/\ update bandit 0 x (-1) = Some bandit',
        mean_of bandit 0 x = Some m,
        mean_of bandit' 0 x = Some ((m + (-1) * s) / (1 + s)),
        dot x (invmx (A (nth new_stats (_stats bandit') 0)) *m x) = s / (1 + s)
      & [/\ 0 < s / (1 + s) < s,
            m < -1 -> m < (m + (-1) * s) / (1 + s) < -1
          & -1 < m -> -1 < (m + (-1) * s) / (1 + s) < m]].
Proof.
apply: (@update_moves_mean_toward_reward (new_bandit ALPHA) 0 tense_context (-1)).
- exact: new_bandit_wf.
- by [].
- exact: tense_nz.
Defined.

Lemma lookup_store_same (sid : string) (v : SessionRLState)
      (d : seq (string * SessionRLState)) :
  lookup sid (store sid v d) = Some v.
Proof.
elim: d => [| [k v'] d IH] /=; first by rewrite String.eqb_refl.
by case E: (String.eqb k sid) => /=; rewrite E.
Qed.

Lemma lookup_store_other (sid other : string) (v : SessionRLState)
      (d : seq (string * SessionRLState)) :
  String.eqb other sid = false ->
  lookup other (store sid v d) = lookup other d.
Proof.
move=> ne; elim: d => [| [k v'] d IH] /=.
  by rewrite String.eqb_sym ne.
case E: (String.eqb k sid) => /=; last by rewrite IH.
case E': (String.eqb k other) => //.
by move/String.eqb_eq: E E' ne => -> /String.eqb_eq -> ; rewrite String.eqb_refl.
Qed.

(** What a caller sees of a session: its state, or the defaults of a new
    one ([get_session_rl_state]). *)
Definition session_view (sid : string) (w : World) : SessionRLState :=
  (get_session_rl_state sid w).1.

Definition bandit_view (w : World) : LinUCBBandit := (get_bandit w).1.

Lemma bandit_view_get (w : World) : bandit_view (get_bandit w).2 = bandit_view w.
Proof. by rewrite /bandit_view /get_bandit; case E: (_bandit w) => [b0|] /=; rewrite ?E. Qed.

Lemma session_view_get_bandit (s : string) (w : World) :
  session_view s (get_bandit w).2 = session_view s w.
Proof.
rewrite /session_view /get_session_rl_state /get_bandit.
by case: (_bandit w) => [b0|] /=; case: (lookup s _).
Qed.

Lemma bandit_view_get_session (sid : string) (w : World) :
  bandit_view (get_session_rl_state sid w).2 = bandit_view w.
Proof.
rewrite /bandit_view /get_bandit /get_session_rl_state.
by case: (lookup sid _) => [st|] /=; case: (_bandit w).
Qed.

Lemma session_view_get_session (s sid : string) (w : World) :
  session_view s (get_session_rl_state sid w).2 = session_view s w.
Proof.
rewrite /session_view /get_session_rl_state.
case El: (lookup sid _) => [st|] //=.
case Es: (String.eqb s sid); last by rewrite lookup_store_other //; case: (lookup s _).
by move/String.eqb_eq: Es => ->; rewrite lookup_store_same El.
Qed.

Lemma record_feedback_unattributed (sid rating : string) (w : World) :
  (forall st, lookup sid (_session_rl_states w) = Some st ->
              last_action_idx st = None \/ last_context st = None) ->
  record_feedback sid rating w
  = Some (get_session_rl_state sid (get_bandit w).2).2.
Proof.
move=> Hnone; rewrite /record_feedback.
case Eb: (get_bandit w) => [bandit w1] /=.
have Hs : _session_rl_states w1 = _session_rl_states w.
  by move: Eb; rewrite /get_bandit; case: (_bandit w) => [b0|] [_ <-].
case Es: (get_session_rl_state sid w1) => [st w2] /=.
move: Es; rewrite /get_session_rl_state Hs.
case El: (lookup sid _) => [st0|] [<- _] /=; last by [].
by have [-> | ->] := Hnone st0 El; [| case: (last_action_idx st0)].
Qed.

Lemma record_feedback_attributed (w : World) (sid rating : string)
      (st : SessionRLState) (k : nat) (ctx : ndarray1) :
  lookup sid (_session_rl_states w) = Some st ->
  last_action_idx st = Some (Posz k) -> last_context st = Some ctx ->
  size (_stats (bandit_view w)) = N_ACTIONS -> (k < N_ACTIONS)%N ->
  let reward : rat := if String.eqb rating "up" then 1 else -1 in
  exists bandit' w',
    [/\ record_feedback sid rating w = Some w',
        update (bandit_view w) (Posz k) ctx reward = Some bandit',
        _bandit w' = Some bandit',
        lookup sid (_session_rl_states w')
        = Some (mkSession (session_id st) (exchange_count st)
                          (feedback_sum st + reward) (feedback_count st).+1
                          (last_action_idx st) (last_context st))
      & forall other, String.eqb other sid = false ->
          lookup other (_session_rl_states w')
          = lookup other (_session_rl_states w)].
Proof.
move=> Hl Hi Hc sz lt_k reward.
have upd := update_arm ctx reward sz lt_k.
rewrite /record_feedback /bandit_view /get_bandit in upd sz *.
case Eb: (_bandit w) upd sz => [bandit|] /= upd sz;
  rewrite /get_session_rl_state /= Hl Hi Hc upd;
  eexists; eexists; split=> //=; rewrite ?lookup_store_same //;
  by move=> other ne; rewrite lookup_store_other.
Qed.

(** A public call of the module. *)
Inductive Event :=
| AskStrategy (sid intent anxiety_level urgency_level confidence_level polarity : string)
| GiveFeedback (sid rating : string).

(** The module state after a call; [None] when the call raises. *)
Definition step (w : World) (e : Event) : option World :=
  match e with
  | AskStrategy sid intent anxiety urgency confidence polarity =>
      omap snd (select_strategy sid intent anxiety urgency confidence polarity w)
  | GiveFeedback sid rating => record_feedback sid rating w
  end.

Definition after_events (w : World) (es : seq Event) : World :=
  foldl (fun w e => if step w e is Some w' then w' else w) w es.

(** The state of a process that has just imported the module. *)
Definition empty_world : World := mkWorld [::] None.

Definition session_ok (st : SessionRLState) : Prop :=
  `|feedback_sum st| <= (feedback_count st)%:R
  /\ match last_action_idx st with
     | Some (Posz k) => (k < N_ACTIONS)%N
     | Some (Negz _) => False
     | None => True
     end.

Definition world_ok (w : World) : Prop :=
  well_formed (bandit_view w)
  /\ forall sid st, lookup sid (_session_rl_states w) = Some st -> session_ok st.

Lemma empty_world_ok : world_ok empty_world.
Proof. by split=> //; exact: new_bandit_wf. Qed.

Lemma session_view_ok (sid : string) (w : World) :
  world_ok w -> session_ok (session_view sid w).
Proof.
case=> _ oks; rewrite /session_view /get_session_rl_state.
case El: (lookup sid _) => [st|] /=; first exact: oks El.
by split=> //=; rewrite normr0.
Qed.

Lemma select_strategy_ok (sid intent anxiety urgency confidence polarity : string)
      (w : World) :
  world_ok w ->
  exists res w',
    [/\ select_strategy sid intent anxiety urgency confidence polarity w
        = Some (res, w'),
        world_ok w',
        (action_idx res < N_ACTIONS)%N,
        lookup sid (_session_rl_states w')
        = Some (mkSession (session_id (session_view sid w))
                          (exchange_count (session_view sid w)).+1
                          (feedback_sum (session_view sid w))
                          (feedback_count (session_view sid w))
                          (Some (Posz (action_idx res)))
                          (Some (context_vector res)))
      & context_vector res
        = build_context_vector intent anxiety urgency confidence polarity
            (Posz (exchange_count (session_view sid w)).+1)
            (avg_feedback (session_view sid w))
        /\ _stats (bandit_view w') = _stats (bandit_view w)].
Proof.
move=> ok; have [wf oks] := ok.
have [vok _] := session_view_ok sid ok.
rewrite /select_strategy.
case Eb: (get_bandit w) => [bandit w1].
have Hb : bandit = bandit_view w by rewrite /bandit_view Eb.
have Hv s : session_view s w1 = session_view s w.
  by rewrite -(session_view_get_bandit s w) Eb.
case Es: (get_session_rl_state sid w1) => [st0 w2].
have Hst : st0 = session_view sid w by rewrite -Hv /session_view Es.
have Hlook s : String.eqb s sid = false ->
    lookup s (_session_rl_states w2) = lookup s (_session_rl_states w).
  move=> ne; move: Es Eb; rewrite /get_session_rl_state /get_bandit.
  case: (_bandit w) => [b0|] Es [_ Hw1]; move: Es; rewrite -Hw1 /=;
    by case El: (lookup sid _) => [st|] [_ <-] //=; rewrite lookup_store_other.
set x := build_context_vector _ _ _ _ _ _ _.
have avgE : avg_feedback
    (mkSession (session_id st0) (exchange_count st0).+1 (feedback_sum st0)
               (feedback_count st0) (last_action_idx st0) (last_context st0))
    = avg_feedback st0 by [].
rewrite -Hb in wf.
have [i [scores [bandit' [Hsel lt_i Hstats wf']]]] := select_action_wf x wf.
rewrite Hsel; eexists; eexists; split=> //=.
- split=> [| s st]; first by rewrite /bandit_view /get_bandit.
  case Ess: (String.eqb s sid).
    move/String.eqb_eq: Ess => ->; rewrite lookup_store_same => -[<-].
    by split=> //=; rewrite Hst.
  by rewrite lookup_store_other // Hlook //; apply: oks.
- by rewrite lookup_store_same Hst.
- by rewrite /x Hst; split=> //; rewrite /bandit_view /get_bandit /= Hstats Hb.
Qed.

Lemma reward_norm (rating : string) :
  `|(if String.eqb rating "up" then 1 else -1 : rat)| = 1.
Proof. by case: (String.eqb _ _); rewrite ?normrN normr1. Qed.

Lemma lookup_views (w w' : World) :
  (forall s, session_view s w' = session_view s w) ->
  (forall sid st, lookup sid (_session_rl_states w) = Some st -> session_ok st) ->
  forall sid st, lookup sid (_session_rl_states w') = Some st -> session_ok st.
Proof.
move=> Hv oks sid st El.
have := Hv sid; rewrite /session_view /get_session_rl_state El /=.
case El0: (lookup sid _) => [st0|] /= ->; first exact: oks El0.
by split=> //=; rewrite normr0.
Qed.

Lemma record_feedback_ok (sid rating : string) (w : World) :
  world_ok w ->
  exists w', record_feedback sid rating w = Some w' /\ world_ok w'.
Proof.
move=> ok; have [wf oks] := ok; have [sz _ _] := wf.
have unattributed :
  (forall st, lookup sid (_session_rl_states w) = Some st ->
              last_action_idx st = None \/ last_context st = None) ->
  exists w', record_feedback sid rating w = Some w' /\ world_ok w'.
  move=> Hnone; eexists; split; first exact: record_feedback_unattributed.
  split; first by rewrite bandit_view_get_session bandit_view_get.
  apply: lookup_views oks => s.
  by rewrite session_view_get_session session_view_get_bandit.
case El: (lookup sid (_session_rl_states w)) => [st|]; last first.
  by apply: unattributed => st; rewrite El.
have [bound idx_ok] := oks sid st El.
case Ei: (last_action_idx st) idx_ok => [[k|k]|] // lt_k; last first.
  by apply: unattributed => st'; rewrite El => -[<-]; left.
case Ec: (last_context st) => [ctx|]; last first.
  by apply: unattributed => st'; rewrite El => -[<-]; right.
have [bandit' [w' [Hrec Hupd Hb Hsid Hother]]] :=
  record_feedback_attributed rating El Ei Ec sz lt_k.
exists w'; split=> //; split.
  by rewrite /bandit_view /get_bandit Hb /=; apply: update_wf Hupd.
move=> s st'; case Es: (String.eqb s sid); last first.
  by rewrite Hother //; apply: oks.
move/String.eqb_eq: Es => ->; rewrite Hsid => -[<-]; split=> /=; last by rewrite Ei.
rewrite -natr1; apply: le_trans (ler_normD _ _) _.
by rewrite reward_norm lerD2r.
Qed.

Lemma after_events_ok (es : seq Event) (w : World) :
  world_ok w -> world_ok (after_events w es).
Proof.
elim: es w => [| e es IH] w ok //=; apply: IH.
case: e => [sid intent anxiety urgency confidence polarity | sid rating] /=.
- have [res [w' [-> ok' _ _ _]]] :=
    select_strategy_ok sid intent anxiety urgency confidence polarity ok.
  exact: ok'.
- by have [w' [-> ok']] := record_feedback_ok sid rating ok.
Qed.

Lemma avg_feedback_bounded (st : SessionRLState) :
  `|feedback_sum st| <= (feedback_count st)%:R -> -1 <= avg_feedback st <= 1.
Proof.
rewrite /avg_feedback; case: (feedback_count st) => [| n] bound.
  by rewrite lerN10 ler01.
have pos : (0 : rat) < n.+1%:R by rewrite ltr0n.
rewrite ler_pdivlMr // ler_pdivrMr // mulN1r mul1r -ler_norml.
exact: bound.
Qed.

(** X6: [record_feedback] for a session without a stored selection returns
    without changing the bandit or any session's statistics. *)
Theorem feedback_without_selection_is_ignored (sid rating : string) (w : World) :
  (forall st, lookup sid (_session_rl_states w) = Some st ->
              last_action_idx st = None \/ last_context st = None) ->
  exists w',
    [/\ record_feedback sid rating w = Some w',
        bandit_view w' = bandit_view w
      & forall s, session_view s w' = session_view s w].
Proof.
move=> Hnone; exists (get_session_rl_state sid (get_bandit w).2).2; split.
- exact: record_feedback_unattributed.
- by rewrite bandit_view_get_session bandit_view_get.
- by move=> s; rewrite session_view_get_session session_view_get_bandit.
Qed.

Lemma feedback_without_selection_is_ignored_witness :
  exists w',
    [/\ record_feedback "s1" "up" empty_world = Some w',
        bandit_view w' = bandit_view empty_world
      & forall s, session_view s w' = session_view s empty_world].
Proof.
by apply: (@feedback_without_selection_is_ignored "s1" "up" empty_world).
Defined.


(** The reward [record_feedback] gives a rating. *)
Definition reward_of (rating : string) : rat :=
  if String.eqb rating "up" then 1 else -1.

(** [record_feedback] called once for each rating of a list, in order. *)
Fixpoint give_feedback (sid : string) (ratings : seq string) (w : World)
  : option World :=
  if ratings is rating :: rest then
    if record_feedback sid rating w is Some w' then give_feedback sid rest w'
    else None
  else Some w.

Lemma give_feedback_attributed (ratings : seq string) (w : World) (sid : string)
      (st : SessionRLState) (k : nat) (ctx : ndarray1) :
  lookup sid (_session_rl_states w) = Some st ->
  last_action_idx st = Some (Posz k) -> last_context st = Some ctx ->
  size (_stats (bandit_view w)) = N_ACTIONS -> (k < N_ACTIONS)%N ->
  exists w',
    [/\ give_feedback sid ratings w = Some w',
        lookup sid (_session_rl_states w')
        = Some (mkSession (session_id st) (exchange_count st)
                  (feedback_sum st + \sum_(rating <- ratings) reward_of rating)
                  (feedback_count st + size ratings)
                  (Some (Posz k)) (Some ctx)),
        size (_stats (bandit_view w')) = N_ACTIONS
      & forall j, (j < N_ACTIONS)%N ->
          nth new_stats (_stats (bandit_view w')) j
          = if j == k
            then mkStats (A (nth new_stats (_stats (bandit_view w)) k)
                          + (size ratings)%:R *: outer ctx ctx)
                         (b (nth new_stats (_stats (bandit_view w)) k)
                          + (\sum_(rating <- ratings) reward_of rating) *: ctx)
            else nth new_stats (_stats (bandit_view w)) j].
Proof.
elim: ratings w st => [| rating rest IH] w st Hl Hi Hc sz lt_k.
  exists w; split=> //=.
  - by rewrite big_nil addr0 addn0 -Hi -Hc; case: (st) Hl.
  - move=> j lt_j; case: eqP => [-> | //].
    by rewrite big_nil !scale0r !addr0; case: (nth _ _ _).
have [bandit1 [w1 [Hrec Hupd Hb Hsid _]]] :=
  record_feedback_attributed rating Hl Hi Hc sz lt_k.
move: Hupd; rewrite update_arm // => -[Hbandit1].
have view1 : bandit_view w1 = bandit1 by rewrite /bandit_view /get_bandit Hb.
have sz1 : size (_stats (bandit_view w1)) = N_ACTIONS.
  by rewrite view1 -Hbandit1 /= size_set_nth sz; apply/maxn_idPr.
have [w' [Hgive Hsid' sz' arms']] := IH w1 _ Hsid Hi Hc sz1 lt_k.
exists w'; split=> //=; first by rewrite Hrec.
- rewrite Hsid' /= big_cons -/(reward_of rating) addrA addnS -addSn.
  by [].
- move=> j lt_j; rewrite arms' // view1 -Hbandit1 /= !nth_set_nth /= eqxx.
  case: eqP => // _; rewrite big_cons -/(reward_of rating) /=.
  by rewrite -addrA -[X in X + _ *: _]scale1r -scalerDl -natr1 [_ + 1]addrC
             -addrA -scalerDl.
Qed.

(** X7: After [select_strategy], every [record_feedback] call of the session
    is attributed to that selection: n ratings add n to the feedback count,
    their rewards (1 for up, -1 for any other string) to the feedback sum,
    n * x x^T to [A] and (the sum of the rewards) * x to [b] of the selected
    arm, and leave the other arms as they were. *)
Theorem repeated_feedback_is_counted_again
        (es : seq Event) (ratings : seq string)
        (sid intent anxiety urgency confidence polarity : string) :
  let w := after_events empty_world es in
  exists res w1 w2,
    [/\ select_strategy sid intent anxiety urgency confidence polarity w
        = Some (res, w1),
        give_feedback sid ratings w1 = Some w2,
        feedback_count (session_view sid w2)
        = (feedback_count (session_view sid w) + size ratings)%N,
        feedback_sum (session_view sid w2)
        = feedback_sum (session_view sid w) + \sum_(rating <- ratings) reward_of rating
      & forall j, (j < N_ACTIONS)%N ->
          nth new_stats (_stats (bandit_view w2)) j
          = if j == action_idx res
            then mkStats (A (nth new_stats (_stats (bandit_view w)) j)
                          + (size ratings)%:R *: outer (context_vector res)
                                                       (context_vector res))
                         (b (nth new_stats (_stats (bandit_view w)) j)
                          + (\sum_(rating <- ratings) reward_of rating)
                            *: context_vector res)
            else nth new_stats (_stats (bandit_view w)) j].
Proof.
move=> w.
have ok := after_events_ok es empty_world_ok.
have [res [w1 [Hsel ok1 lt_i Hl [_ Hstats]]]] :=
  select_strategy_ok sid intent anxiety urgency confidence polarity ok.
have [[sz _ _] _] := ok1.
have [w2 [Hgive Hsid _ arms]] :=
  give_feedback_attributed ratings Hl erefl erefl sz lt_i.
exists res, w1, w2; split=> //.
- by rewrite /session_view /get_session_rl_state Hsid.
- by rewrite /session_view /get_session_rl_state Hsid.
- by move=> j lt_j; rewrite arms // Hstats; case: eqP => // ->.
Qed.

(** X8: In every state reached from a fresh process by [select_strategy] and
    [record_feedback] calls, both functions return for all arguments, and
    every session's feedback sum is at most its feedback count in absolute
    value, so [avg_feedback] lies in [-1, 1]. *)
Theorem calls_return_and_feedback_stays_bounded (es : seq Event) :
  let w := after_events empty_world es in
  (forall e, exists w', step w e = Some w')
  /\ (forall sid,
        `|feedback_sum (session_view sid w)| <= (feedback_count (session_view sid w))%:R
        /\ -1 <= avg_feedback (session_view sid w) <= 1).
Proof.
have ok := after_events_ok es empty_world_ok.
split=> [e | sid].
- case: e => [sid intent anxiety urgency confidence polarity | sid rating] /=.
  + have [res [w' [-> _ _ _ _]]] :=
      select_strategy_ok sid intent anxiety urgency confidence polarity ok.
    by exists w'.
  + by have [w' [-> _]] := record_feedback_ok sid rating ok; exists w'.
- have [bound _] := session_view_ok sid ok.
  by split=> //; apply: avg_feedback_bounded.
Qed.

Definition unit_range (v : rat) : bool := (0 <= v) && (v <= 1).

Lemma unit_range0 : unit_range 0.
Proof. by rewrite /unit_range lexx ler01. Qed.

Lemma unit_range1 : unit_range 1.
Proof. by rewrite /unit_range lexx ler01. Qed.

Lemma unit_range_half : unit_range (1 / 2).
Proof. by rewrite /unit_range; apply/andP; split; lra. Qed.

Lemma level_value_range (l : string) : unit_range (level_value l).
Proof.
rewrite /level_value.
case: (String.eqb _ _); first exact: unit_range1.
case: (String.eqb _ _); first exact: unit_range_half.
exact: unit_range0.
Qed.

Lemma array_nth (l : seq rat) (i : 'I_CONTEXT_DIM) : array l i 0 = nth 0 l i.
Proof. by rewrite /array mxE. Qed.

(** [build_context_vector] gives features in [0, 1] and a bias of 1 when
    the exchange count is not negative and the average feedback lies in
    [-1, 1]. *)
Lemma build_context_vector_range
        (intent anxiety urgency confidence polarity : string)
        (count : int) (avg : rat) :
  0 <= count -> -1 <= avg <= 1 ->
  let x := build_context_vector intent anxiety urgency confidence polarity count avg in
  (forall i : 'I_CONTEXT_DIM, 0 <= x i 0 <= 1)
  /\ x ord_max 0 = 1
  /\ \sum_(i < CONTEXT_DIM | (i < 4)%N) x i 0 = 1.
Proof.
move=> count0 /andP[avg_lo avg_hi]; rewrite /build_context_vector.
set l := (X in array X).
have sz : size l = CONTEXT_DIM by [].
have count_range : unit_range (Num.min (count%:~R / 10) 1).
  rewrite /unit_range le_min ge_min lexx orbT andbT ler01 andbT.
  by rewrite divr_ge0 // ler0z.
have avg_range : unit_range ((avg + 1) / 2).
  by rewrite /unit_range; apply/andP; split; lra.
have conf_range : unit_range (if String.eqb confidence "high" then 1 else 0).
  by case: (String.eqb _ _); rewrite ?unit_range0 ?unit_range1.
have pol_range : unit_range
      (if String.eqb polarity "positive" then 1
       else if String.eqb polarity "neutral" then 1 / 2
       else if String.eqb polarity "negative" then 0 else 1 / 2).
  by do 3![case: (String.eqb _ _); rewrite ?unit_range0 ?unit_range1 ?unit_range_half //];
     rewrite unit_range_half.
have all_l : all unit_range l.
  rewrite /l all_cat all_map; apply/andP; split.
    by apply/allP => i _ /=; case: (_ == _); rewrite ?unit_range0 ?unit_range1.
  rewrite [all _ _]/= !level_value_range conf_range pol_range count_range avg_range.
  by [].
split=> [i |].
  by rewrite array_nth; apply: (all_nthP 0 all_l); rewrite sz.
split; first by rewrite array_nth.
rewrite !big_mkcond /= !big_ord_recl big_ord0 /= !array_nth /l /=.
by do 4![case: (String.eqb intent _) => /=; first by rewrite !addr0 ?add0r].
Qed.

(** X9: In every state reached from a fresh process by [select_strategy] and
    [record_feedback] calls, the context vector [select_strategy] builds
    and hands to the bandit has all its features in [0, 1], a bias of 1,
    and intent features that sum to 1. *)
Theorem strategy_contexts_are_normalised
        (es : seq Event) (sid intent anxiety urgency confidence polarity : string) :
  exists res w',
    [/\ select_strategy sid intent anxiety urgency confidence polarity
          (after_events empty_world es) = Some (res, w'),
        forall i : 'I_CONTEXT_DIM, 0 <= context_vector res i 0 <= 1,
        context_vector res ord_max 0 = 1
      & \sum_(i < CONTEXT_DIM | (i < 4)%N) context_vector res i 0 = 1].
Proof.
have ok := after_events_ok es empty_world_ok.
have [res [w' [Hsel _ _ _ [Hx _]]]] :=
  select_strategy_ok sid intent anxiety urgency confidence polarity ok.
have [bound _] := session_view_ok sid ok.
have [range [bias onehot]] :=
  build_context_vector_range intent anxiety urgency confidence polarity
    (isT : 0 <= Posz (exchange_count (session_view sid (after_events empty_world es))).+1)
    (avg_feedback_bounded bound).
by exists res, w'; split=> //; rewrite Hx.
Qed.

(** *** Feedback of a session *)

Lemma session_view_lookup (sid : string) (w : World) (st : SessionRLState) :
  lookup sid (_session_rl_states w) = Some st -> session_view sid w = st.
Proof. by rewrite /session_view /get_session_rl_state => ->. Qed.

Lemma session_view_selected (sid : string) (w : World) (idx : int) :
  last_action_idx (session_view sid w) = Some idx ->
  lookup sid (_session_rl_states w) = Some (session_view sid w).
Proof.
by rewrite /session_view /get_session_rl_state; case: (lookup sid _) => [st|].
Qed.

(** C10: in every state reached from a fresh process by [select_strategy]
    and [record_feedback] calls, [record_feedback] for a session with a
    stored selection returns after one [update] of the bandit, for the
    stored arm and context, with reward 1 when the rating is the string
    [up] and -1 for every other string; it adds that reward to the
    session's feedback sum and one to its feedback count, and leaves the
    other sessions as they were.  For a session without a stored selection
    it returns with the bandit and every session's statistics unchanged. *)
Theorem record_feedback_rewards_up_else_down
        (es : seq Event) (sid rating : string) :
  let w := after_events empty_world es in
  let st := session_view sid w in
  let reward : rat := if String.eqb rating "up" then 1 else -1 in
  exists w',
    record_feedback sid rating w = Some w'
    /\ (reward = 1 <-> rating = "up")
    /\ (reward = -1 <-> rating <> "up")
    /\ match last_action_idx st, last_context st with
       | Some idx, Some ctx =>
           (exists2 k, idx = Posz k & (k < N_ACTIONS)%N)
           /\ update (bandit_view w) idx ctx reward = Some (bandit_view w')
           /\ session_view sid w'
              = mkSession (session_id st) (exchange_count st)
                          (feedback_sum st + reward) (feedback_count st).+1
                          (Some idx) (Some ctx)
           /\ forall other, String.eqb other sid = false ->
                session_view other w' = session_view other w
       | _, _ =>
           bandit_view w' = bandit_view w
           /\ forall s, session_view s w' = session_view s w
       end.
Proof.
move=> w st reward.
have ok : world_ok w := after_events_ok es empty_world_ok.
have [[sz _ _] _] := ok.
have [_ idx_ok] := session_view_ok sid ok.
have ne1 : (1 : rat) <> -1 by move/eqP.
have rewardP : (reward = 1 <-> rating = "up") /\ (reward = -1 <-> rating <> "up").
  rewrite /reward; case: (String.eqb_spec rating "up") => [-> | ne].
    by split; split.
  by split; split=> // H; case: ne1.
have unattributed :
  (forall st0, lookup sid (_session_rl_states w) = Some st0 ->
               last_action_idx st0 = None \/ last_context st0 = None) ->
  exists w', record_feedback sid rating w = Some w'
             /\ bandit_view w' = bandit_view w
             /\ forall s, session_view s w' = session_view s w.
  move=> Hnone; eexists; split; first exact: record_feedback_unattributed.
  split; first by rewrite bandit_view_get_session bandit_view_get.
  by move=> s; rewrite session_view_get_session session_view_get_bandit.
case Ei: (last_action_idx st) idx_ok => [idx|] idx_ok; last first.
  have [| w' [Hrec [Hb Hs]]] := unattributed.
    by move=> st0 /session_view_lookup; rewrite -/st => <-; left.
  by exists w'; split=> //; split; [exact: rewardP.1 | split; [exact: rewardP.2 |]].
case Ec: (last_context st) => [ctx|]; last first.
  have [| w' [Hrec [Hb Hs]]] := unattributed.
    by move=> st0 /session_view_lookup; rewrite -/st => <-; right.
  by exists w'; split=> //; split; [exact: rewardP.1 | split; [exact: rewardP.2 |]].
case: idx Ei idx_ok => [k | k] Ei // lt_k.
have Hl := session_view_selected Ei.
have [bandit' [w' [Hrec Hupd Hb Hsid Hother]]] :=
  record_feedback_attributed rating Hl Ei Ec sz lt_k.
exists w'; split=> //; split; [exact: rewardP.1 | split; [exact: rewardP.2 |]].
split; first by exists k.
split; first by rewrite /bandit_view /get_bandit Hb.
split; first by rewrite (session_view_lookup Hsid) Ei Ec.
move=> other ne; rewrite /session_view /get_session_rl_state (Hother _ ne).
by case: (lookup other _).
Qed.

(** *** Repeated thumbs-up on one context *)

(** One thumbs-up on [x]: with m the mean estimate on [x] and
    s = x^T A^-1 x before it, the estimate after it is (m + s) / (1 + s);
    s is positive unless [x] is the zero vector. *)
Lemma thumbs_up_one (bandit : LinUCBBandit) (k : nat) (x : ndarray1) :
  well_formed bandit -> (k < N_ACTIONS)%N ->
  exists bandit' m s,
    [/\ update bandit (Posz k) x 1 = Some bandit', well_formed bandit',
        mean_of bandit k x = Some m,
        mean_of bandit' k x = Some ((m + s) / (1 + s))
      & 0 <= s /\ (0 < s) = (x != 0)].
Proof.
move=> wf lt_k; have [sz _ arms] := wf.
have [_ pd] := arms k lt_k.
have upd := update_arm x 1 sz lt_k.
set st := nth new_stats (_stats bandit) k in pd upd.
exists (mkBandit (alpha bandit)
          (set_nth new_stats (_stats bandit) k
             (mkStats (A st + outer x x) (b st + 1 *: x)))
          (_total_selections bandit)).
exists (dot (invmx (A st) *m b st) x), (dot x (invmx (A st) *m x)).
split=> //.
- exact: update_wf upd.
- exact: mean_of_some.
- rewrite /mean_of /= nth_set_nth /= eqxx /mean_estimate /theta /linalg_solve /=.
  rewrite (posdef_unit (posdef_update x pd)) /=.
  by rewrite mean_after_update // mul1r.
split; first exact: quad_inv_ge0.
case: (eqVneq x 0) => [-> | nz]; first by rewrite dot0l ltxx.
by rewrite quad_inv_gt0.
Qed.

(** The side of 1 on which a mean estimate lies does not change with a
    thumbs-up, and the estimate moves toward 1. *)
Lemma toward_one (m s : rat) :
  0 <= s ->
  let m' := (m + s) / (1 + s) in
  [/\ (m' < 1) = (m < 1), (1 < m') = (1 < m),
      (m < m') = (0 < s) && (m < 1), (m' < m) = (0 < s) && (1 < m)
    & (m' == m) = (s == 0) || (m == 1)].
Proof.
move=> s0 m'.
have s1 : 0 < 1 + s by lra.
have m'E : m' * (1 + s) = m + s by rewrite /m' divfK // gt_eqF.
have lt1 : (m' < 1) = (m < 1).
  by rewrite /m' ltr_pdivrMr // mul1r ltrD2r.
have gt1 : (1 < m') = (1 < m).
  by rewrite /m' ltr_pdivlMr // mul1r ltrD2r.
have up : (m < m') = (0 < s) && (m < 1).
  rewrite /m' ltr_pdivlMr // mulrDr mulr1 ltrD2l.
  have [s_pos | s_le] := ltP 0 s; first by rewrite /= -[X in _ < X]mul1r ltr_pM2r.
  have -> : s = 0 by lra.
  by rewrite mulr0 ltxx.
have down : (m' < m) = (0 < s) && (1 < m).
  rewrite /m' ltr_pdivrMr // mulrDr mulr1 ltrD2l.
  have [s_pos | s_le] := ltP 0 s; first by rewrite /= -[X in X < _]mul1r ltr_pM2r.
  have -> : s = 0 by lra.
  by rewrite mulr0 ltxx.
split=> //.
have [s_pos | s_le] := ltP 0 s; last first.
  have s00 : s = 0 by lra.
  by rewrite /m' s00 eqxx addr0 divr1 eqxx.
rewrite (gt_eqF s_pos) /=.
have [lt | gt | m1] := ltgtP m 1.
- by apply/negbTE; rewrite neq_lt [X in _ || X]up s_pos lt orbT.
- by apply/negbTE; rewrite neq_lt down s_pos gt.
- by rewrite /m' m1 divff ?eqxx // gt_eqF.
Qed.

(** C6, as the code has it, in exact arithmetic: on an arm with a symmetric
    positive definite matrix, the thumbs-up number n + 1 on the context [x]
    raises the arm's mean estimate on [x] strictly exactly when [x] is not
    the zero vector and the estimate was below 1 before the first
    thumbs-up; it then stays below 1.  An estimate above 1 is lowered
    strictly at each step, and an estimate of 1, or any estimate on the
    zero vector, stays as it is. *)
Theorem thumbs_up_raises_mean_iff_below_one
        (bandit : LinUCBBandit) (k : nat) (x : ndarray1) (n : nat) :
  well_formed bandit -> (k < N_ACTIONS)%N ->
  exists m0 before after m m',
    [/\ mean_of bandit k x = Some m0,
        thumbs_up n bandit k x = Some before /\ mean_of before k x = Some m,
        thumbs_up n.+1 bandit k x = Some after /\ mean_of after k x = Some m'
      & [/\ (m < m') = (x != 0) && (m0 < 1),
            (m' < m) = (x != 0) && (1 < m0),
            (m' == m) = (x == 0) || (m0 == 1)
          & (m' < 1) = (m0 < 1)]].
Proof.
move=> wf lt_k.
have [_ [m0 [_ [_ _ Hm0 _ _]]]] := thumbs_up_one x wf lt_k.
have [before [m [Hn wfn Hm [lt1 gt1 eq1]]]] :
  exists before m,
    [/\ thumbs_up n bandit k x = Some before, well_formed before,
        mean_of before k x = Some m
      & [/\ (m < 1) = (m0 < 1), (1 < m) = (1 < m0) & (m == 1) = (m0 == 1)]].
  elim: n => [| n [bn [mn [Hn wfn Hmn [lt1 gt1 eq1]]]]]; first by exists bandit, m0.
  have [b' [m1 [s [Hu wf' Hm1 Hm' [s0 _]]]]] := thumbs_up_one x wfn lt_k.
  move: Hm1; rewrite Hmn => -[E]; rewrite -{}E in Hm'.
  have [lt1' gt1' _ _ _] := toward_one mn s0.
  exists b', ((mn + s) / (1 + s)); split=> //=; first by rewrite Hn.
  split; [by rewrite lt1' | by rewrite gt1' |].
  by rewrite eq_le !leNgt gt1' lt1' -!leNgt -eq_le.
have [after [m1 [s [Hu wf' Hm1 Hm' [s0 s_pos]]]]] := thumbs_up_one x wfn lt_k.
move: Hm1; rewrite Hm => -[E]; rewrite -{}E in Hm'.
have [lt1' gt1' up down same] := toward_one m s0.
exists m0, before, after, m, ((m + s) / (1 + s)); split=> //=; first by rewrite Hn.
split.
- by rewrite up s_pos lt1.
- by rewrite down s_pos gt1.
- rewrite same eq1; congr (_ || _).
  by rewrite -[x == 0]negbK -s_pos -leNgt eq_le s0 andbT.
- by rewrite lt1'.
Qed.

Lemma thumbs_up_raises_mean_iff_below_one_witness :
  exists m0 before after m m',
    [/\ mean_of (new_bandit ALPHA) 0 tense_context = Some m0,
        thumbs_up 2 (new_bandit ALPHA) 0 tense_context = Some before
        /\ mean_of before 0 tense_context = Some m,
        thumbs_up 3 (new_bandit ALPHA) 0 tense_context = Some after
        /\ mean_of after 0 tense_context = Some m'
      & [/\ (m < m') = (tense_context != 0) && (m0 < 1),
            (m' < m) = (tense_context != 0) && (1 < m0),
            (m' == m) = (tense_context == 0) || (m0 == 1)
          & (m' < 1) = (m0 < 1)]].
Proof.
apply: (@thumbs_up_raises_mean_iff_below_one (new_bandit ALPHA) 0 tense_context 2).
- exact: new_bandit_wf.
- by [].
Defined.

(** *** Selection, rounding and the update of one arm *)









(** *** The design matrices after a run of updates *)

(** A run of [update] calls, each with its index, context and reward. *)
Definition update_calls (us : seq (int * ndarray1 * rat)) : seq Call :=
  [seq CallUpdate u.1.1 u.1.2 u.2 | u <- us].

(** The arms after a run of updates on a new bandit: [A] is the identity
    plus the x x^T of the updates of the arm, and [b] the sum of their
    reward * x.  An update whose index is out of range raises and counts
    for no arm. *)
Lemma after_updates_stats (a : rat) (us : seq (int * ndarray1 * rat)) :
  let bandit := after_calls (new_bandit a) (update_calls us) in
  size (_stats bandit) = N_ACTIONS
  /\ forall i, (i < N_ACTIONS)%N ->
       nth new_stats (_stats bandit) i
       = mkStats
           (1%:M + \sum_(u <- us | py_index N_ACTIONS u.1.1 == Some i)
                     outer u.1.2 u.1.2)
           (\sum_(u <- us | py_index N_ACTIONS u.1.1 == Some i) u.2 *: u.1.2).
Proof.
elim/last_ind: us => [| us [[idx x] r] [sz arms]].
  split=> [| i lt_i] //.
  rewrite (_ : _stats _ = nseq N_ACTIONS new_stats) // nth_nseq lt_i.
  by rewrite !big_nil addr0.
rewrite /update_calls map_rcons /after_calls -cats1 foldl_cat /=.
rewrite -/(after_calls _ _) -/(update_calls us).
set bandit := after_calls _ _ in sz arms *.
rewrite /update sz.
case E: (py_index N_ACTIONS idx) => [k|] /=; last first.
  split=> // i lt_i; rewrite arms // !big_rcons /= E /=.
  by rewrite !addr0.
have lt_k := py_index_lt E.
split=> [| i lt_i]; first by rewrite size_set_nth sz; apply/maxn_idPr.
rewrite nth_set_nth /= !big_rcons /= E.
have -> : (Some k == Some i) = (i == k) by rewrite eq_sym.
case: eqP => [-> | _]; last by rewrite arms // !addr0.
by rewrite arms //= addrA.
Qed.

(** C5, in exact arithmetic: after every run of [update] calls on a new
    bandit, with any indices, contexts and rewards, the matrix [A] of each
    arm is the identity plus the sum of the x x^T of the arm's updates; it is
    symmetric, positive definite and invertible, and [select_action]
    returns for every context. *)
Theorem exact_updates_keep_positive_definite
        (a : rat) (us : seq (int * ndarray1 * rat)) (x : ndarray1) :
  let bandit := after_calls (new_bandit a) (update_calls us) in
  (forall i, (i < N_ACTIONS)%N ->
     let M := A (nth new_stats (_stats bandit) i) in
     [/\ M = 1%:M + \sum_(u <- us | py_index N_ACTIONS u.1.1 == Some i)
                      outer u.1.2 u.1.2,
         symmetric M, posdef M & M \in unitmx])
  /\ (exists i scores bandit',
        select_action bandit x = Some (i, nth "" ACTIONS i, scores, bandit')).
Proof.
move=> bandit.
have wf : well_formed bandit by apply: after_calls_wf; exact: new_bandit_wf.
have [_ stats] := after_updates_stats a us.
split=> [i lt_i | ].
  have [_ _ arms] := wf; have [sym pd] := arms i lt_i.
  by split=> //; [rewrite /bandit stats | exact: posdef_unit].
have [i [scores [bandit' [Hsel _ _ _]]]] := select_action_wf x wf.
by exists i, scores, bandit'.
Qed.

End RLRecommender.
